(** * tron-legacy-api: image pipeline and engagement counters

    A shallow embedding of the image-ingestion code of
    [internal/handlers/users.go] and [internal/handlers/blog.go] and of the
    engagement handlers of [internal/handlers/engagement.go], with the
    properties of the specification proved about it.

    Conventions.  Go [int] values are [Z]; the sizes met here stay far from
    the 64-bit limits, except for the page arithmetic of [ListComments],
    whose wrap-around is written out.  Packages of the Go standard library and third-party
    libraries ([image], [image/color], [x/image/draw], [goexif], the MongoDB
    driver) are modelled by their documented behaviour and keep their names
    with the package as a prefix ([image_Rect] for [image.Rect]). *)

From Stdlib Require Import ZArith List Lia Bool String Ascii Permutation Sorted.
From Stdlib Require Import Floats.SpecFloat.
From Stdlib Require Import DecimalString DecimalZ.
Import ListNotations.
Open Scope Z_scope.

(* ================================================================= *)
(** ** Package [image]: rectangles, colours and RGBA pixel buffers *)

(** [image.Rectangle]: [Min] inclusive, [Max] exclusive. *)
Record Rectangle := mkRectangle {
  MinX : Z; MinY : Z;
  MaxX : Z; MaxY : Z
}.

(** [image.Rect]: the rectangle with the given corners, made well formed by
    swapping coordinates that come in the wrong order. *)
Definition image_Rect (x0 y0 x1 y1 : Z) : Rectangle :=
  let '(x0, x1) := if x0 >? x1 then (x1, x0) else (x0, x1) in
  let '(y0, y1) := if y0 >? y1 then (y1, y0) else (y0, y1) in
  mkRectangle x0 y0 x1 y1.

Definition Dx (r : Rectangle) : Z := MaxX r - MinX r.
Definition Dy (r : Rectangle) : Z := MaxY r - MinY r.

(** [Point.In]. *)
Definition point_In (x y : Z) (r : Rectangle) : bool :=
  (MinX r <=? x) && (x <? MaxX r) && (MinY r <=? y) && (y <? MaxY r).

Definition well_formed (r : Rectangle) : Prop :=
  MinX r <= MaxX r /\ MinY r <= MaxY r.

(** [color.RGBA]: four 8-bit channels, alpha-premultiplied. *)
Record RGBA8 := mkRGBA { R : Z; G : Z; B : Z; A : Z }.

Definition transparent : RGBA8 := mkRGBA 0 0 0 0.

(** [color.Color] is an interface with the single method [RGBA()].  A value
    is either a [color.RGBA] or of some other dynamic type, which the code
    only ever observes through the four 16-bit channels that its [RGBA()]
    method returns. *)
Inductive Color :=
| ColorRGBA (c : RGBA8)
| ColorOther (r g b a : Z).

Definition uint8 (z : Z) : Z := z mod 256.

(** [color.RGBAModel.Convert]: a [color.RGBA] is returned as it is, any
    other colour is reduced to the high byte of each channel. *)
Definition rgbaModel (c : Color) : RGBA8 :=
  match c with
  | ColorRGBA c => c
  | ColorOther r g b a =>
      mkRGBA (uint8 (Z.shiftr r 8)) (uint8 (Z.shiftr g 8))
             (uint8 (Z.shiftr b 8)) (uint8 (Z.shiftr a 8))
  end.

(** [image.RGBA].  [Pix] is kept at pixel granularity (one entry per
    pixel, where Go packs four bytes), so [Stride] counts pixels per row. *)
Record RGBAImage := mkRGBAImage {
  Pix : list RGBA8;
  Stride : Z;
  Rect : Rectangle
}.

(** [image.NewRGBA]: a fully transparent buffer for the rectangle. *)
Definition image_NewRGBA (r : Rectangle) : RGBAImage :=
  {| Pix := repeat transparent (Z.to_nat (Dx r * Dy r));
     Stride := Dx r;
     Rect := r |}.

Definition PixOffset (p : RGBAImage) (x y : Z) : Z :=
  (y - MinY (Rect p)) * Stride p + (x - MinX (Rect p)).

Fixpoint list_set {T : Type} (i : nat) (v : T) (l : list T) : list T :=
  match l, i with
  | [], _ => []
  | _ :: t, O => v :: t
  | a :: t, S j => a :: list_set j v t
  end.

(** [Set] of [image.RGBA]: no effect outside the rectangle; inside, the converted
    colour is stored at the pixel's offset.  (Go would panic on an offset
    outside [Pix]; [PixOffset_in_range] shows that a buffer made by
    [image_NewRGBA] never gets there.) *)
Definition RGBA_Set (p : RGBAImage) (x y : Z) (c : Color) : RGBAImage :=
  if point_In x y (Rect p)
  then {| Pix := list_set (Z.to_nat (PixOffset p x y)) (rgbaModel c) (Pix p);
          Stride := Stride p;
          Rect := Rect p |}
  else p.

(** [RGBAAt] of [image.RGBA]: the zero colour outside the rectangle. *)
Definition RGBA_At (p : RGBAImage) (x y : Z) : RGBA8 :=
  if point_In x y (Rect p)
  then nth (Z.to_nat (PixOffset p x y)) (Pix p) transparent
  else transparent.

(** [image.Image]: the interface value handed around by the handlers.  Its
    dynamic type is [image.RGBA] for everything the transforms below
    build, and whatever the decoder chose otherwise. *)
Inductive Image :=
| ImageRGBA (p : RGBAImage)
| ImageOther (bounds : Rectangle) (at_ : Z -> Z -> Color).

Definition Bounds (img : Image) : Rectangle :=
  match img with
  | ImageRGBA p => Rect p
  | ImageOther b _ => b
  end.

Definition At (img : Image) (x y : Z) : Color :=
  match img with
  | ImageRGBA p => ColorRGBA (RGBA_At p x y)
  | ImageOther _ f => f x y
  end.

(** [for i := 0; i < n; i++ { s = body i s }]. *)
Definition for_range {St : Type} (n : Z) (body : Z -> St -> St) (s : St) : St :=
  fold_left (fun s i => body (Z.of_nat i) s) (seq 0 (Z.to_nat n)) s.

(* ================================================================= *)
(** ** Geometric transforms ([internal/handlers/users.go]) *)

Definition flipHorizontal (img : Image) : Image :=
  let bounds := Bounds img in
  let w := Dx bounds in
  let h := Dy bounds in
  let dst := image_NewRGBA (image_Rect 0 0 w h) in
  ImageRGBA
    (for_range h (fun y dst =>
       for_range w (fun x dst =>
         RGBA_Set dst (w - 1 - x) y (At img (x + MinX bounds) (y + MinY bounds)))
       dst) dst).

Definition flipVertical (img : Image) : Image :=
  let bounds := Bounds img in
  let w := Dx bounds in
  let h := Dy bounds in
  let dst := image_NewRGBA (image_Rect 0 0 w h) in
  ImageRGBA
    (for_range h (fun y dst =>
       for_range w (fun x dst =>
         RGBA_Set dst x (h - 1 - y) (At img (x + MinX bounds) (y + MinY bounds)))
       dst) dst).

Definition rotate180 (img : Image) : Image :=
  let bounds := Bounds img in
  let w := Dx bounds in
  let h := Dy bounds in
  let dst := image_NewRGBA (image_Rect 0 0 w h) in
  ImageRGBA
    (for_range h (fun y dst =>
       for_range w (fun x dst =>
         RGBA_Set dst (w - 1 - x) (h - 1 - y)
                  (At img (x + MinX bounds) (y + MinY bounds)))
       dst) dst).

Definition rotate90CW (img : Image) (newW newH : Z) : Image :=
  let bounds := Bounds img in
  let w := Dx bounds in
  let h := Dy bounds in
  let dst := image_NewRGBA (image_Rect 0 0 newW newH) in
  ImageRGBA
    (for_range h (fun y dst =>
       for_range w (fun x dst =>
         RGBA_Set dst (h - 1 - y) x (At img (x + MinX bounds) (y + MinY bounds)))
       dst) dst).

Definition rotate90CCW (img : Image) (newW newH : Z) : Image :=
  let bounds := Bounds img in
  let w := Dx bounds in
  let h := Dy bounds in
  let dst := image_NewRGBA (image_Rect 0 0 newW newH) in
  ImageRGBA
    (for_range h (fun y dst =>
       for_range w (fun x dst =>
         RGBA_Set dst y (w - 1 - x) (At img (x + MinX bounds) (y + MinY bounds)))
       dst) dst).

(** The [switch orient] of [applyExifOrientation]. *)
Definition applyOrientation (orient : Z) (img : Image) : Image :=
  let bounds := Bounds img in
  let w := Dx bounds in
  let h := Dy bounds in
  if orient =? 1 then img
  else if orient =? 2 then flipHorizontal img
  else if orient =? 3 then rotate180 img
  else if orient =? 4 then flipVertical img
  else if orient =? 5 then
    let flipped := flipHorizontal img in rotate90CCW flipped h w
  else if orient =? 6 then rotate90CW img h w
  else if orient =? 7 then
    let flipped := flipHorizontal img in rotate90CW flipped h w
  else if orient =? 8 then rotate90CCW img h w
  else img.

(** The EXIF reader ([goexif]) is a library: its decoder, tag lookup and
    integer accessor are taken as they come, each of them fallible.  The
    reader [r] is given by the bytes it yields. *)
Section Exif.
Variable Exif : Type.
Variable ExifTag : Type.
Variable exif_Decode : string -> option Exif.
Variable exif_Get_Orientation : Exif -> option ExifTag.
Variable tag_Int : ExifTag -> Z -> option Z.

Definition applyExifOrientation (r : string) (img : Image) : Image :=
  match exif_Decode r with
  | None => img
  | Some x =>
      match exif_Get_Orientation x with
      | None => img
      | Some orientTag =>
          match tag_Int orientTag 0 with
          | None => img
          | Some orient => applyOrientation orient img
          end
      end
  end.
End Exif.

(* ================================================================= *)
(** ** The specification's pixel grid and its eight corrections *)

(** The specification's [PixelGrid]: a width, a height and an RGBA value
    for every cell, addressed from the top-left corner. *)
Record Grid := mkGrid {
  gw : Z;
  gh : Z;
  gpix : Z -> Z -> RGBA8
}.

(** The grid an image shows: its extent, and each pixel as [Set] would
    store it, read relative to the top-left corner of the bounds. *)
Definition grid_of (img : Image) : Grid :=
  {| gw := Dx (Bounds img);
     gh := Dy (Bounds img);
     gpix := fun x y =>
       rgbaModel (At img (MinX (Bounds img) + x) (MinY (Bounds img) + y)) |}.

(** Two grids are equal when they have the same extent and agree on every
    cell inside it. *)
Definition grid_eq (g1 g2 : Grid) : Prop :=
  gw g1 = gw g2 /\ gh g1 = gh g2 /\
  forall x y, 0 <= x < gw g1 -> 0 <= y < gh g1 -> gpix g1 x y = gpix g2 x y.

(** The transforms of the specification's table, written on grids.  A
    mirror image keeps the extent; a quarter turn swaps width and height. *)
Definition spec_flip_horizontal (g : Grid) : Grid :=
  {| gw := gw g; gh := gh g; gpix := fun x y => gpix g (gw g - 1 - x) y |}.

Definition spec_flip_vertical (g : Grid) : Grid :=
  {| gw := gw g; gh := gh g; gpix := fun x y => gpix g x (gh g - 1 - y) |}.

Definition spec_rotate_180 (g : Grid) : Grid :=
  {| gw := gw g; gh := gh g;
     gpix := fun x y => gpix g (gw g - 1 - x) (gh g - 1 - y) |}.

(** Clockwise quarter turn: the left column becomes the top row, read
    bottom to top. *)
Definition spec_rotate_90_cw (g : Grid) : Grid :=
  {| gw := gh g; gh := gw g; gpix := fun x y => gpix g y (gh g - 1 - x) |}.

(** Counter-clockwise quarter turn: the right column becomes the top row,
    read top to bottom. *)
Definition spec_rotate_90_ccw (g : Grid) : Grid :=
  {| gw := gh g; gh := gw g; gpix := fun x y => gpix g (gw g - 1 - y) x |}.

(** The table of section 4.1, tag by tag. *)
Definition spec_correction (tag : Z) (g : Grid) : Grid :=
  match tag with
  | 1 => g
  | 2 => spec_flip_horizontal g
  | 3 => spec_rotate_180 g
  | 4 => spec_flip_vertical g
  | 5 => spec_rotate_90_ccw (spec_flip_horizontal g)
  | 6 => spec_rotate_90_cw g
  | 7 => spec_rotate_90_cw (spec_flip_horizontal g)
  | 8 => spec_rotate_90_ccw g
  | _ => g
  end.

(** The tag whose correction undoes the correction of [tag]: the mirror
    images, the half turn, the transpose (5) and the transverse (7) undo
    themselves, the two quarter turns undo each other. *)
Definition inverse_tag (tag : Z) : Z :=
  match tag with
  | 6 => 8
  | 8 => 6
  | t => t
  end.

(** The common shape of the five transform loops: every source pixel
    [(x, y)] is stored at [(tx x y, ty x y)] of the destination. *)
Definition scatter (tx ty : Z -> Z -> Z) (img : Image) (w h : Z)
           (dst : RGBAImage) : RGBAImage :=
  for_range h (fun y dst =>
    for_range w (fun x dst =>
      RGBA_Set dst (tx x y) (ty x y)
               (At img (x + MinX (Bounds img)) (y + MinY (Bounds img))))
    dst) dst.

(** A pixel buffer as [image_NewRGBA] lays it out: one row after the
    other, no padding. *)
Definition packed (p : RGBAImage) : Prop :=
  well_formed (Rect p) /\
  Stride p = Dx (Rect p) /\
  Z.of_nat (List.length (Pix p)) = Dx (Rect p) * Dy (Rect p).

(** A pixel grid in the sense of the data model: a packed RGBA buffer whose
    top-left corner is the origin. *)
Definition pixel_grid (img : Image) : Prop :=
  match img with
  | ImageRGBA p => packed p /\ MinX (Rect p) = 0 /\ MinY (Rect p) = 0
  | ImageOther _ _ => False
  end.

(* ================================================================= *)
(** ** Resizing *)

(** The kernels of [x/image/draw]. *)
Inductive Interpolator :=
| NearestNeighbor
| ApproxBiLinear
| BiLinear
| CatmullRom.

(** The kernels the library documents as high quality (slow, smooth). *)
Definition high_quality (k : Interpolator) : bool :=
  match k with
  | CatmullRom => true
  | _ => false
  end.

Inductive DrawOp := Over | Src.

(** *** [float64] arithmetic, for [resizeCover] *)

(** Doubles are the IEEE 754 binary64 numbers of the standard library's
    executable specification. *)

Definition float64 := spec_float.
Definition prec64 : Z := 53.
Definition emax64 : Z := 1024.

(** [float64(n)] for an integer [n]: the nearest double. *)
Definition float64_of_int (n : Z) : float64 :=
  binary_normalize prec64 emax64 n 0 false.

Definition float64_mul : float64 -> float64 -> float64 := SFmul prec64 emax64.
Definition float64_div : float64 -> float64 -> float64 := SFdiv prec64 emax64.

(** [int(f)]: the fraction is discarded (truncation toward zero).  For a
    NaN or an infinity Go leaves the result to the implementation; the
    model answers 0, and no theorem below depends on it. *)
Definition int_of_float64 (f : float64) : Z :=
  match f with
  | S754_finite s m e =>
      let v := if 0 <=? e then Z.pos m * 2 ^ e
               else Z.quot (Z.pos m) (2 ^ (- e)) in
      if s then - v else v
  | _ => 0
  end.

Section Resize.
(** [Interpolator.Scale] writes into the pixels of [dst] and leaves its
    rectangle and stride alone; the pixel values it computes (a
    floating-point convolution) are taken from the library as they come. *)
Variable scaled_pixels :
  Interpolator -> RGBAImage -> Rectangle -> Image -> Rectangle -> DrawOp ->
  list RGBA8.

Definition draw_Scale (k : Interpolator) (dst : RGBAImage) (dr : Rectangle)
           (src : Image) (sr : Rectangle) (op : DrawOp) : RGBAImage :=
  {| Pix := scaled_pixels k dst dr src sr op;
     Stride := Stride dst;
     Rect := Rect dst |}.

(** The square that [resizeImage] cuts out of the source. *)
Definition cropRect_of (img : Image) : Rectangle :=
  let bounds := Bounds img in
  let srcWidth := Dx bounds in
  let srcHeight := Dy bounds in
  if srcWidth >? srcHeight then
    let offset := Z.quot (srcWidth - srcHeight) 2 in
    image_Rect offset 0 (offset + srcHeight) srcHeight
  else
    let offset := Z.quot (srcHeight - srcWidth) 2 in
    image_Rect 0 offset srcWidth (offset + srcWidth).

(** [resizeImage] ([users.go]). *)
Definition resizeImage (img : Image) (width height : Z) : Image :=
  let cropRect := cropRect_of img in
  let dst := image_NewRGBA (image_Rect 0 0 width height) in
  ImageRGBA (draw_Scale CatmullRom dst (Rect dst) img cropRect Over).

(** [resizeCover] ([blog.go]). *)
Definition resizeCover (img : Image) (maxWidth : Z) : Image :=
  let bounds := Bounds img in
  let srcW := Dx bounds in
  let srcH := Dy bounds in
  if srcW <=? maxWidth then img
  else
    let newW := maxWidth in
    let newH :=
      int_of_float64
        (float64_div
           (float64_mul (float64_of_int srcH) (float64_of_int maxWidth))
           (float64_of_int srcW)) in
    let dst := image_NewRGBA (image_Rect 0 0 newW newH) in
    ImageRGBA (draw_Scale CatmullRom dst (Rect dst) img bounds Over).
End Resize.

(** Rounding to the nearest integer (halves upward), as the specification
    writes [round]; [n] and [d] are the numerator and the denominator. *)
Definition spec_round (n d : Z) : Z := (2 * n + d) / (2 * d).

(** The positive double with mantissa [m] and exponent [e]. *)
Definition finite64 (m e : Z) : float64 := S754_finite false (Z.to_pos m) e.

(** The double of a positive integer below [2 ^ 53]: the integer itself,
    shifted left until the mantissa has 53 bits. *)
Definition normal_of (n : Z) : float64 :=
  finite64 (n * 2 ^ (53 - Zdigits2 n)) (Zdigits2 n - 53).

(* ================================================================= *)
(** ** The document store *)

Open Scope string_scope.
Open Scope list_scope.
Open Scope Z_scope.

(** [primitive.ObjectID]; [primitive.NilObjectID] is the zero value, which
    [middleware.GetUserID] returns for an anonymous caller. *)
Definition ObjectID := Z.
Definition NilObjectID : ObjectID := 0.

(** [models.BlogPost], with the fields the engagement handlers read or
    write. *)
Record BlogPost := mkBlogPost {
  post_ID : ObjectID;
  post_AuthorID : ObjectID;
  post_Slug : string;
  post_Status : string;
  post_ViewCount : Z;
  post_UniqueViewCount : Z;
  post_LikeCount : Z;
  post_CommentCount : Z
}.

Record PostView := mkPostView {
  view_ID : ObjectID;
  view_PostID : ObjectID;
  view_UserID : ObjectID;
  view_ViewedAt : Z
}.

Record PostLike := mkPostLike {
  like_ID : ObjectID;
  like_PostID : ObjectID;
  like_UserID : ObjectID;
  like_CreatedAt : Z
}.

Record PostComment := mkPostComment {
  comment_ID : ObjectID;
  comment_PostID : ObjectID;
  comment_UserID : ObjectID;
  comment_Content : string;
  comment_CreatedAt : Z;
  comment_UpdatedAt : Z
}.

Record Profile := mkProfile {
  profile_UserID : ObjectID;
  profile_Name : string;
  profile_Avatar : string;
  profile_Role : string;
  profile_UpdatedAt : Z
}.

Record BlogImage := mkBlogImage {
  image_ID : ObjectID;
  image_UploaderID : ObjectID;
  image_Data : string;
  image_Size : Z;
  image_CreatedAt : Z
}.

Record CommentResponse := mkCommentResponse {
  cr_PostComment : PostComment;
  cr_AuthorName : string;
  cr_AuthorAvatar : string
}.

(** The collections of [internal/database]: documents in natural order. *)
Record DB := mkDB {
  Posts : list BlogPost;
  PostViews : list PostView;
  PostLikes : list PostLike;
  PostComments : list PostComment;
  Profiles : list Profile;
  Images : list BlogImage
}.

Definition with_Posts (d : DB) (ps : list BlogPost) : DB :=
  mkDB ps (PostViews d) (PostLikes d) (PostComments d) (Profiles d) (Images d).
Definition with_PostViews (d : DB) (vs : list PostView) : DB :=
  mkDB (Posts d) vs (PostLikes d) (PostComments d) (Profiles d) (Images d).
Definition with_PostLikes (d : DB) (ls : list PostLike) : DB :=
  mkDB (Posts d) (PostViews d) ls (PostComments d) (Profiles d) (Images d).
Definition with_PostComments (d : DB) (cs : list PostComment) : DB :=
  mkDB (Posts d) (PostViews d) (PostLikes d) cs (Profiles d) (Images d).
Definition with_Profiles (d : DB) (ps : list Profile) : DB :=
  mkDB (Posts d) (PostViews d) (PostLikes d) (PostComments d) ps (Images d).
Definition with_Images (d : DB) (imgs : list BlogImage) : DB :=
  mkDB (Posts d) (PostViews d) (PostLikes d) (PostComments d) (Profiles d) imgs.

(** *** Single-document operations of the driver, on one collection *)

(** [FindOne]: the first document the filter selects. *)
Definition coll_FindOne {T : Type} (filter : T -> bool) (c : list T) : option T :=
  find filter c.

(** [UpdateOne]: the first selected document is replaced by its update;
    the count is [MatchedCount]. *)
Fixpoint coll_UpdateOne {T : Type} (filter : T -> bool) (upd : T -> T)
         (c : list T) : Z * list T :=
  match c with
  | [] => (0, [])
  | x :: t =>
      if filter x then (1, upd x :: t)
      else let '(n, t') := coll_UpdateOne filter upd t in (n, x :: t')
  end.

(** [DeleteOne]: the first selected document is removed; the count is
    [DeletedCount]. *)
Fixpoint coll_DeleteOne {T : Type} (filter : T -> bool) (c : list T)
  : Z * list T :=
  match c with
  | [] => (0, [])
  | x :: t =>
      if filter x then (1, t)
      else let '(n, t') := coll_DeleteOne filter t in (n, x :: t')
  end.

(** [UpdateOne] with [$setOnInsert] only and [SetUpsert(true)]: a selected
    document is left as it is; without one, [doc] is inserted.  The count
    is [UpsertedCount]. *)
Definition coll_Upsert {T : Type} (filter : T -> bool) (doc : T) (c : list T)
  : Z * list T :=
  if existsb filter c then (0, c) else (1, c ++ [doc]).

(** [InsertOne] into a collection with a unique index: refused ([None])
    when a stored document has the same key.  ([_id] values come from
    [primitive.NewObjectID] and are taken to be fresh.) *)
Definition coll_InsertOne_unique {T : Type} (same_key : T -> bool) (doc : T)
           (c : list T) : option (list T) :=
  if existsb same_key c then None else Some (c ++ [doc]).

(** The counters of a post, and [$inc] on one of them. *)
Inductive Counter := view_count | unique_view_count | like_count | comment_count.

Definition inc (f : Counter) (delta : Z) (p : BlogPost) : BlogPost :=
  match f with
  | view_count =>
      mkBlogPost (post_ID p) (post_AuthorID p) (post_Slug p) (post_Status p)
        (post_ViewCount p + delta) (post_UniqueViewCount p)
        (post_LikeCount p) (post_CommentCount p)
  | unique_view_count =>
      mkBlogPost (post_ID p) (post_AuthorID p) (post_Slug p) (post_Status p)
        (post_ViewCount p) (post_UniqueViewCount p + delta)
        (post_LikeCount p) (post_CommentCount p)
  | like_count =>
      mkBlogPost (post_ID p) (post_AuthorID p) (post_Slug p) (post_Status p)
        (post_ViewCount p) (post_UniqueViewCount p)
        (post_LikeCount p + delta) (post_CommentCount p)
  | comment_count =>
      mkBlogPost (post_ID p) (post_AuthorID p) (post_Slug p) (post_Status p)
        (post_ViewCount p) (post_UniqueViewCount p)
        (post_LikeCount p) (post_CommentCount p + delta)
  end.

(* ================================================================= *)
(** ** Requests, responses, side effects *)

Inductive AttrValue := VInt (z : Z) | VStr (s : string).

(** What a handler does besides answering and writing to the store. *)
Inductive Effect :=
| MetricInc (increment : string)
| LogInfo (event : string) (attrs : list (string * AttrValue)).

Inductive Body :=
| BodyError (msg : string)
| BodyMessage (msg : string)
| BodyLike (liked : bool) (like_count : Z)
| BodyComment (c : CommentResponse)
| BodyProfile (p : Profile)
| BodyURL (path : string) (id : ObjectID).

Record Response := mkResponse {
  StatusCode : Z;
  ResponseBody : Body
}.

Definition StatusOK : Z := 200.
Definition StatusCreated : Z := 201.
Definition StatusBadRequest : Z := 400.
Definition StatusUnauthorized : Z := 401.
Definition StatusNotFound : Z := 404.
Definition StatusRequestEntityTooLarge : Z := 413.
Definition StatusInternalServerError : Z := 500.

Definition http_Error (msg : string) (code : Z) : Response :=
  mkResponse code (BodyError msg).

(** [json.NewEncoder(w).Encode(v)] on a fresh response writer: status 200. *)
Definition json_OK (b : Body) : Response := mkResponse StatusOK b.

Definition client_error (r : Response) : bool :=
  (400 <=? StatusCode r) && (StatusCode r <? 500).

Record CreateCommentRequest := mkCreateCommentRequest {
  ccr_Content : string
}.

(** An engagement request: the caller's identity as the auth middleware
    left it, the [slug] path value, and the body as [json.Decode] reads it
    ([None] when decoding fails). *)
Record Request := mkRequest {
  req_UserID : ObjectID;
  req_Slug : string;
  req_Body : option CreateCommentRequest
}.

(* ================================================================= *)
(** ** Handlers as store programs *)

(** The surroundings of one handler run.  Store operations are numbered
    in the order the handler issues them: [fails i] says the [i]-th one
    returns an error (time-out, lost connection) without taking effect,
    [others i] is what concurrent requests did to the store since the
    previous operation.  [NewObjectID] and [Now] are the values of
    [primitive.NewObjectID()] and [time.Now()]. *)
Record Env := mkEnv {
  fails : nat -> bool;
  others : nat -> DB -> DB;
  NewObjectID : ObjectID;
  Now : Z
}.

Record World := mkWorld {
  db : DB;
  issued : nat;
  effects : list Effect
}.

Definition M (T : Type) : Type := Env -> World -> T * World.

Definition ret {T : Type} (x : T) : M T := fun _ w => (x, w).

Definition bind {T U : Type} (m : M T) (k : T -> M U) : M U :=
  fun env w => let '(x, w') := m env w in k x env w'.

Notation "x <- m ;; k" := (bind m (fun x => k))
  (at level 61, m at next level, right associativity).
Notation "m ;;; k" := (bind m (fun _ => k))
  (at level 61, right associativity).

Definition ask : M Env := fun env w => (env, w).

Definition emit (e : Effect) : M unit :=
  fun _ w => (tt, mkWorld (db w) (issued w) (effects w ++ [e])).

(** One store operation: [None] is a returned [err]. *)
Definition store_op {T : Type} (f : DB -> option T * DB) : M (option T) :=
  fun env w =>
    let d := others env (issued w) (db w) in
    if fails env (issued w)
    then (None, mkWorld d (S (issued w)) (effects w))
    else let '(r, d') := f d in (r, mkWorld d' (S (issued w)) (effects w)).

Definition run {T : Type} (m : M T) (env : Env) (d : DB) : T * World :=
  m env (mkWorld d 0 []).

(** An environment without concurrent writers, and one without errors. *)
Definition quiet (env : Env) : Prop := forall i d, others env i d = d.
Definition no_faults (env : Env) : Prop := forall i, fails env i = false.

(** *** The store operations the handlers issue *)

Definition Posts_FindOne (filter : BlogPost -> bool) : M (option BlogPost) :=
  store_op (fun d => (coll_FindOne filter (Posts d), d)).

Definition Posts_UpdateOne_inc (id : ObjectID) (f : Counter) (delta : Z)
  : M (option Z) :=
  store_op (fun d =>
    let '(n, ps) := coll_UpdateOne (fun p => post_ID p =? id) (inc f delta) (Posts d) in
    (Some n, with_Posts d ps)).

Definition PostViews_Upsert (postID userID : ObjectID) (doc : PostView)
  : M (option Z) :=
  store_op (fun d =>
    let '(n, vs) :=
      coll_Upsert (fun v => (view_PostID v =? postID) && (view_UserID v =? userID))
                  doc (PostViews d) in
    (Some n, with_PostViews d vs)).

Definition PostLikes_DeleteOne (postID userID : ObjectID) : M (option Z) :=
  store_op (fun d =>
    let '(n, ls) :=
      coll_DeleteOne (fun l => (like_PostID l =? postID) && (like_UserID l =? userID))
                     (PostLikes d) in
    (Some n, with_PostLikes d ls)).

(** [post_likes] carries the unique index on [(post_id, user_id)] of
    [EnsureIndexes]. *)
Definition PostLikes_InsertOne (doc : PostLike) : M (option unit) :=
  store_op (fun d =>
    match coll_InsertOne_unique
            (fun l => (like_PostID l =? like_PostID doc) &&
                      (like_UserID l =? like_UserID doc))
            doc (PostLikes d) with
    | Some ls => (Some tt, with_PostLikes d ls)
    | None => (None, d)
    end).

Definition PostComments_InsertOne (doc : PostComment) : M (option unit) :=
  store_op (fun d => (Some tt, with_PostComments d (PostComments d ++ [doc]))).

Definition Profiles_Find (filter : Profile -> bool) : M (option (list Profile)) :=
  store_op (fun d => (Some (List.filter filter (Profiles d)), d)).

(** [resolvePostBySlug]: the published post with this slug, [None] ([nil])
    when the lookup fails for any reason. *)
Definition resolvePostBySlug (slug : string) : M (option BlogPost) :=
  Posts_FindOne (fun p => (post_Slug p =? slug)%string && (post_Status p =? "published")%string).

(** [enrichCommentsWithAuthor]: author name and avatar from the profiles;
    a failed profile query leaves them empty. *)
Definition enrichCommentsWithAuthor (comments : list PostComment)
  : M (list CommentResponse) :=
  if (List.length comments =? 0)%nat then ret []
  else
    let ids := map comment_UserID comments in
    r <- Profiles_Find (fun p => existsb (Z.eqb (profile_UserID p)) ids) ;;
    let profileMap := match r with Some ps => ps | None => [] end in
    ret (map (fun comment =>
                match find (fun p => profile_UserID p =? comment_UserID comment)
                           (rev profileMap) with
                | Some profile =>
                    mkCommentResponse comment (profile_Name profile)
                                      (profile_Avatar profile)
                | None => mkCommentResponse comment "" ""
                end) comments).

(** [RecordView] ([engagement.go]). *)
Definition RecordView (r : Request) : M Response :=
  let slug := req_Slug r in
  if (slug =? "")%string then ret (http_Error "Slug is required" StatusBadRequest)
  else
    post <- resolvePostBySlug slug ;;
    match post with
    | None => ret (http_Error "Post not found" StatusNotFound)
    | Some post =>
        (* Always increment view_count *)
        res <- Posts_UpdateOne_inc (post_ID post) view_count 1 ;;
        match res with
        | None => ret (http_Error "Error recording view" StatusInternalServerError)
        | Some _ =>
            emit (MetricInc "IncPostView") ;;;
            (* If authenticated, track unique view *)
            let userID := req_UserID r in
            (if negb (userID =? NilObjectID) then
               env <- ask ;;
               result <- PostViews_Upsert (post_ID post) userID
                           (mkPostView (NewObjectID env) (post_ID post) userID (Now env)) ;;
               match result with
               | Some upsertedCount =>
                   if upsertedCount >? 0 then
                     (* New unique view *)
                     Posts_UpdateOne_inc (post_ID post) unique_view_count 1 ;;;
                     ret tt
                   else ret tt
               | None => ret tt
               end
             else ret tt) ;;;
            emit (LogInfo "post_view_recorded"
                    [("post_id", VInt (post_ID post)); ("slug", VStr slug)]) ;;;
            ret (json_OK (BodyMessage "View recorded"))
        end
    end.

(** [ToggleLike] ([engagement.go]). *)
Definition ToggleLike (r : Request) : M Response :=
  let userID := req_UserID r in
  if userID =? NilObjectID then ret (http_Error "Unauthorized" StatusUnauthorized)
  else
    let slug := req_Slug r in
    if (slug =? "")%string then ret (http_Error "Slug is required" StatusBadRequest)
    else
      post <- resolvePostBySlug slug ;;
      match post with
      | None => ret (http_Error "Post not found" StatusNotFound)
      | Some post =>
          (* Try to delete existing like *)
          result <- PostLikes_DeleteOne (post_ID post) userID ;;
          match result with
          | None => ret (http_Error "Error toggling like" StatusInternalServerError)
          | Some deletedCount =>
              let finish (liked : bool) : M Response :=
                (* Fetch updated like_count *)
                updated <- Posts_FindOne (fun p => post_ID p =? post_ID post) ;;
                let likeCount :=
                  match updated with
                  | Some u => post_LikeCount u
                  | None => 0
                  end in
                ret (json_OK (BodyLike liked likeCount)) in
              if deletedCount >? 0 then
                (* Unlike: decrement like_count *)
                Posts_UpdateOne_inc (post_ID post) like_count (-1) ;;;
                emit (MetricInc "IncPostUnlike") ;;;
                emit (LogInfo "post_unliked"
                        [("post_id", VInt (post_ID post)); ("user_id", VInt userID)]) ;;;
                finish false
              else
                (* Like: insert and increment *)
                env <- ask ;;
                ins <- PostLikes_InsertOne
                         (mkPostLike (NewObjectID env) (post_ID post) userID (Now env)) ;;
                match ins with
                | None =>
                    ret (http_Error "Error toggling like" StatusInternalServerError)
                | Some _ =>
                    Posts_UpdateOne_inc (post_ID post) like_count 1 ;;;
                    emit (MetricInc "IncPostLike") ;;;
                    emit (LogInfo "post_liked"
                            [("post_id", VInt (post_ID post)); ("user_id", VInt userID)]) ;;;
                    finish true
                end
          end
      end.

(** [CreateComment] ([engagement.go]).  [len(req.Content)] is the length
    of the string in bytes. *)
Definition CreateComment (r : Request) : M Response :=
  let userID := req_UserID r in
  if userID =? NilObjectID then ret (http_Error "Unauthorized" StatusUnauthorized)
  else
    let slug := req_Slug r in
    if (slug =? "")%string then ret (http_Error "Slug is required" StatusBadRequest)
    else
      match req_Body r with
      | None => ret (http_Error "Invalid request body" StatusBadRequest)
      | Some req =>
          let len := Z.of_nat (String.length (ccr_Content req)) in
          if (len <? 1) || (len >? 2000) then
            ret (http_Error "Content must be between 1 and 2000 characters"
                            StatusBadRequest)
          else
            post <- resolvePostBySlug slug ;;
            match post with
            | None => ret (http_Error "Post not found" StatusNotFound)
            | Some post =>
                env <- ask ;;
                let now := Now env in
                let comment :=
                  mkPostComment (NewObjectID env) (post_ID post) userID
                                (ccr_Content req) now now in
                ins <- PostComments_InsertOne comment ;;
                match ins with
                | None =>
                    ret (http_Error "Error creating comment" StatusInternalServerError)
                | Some _ =>
                    (* Increment comment_count *)
                    Posts_UpdateOne_inc (post_ID post) comment_count 1 ;;;
                    emit (MetricInc "IncCommentCreated") ;;;
                    emit (LogInfo "comment_created"
                            [("comment_id", VInt (comment_ID comment));
                             ("post_id", VInt (post_ID post));
                             ("user_id", VInt userID)]) ;;;
                    responses <- enrichCommentsWithAuthor [comment] ;;
                    match responses with
                    | resp :: _ => ret (mkResponse StatusCreated (BodyComment resp))
                    | [] =>
                        ret (mkResponse StatusCreated
                               (BodyComment (mkCommentResponse comment "" "")))
                    end
                end
            end
      end.

(* ================================================================= *)
(** ** The upload handlers *)

(** One file of a multipart form: the form field it was sent under, the
    [Content-Type] its part header declares, and what [io.ReadAll] gets
    out of it ([None] for a read error). *)
Record FilePart := mkFilePart {
  part_Field : string;
  part_ContentType : string;
  part_Data : option string
}.

(** An upload request: the caller, the number of bytes of the body that
    the multipart parser has to read (the form up to the end of its
    closing boundary, what follows it being left unread; the whole body
    when there is no closing boundary), and the form that these bytes
    parse to ([None] when they are not a multipart form). *)
Record UploadRequest := mkUploadRequest {
  up_UserID : ObjectID;
  up_FormLength : Z;
  up_Form : option (list FilePart)
}.

(** [5 << 20], the limit given to [http.MaxBytesReader] and to
    [ParseMultipartForm]. *)
Definition max_upload : Z := Z.shiftl 5 20.

(** [r.ParseMultipartForm] behind the [MaxBytesReader]: the reader hands
    out the first [max_upload] bytes of the body and then fails, so
    parsing fails when the form does not end within them, and otherwise
    gives the form, however long the body goes on after it. *)
Definition ParseMultipartForm (r : UploadRequest) : option (list FilePart) :=
  if up_FormLength r >? max_upload then None else up_Form r.

(** [r.FormFile(name)]: the first file sent under the field. *)
Definition FormFile (form : list FilePart) (name : string) : option FilePart :=
  find (fun p => (part_Field p =? name)%string) form.

Definition zero_Profile : Profile := mkProfile 0 "" "" "" 0.

Definition Profiles_UpdateOne_avatar (userID : ObjectID) (avatar : string)
           (now : Z) : M (option Z) :=
  store_op (fun d =>
    let '(n, ps) :=
      coll_UpdateOne (fun p => profile_UserID p =? userID)
        (fun p => mkProfile (profile_UserID p) (profile_Name p) avatar
                            (profile_Role p) now)
        (Profiles d) in
    (Some n, with_Profiles d ps)).

Definition Profiles_FindOne (userID : ObjectID) : M (option Profile) :=
  store_op (fun d =>
    (coll_FindOne (fun p => profile_UserID p =? userID) (Profiles d), d)).

Definition Images_InsertOne (doc : BlogImage) : M (option unit) :=
  store_op (fun d => (Some tt, with_Images d (Images d ++ [doc]))).

Section Upload.
(** The codecs and sniffers are libraries, taken as they come. *)
Variable Exif : Type.
Variable ExifTag : Type.
Variable exif_Decode : string -> option Exif.
Variable exif_Get_Orientation : Exif -> option ExifTag.
Variable tag_Int : ExifTag -> Z -> option Z.
Variable scaled_pixels :
  Interpolator -> RGBAImage -> Rectangle -> Image -> Rectangle -> DrawOp ->
  list RGBA8.
Variable image_Decode : string -> option Image.
Variable jpeg_Encode : Image -> Z -> option string.
Variable base64_EncodeToString : string -> string.
Variable http_DetectContentType : string -> string.

(** [UploadAvatar] ([users.go]). *)
Definition UploadAvatar (r : UploadRequest) : M Response :=
  let userID := up_UserID r in
  if userID =? NilObjectID then ret (http_Error "Unauthorized" StatusUnauthorized)
  else
    match ParseMultipartForm r with
    | None =>
        ret (http_Error "Image too large (max 5MB)" StatusRequestEntityTooLarge)
    | Some form =>
        match FormFile form "avatar" with
        | None => ret (http_Error "No image provided" StatusBadRequest)
        | Some file =>
            let contentType := part_ContentType file in
            if negb (contentType =? "image/jpeg")%string &&
               negb (contentType =? "image/png")%string
            then ret (http_Error "Only JPEG and PNG images are allowed"
                                 StatusBadRequest)
            else
              match part_Data file with
              | None => ret (http_Error "Failed to read image" StatusBadRequest)
              | Some imgData =>
                  match image_Decode imgData with
                  | None => ret (http_Error "Invalid image format" StatusBadRequest)
                  | Some img =>
                      let img :=
                        applyExifOrientation Exif ExifTag exif_Decode
                          exif_Get_Orientation tag_Int imgData img in
                      let resized := resizeImage scaled_pixels img 256 256 in
                      match jpeg_Encode resized 80 with
                      | None =>
                          ret (http_Error "Failed to process image"
                                          StatusInternalServerError)
                      | Some buf =>
                          let base64Img :=
                            ("data:image/jpeg;base64," ++
                             base64_EncodeToString buf)%string in
                          env <- ask ;;
                          result <- Profiles_UpdateOne_avatar userID base64Img
                                      (Now env) ;;
                          match result with
                          | None =>
                              (* the message is [err.Error()] *)
                              ret (http_Error "update failed"
                                              StatusInternalServerError)
                          | Some matchedCount =>
                              if matchedCount =? 0 then
                                ret (http_Error "Profile not found" StatusNotFound)
                              else
                                found <- Profiles_FindOne userID ;;
                                let profile :=
                                  match found with
                                  | Some p => p
                                  | None => zero_Profile
                                  end in
                                (* Log event and increment metrics *)
                                emit (MetricInc "IncAvatarUpload") ;;;
                                emit (LogInfo "avatar_uploaded"
                                        [("user_id", VInt userID);
                                         ("size_bytes",
                                          VInt (Z.of_nat (String.length base64Img)))]) ;;;
                                ret (json_OK (BodyProfile profile))
                          end
                      end
                  end
              end
        end
    end.

(** [UploadPostImage] ([blog.go]). *)
Definition UploadPostImage (r : UploadRequest) : M Response :=
  let userID := up_UserID r in
  if userID =? NilObjectID then ret (http_Error "Unauthorized" StatusUnauthorized)
  else
    match ParseMultipartForm r with
    | None =>
        ret (http_Error "Image too large (max 5MB)" StatusRequestEntityTooLarge)
    | Some form =>
        match FormFile form "image" with
        | None =>
            ret (http_Error "No image provided. Use field name 'image'"
                            StatusBadRequest)
        | Some file =>
            match part_Data file with
            | None => ret (http_Error "Failed to read image" StatusBadRequest)
            | Some imgData =>
                (* Detect real content type from file bytes *)
                let detectedType := http_DetectContentType imgData in
                if negb (detectedType =? "image/jpeg")%string &&
                   negb (detectedType =? "image/png")%string &&
                   negb (detectedType =? "image/webp")%string
                then ret (http_Error "Only JPEG, PNG and WebP images are allowed"
                                     StatusBadRequest)
                else
                  match image_Decode imgData with
                  | None => ret (http_Error "Invalid image format" StatusBadRequest)
                  | Some img =>
                      let resized := resizeCover scaled_pixels img 800 in
                      match jpeg_Encode resized 65 with
                      | None =>
                          ret (http_Error "Failed to process image"
                                          StatusInternalServerError)
                      | Some buf =>
                          let base64Img := base64_EncodeToString buf in
                          env <- ask ;;
                          let imgDoc :=
                            mkBlogImage (NewObjectID env) userID base64Img
                                        (Z.of_nat (String.length buf)) (Now env) in
                          ins <- Images_InsertOne imgDoc ;;
                          match ins with
                          | None =>
                              ret (http_Error "Error saving image"
                                              StatusInternalServerError)
                          | Some _ =>
                              emit (LogInfo "blog_image_uploaded"
                                      [("image_id", VInt (image_ID imgDoc));
                                       ("user_id", VInt userID);
                                       ("original_size",
                                        VInt (Z.of_nat (String.length imgData)));
                                       ("compressed_size",
                                        VInt (Z.of_nat (String.length buf)))]) ;;;
                              ret (json_OK (BodyURL "/api/v1/blog/images/"
                                                    (image_ID imgDoc)))
                          end
                      end
                  end
            end
        end
    end.
End Upload.

(* ================================================================= *)
(** ** Vocabulary of the properties *)

(** The effects a run leaves, and the store it leaves. *)
Definition effects_of {T : Type} (out : T * World) : list Effect := effects (snd out).
Definition db_of {T : Type} (out : T * World) : DB := db (snd out).

Definition is_metric (e : Effect) : bool :=
  match e with MetricInc _ => true | LogInfo _ _ => false end.
Definition is_log (e : Effect) : bool :=
  match e with LogInfo _ _ => true | MetricInc _ => false end.

(** The post with a given id, and whether a marker exists for a pair. *)
Definition post_by_id (d : DB) (id : ObjectID) : option BlogPost :=
  find (fun p => post_ID p =? id) (Posts d).

Definition published_post (d : DB) (slug : string) : option BlogPost :=
  find (fun p => (post_Slug p =? slug)%string && (post_Status p =? "published")%string)
       (Posts d).

Definition viewed (d : DB) (postID userID : ObjectID) : bool :=
  existsb (fun v => (view_PostID v =? postID) && (view_UserID v =? userID))
          (PostViews d).

Definition liked (d : DB) (postID userID : ObjectID) : bool :=
  existsb (fun l => (like_PostID l =? postID) && (like_UserID l =? userID))
          (PostLikes d).

(** The pair that the unique index of a marker collection covers, and the
    filter that selects the marker of a pair. *)
Definition like_key (l : PostLike) : Z * Z := (like_PostID l, like_UserID l).
Definition view_key (v : PostView) : Z * Z := (view_PostID v, view_UserID v).

Definition has_key {T : Type} (key : T -> Z * Z) (k : Z * Z) (x : T) : bool :=
  (fst (key x) =? fst k) && (snd (key x) =? snd k).

(** What the store guarantees at all times: [_id] identifies a post, and
    the unique indexes of [EnsureIndexes] hold. *)
Definition store_ok (d : DB) : Prop :=
  NoDup (map post_ID (Posts d)) /\
  NoDup (map like_key (PostLikes d)) /\
  NoDup (map view_key (PostViews d)).

(** The value of a counter in a post document, and the counter of the post
    [id] in the store; 0 when there is no such post. *)
Definition read (f : Counter) (p : BlogPost) : Z :=
  match f with
  | view_count => post_ViewCount p
  | unique_view_count => post_UniqueViewCount p
  | like_count => post_LikeCount p
  | comment_count => post_CommentCount p
  end.

Definition counter (f : Counter) (d : DB) (id : ObjectID) : Z :=
  match post_by_id d id with
  | Some p => read f p
  | None => 0
  end.

Definition Counter_eqb (f g : Counter) : bool :=
  match f, g with
  | view_count, view_count
  | unique_view_count, unique_view_count
  | like_count, like_count
  | comment_count, comment_count => true
  | _, _ => false
  end.

(** The world after a store operation that changed nothing. *)
Definition bump (w : World) : World :=
  mkWorld (db w) (S (issued w)) (effects w).

(** Requests handled one after the other, each in its own environment;
    the answers come back in order. *)
Fixpoint serve (h : Request -> M Response) (calls : list (Request * Env)) (d : DB)
  : list Response * DB :=
  match calls with
  | [] => ([], d)
  | (r, env) :: rest =>
      let out := run (h r) env d in
      let '(rs, d') := serve h rest (db_of out) in
      (fst out :: rs, d')
  end.

(** How many of the calls are made by [userID] and raise the
    [unique_view_count] of the post [postID]. *)
Fixpoint unique_increments (postID userID : ObjectID)
         (calls : list (Request * Env)) (d : DB) : nat :=
  match calls with
  | [] => O
  | (r, env) :: rest =>
      let d' := db_of (run (RecordView r) env d) in
      Nat.add
        (if (req_UserID r =? userID) &&
            (counter unique_view_count d postID <? counter unique_view_count d' postID)
         then 1%nat else 0%nat)
        (unique_increments postID userID rest d')
  end.

(** The number of characters of a text: the bytes of its UTF-8 encoding
    that start a code point (all but the continuation bytes [10xxxxxx]). *)
Fixpoint characters (s : string) : Z :=
  match s with
  | EmptyString => 0
  | String c t =>
      let b := Z.of_N (N_of_ascii c) in
      (if (128 <=? b) && (b <? 192) then 0 else 1) + characters t
  end.

(** [liked] as a response reports it. *)
Definition reported_liked (r : Response) : option bool :=
  match ResponseBody r with
  | BodyLike l _ => Some l
  | _ => None
  end.

Definition reported_like_count (r : Response) : option Z :=
  match ResponseBody r with
  | BodyLike _ n => Some n
  | _ => None
  end.

(** [b], [negb b], [b], ...: [n] values in strict alternation. *)
Fixpoint alternate (b : bool) (n : nat) : list bool :=
  match n with
  | O => []
  | S m => b :: alternate (negb b) m
  end.

(** The store operation at which [ToggleLike] reads the post again: the
    fourth when it unlikes, the fifth when it likes. *)
Definition reread_index (was_liked : bool) : nat :=
  if was_liked then 3%nat else 4%nat.

(** The change that a toggle makes to [like_count]. *)
Definition like_delta (was_liked : bool) : Z :=
  if was_liked then -1 else 1.

(* ================================================================= *)
(** ** Test data *)

(** A 2x3 test image whose pixel at [(x, y)] is coloured [(x, y, 0, 255)]. *)
Definition test_image : Image :=
  ImageOther (mkRectangle 0 0 2 3) (fun x y => ColorRGBA (mkRGBA x y 0 255)).

(** The same picture as a pixel grid. *)
Definition test_grid : Image :=
  ImageRGBA (mkRGBAImage
    [mkRGBA 0 0 0 255; mkRGBA 1 0 0 255;
     mkRGBA 0 1 0 255; mkRGBA 1 1 0 255;
     mkRGBA 0 2 0 255; mkRGBA 1 2 0 255] 2 (mkRectangle 0 0 2 3)).

(** An image of the given size, all black. *)
Definition black_image (w h : Z) : Image :=
  ImageOther (mkRectangle 0 0 w h) (fun _ _ => ColorRGBA (mkRGBA 0 0 0 255)).

(** A scaler that leaves the destination pixels as they are; it stands in
    for the library where only sizes matter. *)
Definition no_scaling (k : Interpolator) (dst : RGBAImage) (dr : Rectangle)
           (src : Image) (sr : Rectangle) (op : DrawOp) : list RGBA8 :=
  Pix dst.

(** A store with one published post, and the surroundings of a run in
    which nothing fails and nobody else writes. *)
Definition sample_post : BlogPost :=
  mkBlogPost 1 7 "hello" "published" 10 3 5 2.

Definition sample_db : DB := mkDB [sample_post] [] [] [] [] [].

Definition calm : Env := mkEnv (fun _ => false) (fun _ d => d) 100 1000.

(** The same surroundings, except that the store operation number [i]
    fails. *)
Definition failing_at (i : nat) : Env :=
  mkEnv (fun j => Nat.eqb j i) (fun _ d => d) 100 1000.

(** User 42 looks at the sample post. *)
Definition sample_request : Request := mkRequest 42 "hello" None.

(** Surroundings in which, just before the store operation number [i],
    another user's like of post 1 lands: a marker for user 99 and one more
    in [like_count]. *)
Definition rival_like (d : DB) : DB :=
  with_Posts
    (with_PostLikes d (PostLikes d ++ [mkPostLike 101 1 99 1000]))
    (snd (coll_UpdateOne (fun p => post_ID p =? 1) (inc like_count 1) (Posts d))).

Definition rival_at (i : nat) : Env :=
  mkEnv (fun _ => false) (fun j d => if Nat.eqb j i then rival_like d else d)
        100 1000.

(** *** Comment creation, as the specification words its rejections *)

(** The content a request submits; a body that does not decode submits
    none, which counts as empty. *)
Definition submitted_content (r : Request) : string :=
  match req_Body r with
  | Some req => ccr_Content req
  | None => ""
  end.

(** The two reasons for rejecting that the specification names: the
    content is not 1 to 2000 characters long, or there is no published
    post with the slug. *)
Definition spec_comment_rejected (r : Request) (d : DB) : Prop :=
  characters (submitted_content r) < 1 \/
  characters (submitted_content r) > 2000 \/
  published_post d (req_Slug r) = None.

(** The comment that [CreateComment] builds for a request. *)
Definition new_comment (r : Request) (env : Env) (post : BlogPost) : PostComment :=
  mkPostComment (NewObjectID env) (post_ID post) (req_UserID r)
                (submitted_content r) (Now env) (Now env).

(** A comment on the sample post by user 42. *)
Definition sample_comment : Request :=
  mkRequest 42 "hello" (Some (mkCreateCommentRequest "hi")).

(** [n] copies of a text in a row. *)
Fixpoint repeat_text (n : nat) (s : string) : string :=
  match n with
  | O => ""
  | S k => (s ++ repeat_text k s)%string
  end.

(** The letter e with an acute accent, U+00E9: one character, the two
    bytes C3 A9 in UTF-8. *)
Definition e_acute : string :=
  String (ascii_of_nat 195) (String (ascii_of_nat 169) "").

(** A comment on the sample post by user 42 that is 1001 such letters
    long. *)
Definition accented_comment : Request :=
  mkRequest 42 "hello"
            (Some (mkCreateCommentRequest (repeat_text 1001 e_acute))).

(** *** Uploads *)

(** What the specification promises of an upload: a success comes with a
    log event and with a counter increment, a failure with neither. *)
Definition spec_upload_effects (out : Response * World) : Prop :=
  if StatusCode (fst out) =? StatusOK
  then existsb is_log (effects_of out) = true /\
       existsb is_metric (effects_of out) = true
  else effects_of out = [].

(** Stand-ins for the codecs, for running an upload: every file decodes to
    a black image of 4 by 2 pixels and every image encodes to the same four
    bytes. *)
Definition decode_tiny (data : string) : option Image := Some (black_image 4 2).
Definition encode_tiny (img : Image) (quality : Z) : option string := Some "JPEG".
Definition detect_jpeg (data : string) : string := "image/jpeg".

(** User 42 sends a small JPEG under the field [image]. *)
Definition sample_upload : UploadRequest :=
  mkUploadRequest 42 2048 (Some [mkFilePart "image" "image/jpeg" (Some "bytes")]).

Definition sample_UploadPostImage : Response * World :=
  run (UploadPostImage no_scaling decode_tiny encode_tiny (fun s => s) detect_jpeg
                       sample_upload)
      calm sample_db.

(* ================================================================= *)
(** ** The other handlers of the engagement and blog files *)

(** What a handler writes when its 200 body is a [T]: either
    [http.Error(w, msg, code)], or the value, encoded, with status 200. *)
Inductive Answer (T : Type) :=
| Failed (msg : string) (code : Z)
| Encoded (v : T).
Arguments Failed {T} msg code.
Arguments Encoded {T} v.

Definition answer_code {T : Type} (a : Answer T) : Z :=
  match a with
  | Failed _ code => code
  | Encoded _ => StatusOK
  end.

Definition StatusForbidden : Z := 403.

(** [models.PostStatsResponse]. *)
Record PostStatsResponse := mkPostStatsResponse {
  stats_ViewCount : Z;
  stats_UniqueViewCount : Z;
  stats_LikeCount : Z;
  stats_CommentCount : Z;
  stats_Liked : bool
}.

(** [database.PostLikes().CountDocuments] for a (post, user) pair. *)
Definition PostLikes_CountDocuments (postID userID : ObjectID) : M (option Z) :=
  store_op (fun d =>
    (Some (Z.of_nat (List.length
             (List.filter (fun l => (like_PostID l =? postID) &&
                                    (like_UserID l =? userID))
                          (PostLikes d)))), d)).

(** [GetPostStats] ([engagement.go]). *)
Definition GetPostStats (r : Request) : M (Answer PostStatsResponse) :=
  let slug := req_Slug r in
  if (slug =? "")%string then ret (Failed "Slug is required" StatusBadRequest)
  else
    post <- resolvePostBySlug slug ;;
    match post with
    | None => ret (Failed "Post not found" StatusNotFound)
    | Some post =>
        let stats (liked : bool) :=
          mkPostStatsResponse (post_ViewCount post) (post_UniqueViewCount post)
                              (post_LikeCount post) (post_CommentCount post)
                              liked in
        (* Check if current user liked this post *)
        let userID := req_UserID r in
        if negb (userID =? NilObjectID) then
          res <- PostLikes_CountDocuments (post_ID post) userID ;;
          match res with
          | Some count => ret (Encoded (stats (count >? 0)))
          | None => ret (Encoded (stats false))
          end
        else ret (Encoded (stats false))
    end.

(** A request to delete a comment: the caller, the slug, and the comment
    id of the path as [primitive.ObjectIDFromHex] reads it ([None] when it
    is not the hexadecimal form of an id). *)
Record DeleteCommentRequest := mkDeleteCommentRequest {
  dc_UserID : ObjectID;
  dc_Slug : string;
  dc_CommentID : option ObjectID
}.

(** [FindOne(...).Decode]: [Some None] is [mongo.ErrNoDocuments], [None]
    any other error. *)
Definition PostComments_FindOne (commentID postID : ObjectID)
  : M (option (option PostComment)) :=
  store_op (fun d =>
    (Some (coll_FindOne (fun c => (comment_ID c =? commentID) &&
                                  (comment_PostID c =? postID))
                        (PostComments d)), d)).

Definition PostComments_DeleteOne (commentID : ObjectID) : M (option Z) :=
  store_op (fun d =>
    let '(n, cs) := coll_DeleteOne (fun c => comment_ID c =? commentID)
                                   (PostComments d) in
    (Some n, with_PostComments d cs)).

(** [DeleteComment] ([engagement.go]). *)
Definition DeleteComment (r : DeleteCommentRequest) : M Response :=
  let userID := dc_UserID r in
  if userID =? NilObjectID then ret (http_Error "Unauthorized" StatusUnauthorized)
  else
    let slug := dc_Slug r in
    match dc_CommentID r with
    | None => ret (http_Error "Invalid comment ID" StatusBadRequest)
    | Some commentID =>
        post <- resolvePostBySlug slug ;;
        match post with
        | None => ret (http_Error "Post not found" StatusNotFound)
        | Some post =>
            (* Fetch the comment *)
            found <- PostComments_FindOne commentID (post_ID post) ;;
            match found with
            | None =>
                ret (http_Error "Error fetching comment" StatusInternalServerError)
            | Some None => ret (http_Error "Comment not found" StatusNotFound)
            | Some (Some comment) =>
                (* Authorization: comment author, post author, or admin *)
                canDelete <-
                  (if comment_UserID comment =? userID then ret true
                   else if post_AuthorID post =? userID then ret true
                   else
                     (* Check if admin *)
                     profile <- Profiles_FindOne userID ;;
                     match profile with
                     | Some profile => ret (profile_Role profile =? "admin")%string
                     | None => ret false
                     end) ;;
                if negb canDelete then
                  ret (http_Error "Forbidden: you cannot delete this comment"
                                  StatusForbidden)
                else
                  del <- PostComments_DeleteOne commentID ;;
                  match del with
                  | None =>
                      ret (http_Error "Error deleting comment"
                                      StatusInternalServerError)
                  | Some _ =>
                      (* Decrement comment_count *)
                      Posts_UpdateOne_inc (post_ID post) comment_count (-1) ;;;
                      emit (MetricInc "IncCommentDeleted") ;;;
                      emit (LogInfo "comment_deleted"
                              [("comment_id", VInt commentID);
                               ("post_id", VInt (post_ID post));
                               ("user_id", VInt userID)]) ;;;
                      ret (json_OK (BodyMessage "Comment deleted"))
                  end
            end
        end
    end.

(** The requests of user 42 and of an anonymous caller for the statistics
    of the sample post. *)
Definition anonymous_request : Request := mkRequest NilObjectID "hello" None.

(** Whether the profile of a user says [admin]. *)
Definition is_admin (d : DB) (userID : ObjectID) : bool :=
  match find (fun p => profile_UserID p =? userID) (Profiles d) with
  | Some profile => (profile_Role profile =? "admin")%string
  | None => false
  end.

(** Who may delete a comment: its author, the author of the post, an
    admin. *)
Definition may_delete_comment (d : DB) (userID : ObjectID) (post : BlogPost)
           (c : PostComment) : bool :=
  (comment_UserID c =? userID) || (post_AuthorID post =? userID) ||
  is_admin d userID.

(** The comment with a given id under a given post. *)
Definition comment_of (d : DB) (commentID postID : ObjectID) : option PostComment :=
  find (fun c => (comment_ID c =? commentID) && (comment_PostID c =? postID))
       (PostComments d).

(** [_id] identifies a comment. *)
Definition comments_ok (d : DB) : Prop := NoDup (map comment_ID (PostComments d)).

(** A store with the sample post, one comment of user 42 on it, and the
    profiles of a reader (42), a stranger (43) and an admin (44). *)
Definition sample_comment_doc : PostComment := mkPostComment 500 1 42 "hi" 900 900.

Definition commented_db : DB :=
  mkDB [mkBlogPost 1 7 "hello" "published" 10 3 5 1] [] [] [sample_comment_doc]
       [mkProfile 42 "reader" "" "user" 0; mkProfile 43 "stranger" "" "user" 0;
        mkProfile 44 "root" "" "admin" 0]
       [].

(** What [ServeImage] sends with status 200: three headers and the
    bytes. *)
Record ImageReply := mkImageReply {
  reply_ContentType : string;
  reply_CacheControl : string;
  reply_ContentLength : Z;
  reply_Bytes : string
}.

Definition Images_FindOne (imgID : ObjectID) : M (option BlogImage) :=
  store_op (fun d => (coll_FindOne (fun i => image_ID i =? imgID) (Images d), d)).

Section Serve.
(** [base64.StdEncoding.DecodeString], taken as it comes. *)
Variable base64_DecodeString : string -> option string.

(** [ServeImage] ([blog.go]); [id] is the path value as
    [primitive.ObjectIDFromHex] reads it. *)
Definition ServeImage (id : option ObjectID) : M (Answer ImageReply) :=
  match id with
  | None => ret (Failed "Invalid image ID" StatusBadRequest)
  | Some imgID =>
      found <- Images_FindOne imgID ;;
      match found with
      | None => ret (Failed "Image not found" StatusNotFound)
      | Some imgDoc =>
          match base64_DecodeString (image_Data imgDoc) with
          | None => ret (Failed "Error decoding image" StatusInternalServerError)
          | Some imgBytes =>
              ret (Encoded (mkImageReply
                              "image/jpeg" "public, max-age=604800, immutable"
                              (Z.of_nat (String.length imgBytes)) imgBytes))
          end
      end
  end.
End Serve.

(** The profile the avatar upload looks for, and the one it leaves. *)
Definition profile_of (d : DB) (userID : ObjectID) : option Profile :=
  find (fun p => profile_UserID p =? userID) (Profiles d).

Definition with_avatar (avatar : string) (now : Z) (p : Profile) : Profile :=
  mkProfile (profile_UserID p) (profile_Name p) avatar (profile_Role p) now.

(** A store in which user 42 has a profile, and the avatar that user
    sends. *)
Definition profiled_db : DB :=
  mkDB [] [] [] [] [mkProfile 41 "ana" "" "user" 0; mkProfile 42 "bia" "" "user" 0] [].

Definition sample_avatar_upload : UploadRequest :=
  mkUploadRequest 42 2048 (Some [mkFilePart "avatar" "image/png" (Some "bytes")]).

Definition no_exif (data : string) : option unit := None.
Definition no_tag (x : unit) : option unit := None.
Definition no_int (t : unit) (i : Z) : option Z := None.

(** A request to delete a post: the caller and the path value, which is
    an id or a slug. *)
Record DeletePostRequest := mkDeletePostRequest {
  dp_UserID : ObjectID;
  dp_ID : string
}.

Definition Posts_DeleteOne (postID : ObjectID) : M (option Z) :=
  store_op (fun d =>
    let '(n, ps) := coll_DeleteOne (fun p => post_ID p =? postID) (Posts d) in
    (Some n, with_Posts d ps)).

Section DeletePost.
(** [primitive.ObjectIDFromHex], taken as it comes. *)
Variable ObjectIDFromHex : string -> option ObjectID.

(** The filter [DeletePost] looks the post up with: by [_id] when the path
    value reads as an object id, by slug otherwise. *)
Definition delete_filter (postIDStr : string) : BlogPost -> bool :=
  match ObjectIDFromHex postIDStr with
  | Some postID => fun p => post_ID p =? postID
  | None => fun p => (post_Slug p =? postIDStr)%string
  end.

(** [DeletePost] ([blog.go]). *)
Definition DeletePost (r : DeletePostRequest) : M Response :=
  let userID := dp_UserID r in
  if userID =? NilObjectID then ret (http_Error "Unauthorized" StatusUnauthorized)
  else
    let postIDStr := dp_ID r in
    (* Fetch post by ObjectID or slug *)
    found <- Posts_FindOne (delete_filter postIDStr) ;;
    match found with
    | None => ret (http_Error "Post not found" StatusNotFound)
    | Some post =>
        (* Check ownership *)
        allowed <-
          (if negb (post_AuthorID post =? userID) then
             profile <- Profiles_FindOne userID ;;
             match profile with
             | Some profile => ret (profile_Role profile =? "admin")%string
             | None => ret false
             end
           else ret true) ;;
        if negb allowed then
          ret (http_Error "Forbidden: you can only delete your own posts"
                          StatusForbidden)
        else
          del <- Posts_DeleteOne (post_ID post) ;;
          match del with
          | None => ret (http_Error "Error deleting post" StatusInternalServerError)
          | Some _ =>
              emit (MetricInc "IncPostDeleted") ;;;
              emit (LogInfo "post_deleted"
                      [("post_id", VInt (post_ID post));
                       ("user_id", VInt userID)]) ;;;
              ret (json_OK (BodyMessage "Post deleted"))
          end
    end.
End DeletePost.

(** A reader of hexadecimal ids for the examples: no path value is an
    id, so that posts are addressed by slug. *)
Definition never_hex (s : string) : option ObjectID := None.

(* ================================================================= *)
(** ** Request metrics: path normalisation and keys *)

(** [normalizePathForMetrics], [splitPath] and [isID] read their strings
    rune by rune ([for _, c := range s]) and build new ones rune by rune
    ([current += string(c)]): a string is modelled by the runes that
    [range] yields, which is also what the strings they build hold. *)
Definition rune := Z.
Definition runes := list rune.

Definition slash : rune := 47.

(** The number of bytes of [string(c)], for a rune that [range] yields. *)
Definition utf8_len (c : rune) : Z :=
  if c <? 128 then 1 else if c <? 2048 then 2 else if c <? 65536 then 3 else 4.

(** [len(s)], in bytes. *)
Fixpoint byte_len (s : runes) : Z :=
  match s with
  | [] => 0
  | c :: t => utf8_len c + byte_len t
  end.

Definition nonempty (s : runes) : bool :=
  match s with [] => false | _ :: _ => true end.

(** [splitPath] ([metrics.go]): the state of the loop is [result] and
    [current]. *)
Definition splitPath_step (st : list runes * runes) (c : rune)
  : list runes * runes :=
  let '(result, current) := st in
  if c =? slash then
    if nonempty current then (result ++ [current], [])
    else (result, current)
  else (result, current ++ [c]).

Definition splitPath (path : runes) : list runes :=
  let '(result, current) := fold_left splitPath_step path ([], []) in
  if nonempty current then result ++ [current] else result.

(** ['0'..'9'], ['a'..'f'], ['A'..'F']. *)
Definition is_hex (c : rune) : bool :=
  ((48 <=? c) && (c <=? 57)) || ((97 <=? c) && (c <=? 102)) ||
  ((65 <=? c) && (c <=? 70)).

(** [isID] ([metrics.go]): a MongoDB ObjectID, 24 hex chars. *)
Definition isID (s : runes) : bool :=
  if byte_len s =? 24 then forallb is_hex s else false.

(** [":id"]. *)
Definition id_placeholder : runes := [58; 105; 100].

(** [normalizePathForMetrics] ([metrics.go]). *)
Definition normalizePathForMetrics (path : runes) : runes :=
  let segments :=
    fold_left (fun segments seg =>
                 if isID seg then segments ++ [id_placeholder]
                 else segments ++ [seg])
              (splitPath path) [] in
  if (List.length segments =? 0)%nat then [slash]
  else fold_left (fun result s => result ++ [slash] ++ s) segments [].

(** The runes of a text in ASCII. *)
Definition runes_of (s : string) : runes :=
  map (fun a => Z.of_N (N_of_ascii a)) (list_ascii_of_string s).

(** What [normalizePathForMetrics] does to its segments, and the path
    that a list of segments spells. *)
Definition normal_segment (seg : runes) : runes :=
  if isID seg then id_placeholder else seg.

Definition join_path (segments : list runes) : runes :=
  List.concat (map (fun s => slash :: s) segments).

(** A segment as [splitPath] yields them: not empty, no slash. *)
Definition not_slash (c : rune) : bool := negb (c =? slash).

Definition is_segment (s : runes) : bool :=
  nonempty s && forallb not_slash s.

(** [parseKey] ([metrics.go]).  The loop looks for the rune ['_'], which
    [range] yields exactly at the bytes [0x5F]; keys are therefore
    modelled by their bytes.  [first] and [last] are byte indexes. *)
Definition is_underscore (c : ascii) : bool := Ascii.eqb c "_"%char.

Fixpoint parseKey_scan (key : string) (i first last : Z) : Z * Z :=
  match key with
  | EmptyString => (first, last)
  | String c rest =>
      if is_underscore c then
        if first =? -1 then parseKey_scan rest (i + 1) i last
        else parseKey_scan rest (i + 1) first i
      else parseKey_scan rest (i + 1) first last
  end.

(** [key[lo:hi]]. *)
Definition slice (key : string) (lo hi : Z) : string :=
  substring (Z.to_nat lo) (Z.to_nat (hi - lo)) key.

Definition parseKey (key : string) : string * string * string :=
  let '(first, last) := parseKey_scan key 0 (-1) (-1) in
  if (first >? 0) && (last >? first) then
    (slice key 0 first,
     slice key (first + 1) last,
     slice key (last + 1) (Z.of_nat (String.length key)))
  else ("", "", "").

Definition no_underscore (s : string) : bool :=
  forallb (fun c => negb (is_underscore c)) (list_ascii_of_string s).

(** The key under which [MetricsMiddleware] counts a request, given the
    method, the normalised path and [strconv.Itoa(rw.status)]. *)
Definition metrics_key (method path status : string) : string :=
  method ++ "_" ++ path ++ "_" ++ status.

(* ================================================================= *)
(** ** Slugs *)

Definition hyphen : rune := 45.

(** The pairs given to [strings.NewReplacer] in [generateSlug]: accented
    letters (single runes of the Latin-1 supplement) and the plain letter
    each one becomes. *)
Definition replacer_pairs : list (rune * rune) :=
  [(225, 97); (224, 97); (227, 97); (226, 97); (228, 97);
   (233, 101); (232, 101); (234, 101); (235, 101);
   (237, 105); (236, 105); (238, 105); (239, 105);
   (243, 111); (242, 111); (245, 111); (244, 111); (246, 111);
   (250, 117); (249, 117); (251, 117); (252, 117);
   (231, 99); (241, 110)].

(** [replacer.Replace], one rune at a time: every old string is the
    encoding of one rune, so a match never straddles two runes. *)
Definition replace_rune (c : rune) : rune :=
  match find (fun p => fst p =? c) replacer_pairs with
  | Some p => snd p
  | None => c
  end.

(** [regexp.MustCompile(`-+`).ReplaceAllString(slug, "-")]: every run of
    hyphens becomes one hyphen. *)
Fixpoint collapse_hyphens (s : runes) : runes :=
  match s with
  | [] => []
  | c :: t =>
      if (c =? hyphen) && (match t with h :: _ => h =? hyphen | [] => false end)
      then collapse_hyphens t
      else c :: collapse_hyphens t
  end.

(** [strings.Trim(slug, "-")]. *)
Fixpoint trim_left (s : runes) : runes :=
  match s with
  | [] => []
  | c :: t => if c =? hyphen then trim_left t else s
  end.

Definition strings_Trim (s : runes) : runes :=
  rev (trim_left (rev (trim_left s))).

Section Slug.
(** The tables of package [unicode], taken as they come. *)
Variable unicode_ToLower : rune -> rune.
Variable unicode_IsLetter : rune -> bool.
Variable unicode_IsDigit : rune -> bool.

(** The loop of [generateSlug] that replaces non-alphanumeric runes with
    hyphens. *)
Definition hyphenate (r : rune) : rune :=
  if unicode_IsLetter r || unicode_IsDigit r then r else hyphen.

(** [generateSlug] ([blog.go]). *)
Definition generateSlug (title : runes) : runes :=
  let slug := map unicode_ToLower title in
  (* Replace accented characters *)
  let slug := map replace_rune slug in
  (* Replace non-alphanumeric with hyphens *)
  let slug := map hyphenate slug in
  (* Collapse multiple hyphens *)
  let slug := collapse_hyphens slug in
  (* Trim hyphens from start and end *)
  strings_Trim slug.

(** The runes a slug is made of. *)
Definition slug_rune (c : rune) : bool :=
  unicode_IsLetter c || unicode_IsDigit c || (c =? hyphen).
End Slug.

(** Stand-ins for the tables of [unicode] on ASCII. *)
Definition ascii_ToLower (c : rune) : rune :=
  if (65 <=? c) && (c <=? 90) then c + 32 else c.
Definition ascii_IsLetter (c : rune) : bool :=
  ((65 <=? c) && (c <=? 90)) || ((97 <=? c) && (c <=? 122)).
Definition ascii_IsDigit (c : rune) : bool := (48 <=? c) && (c <=? 57).

(* ================================================================= *)
(** ** Unique slugs *)

(** [strconv.Itoa]: the decimal digits, with a minus sign in front of a
    negative number. *)
Definition strconv_Itoa (n : Z) : string :=
  NilEmpty.string_of_int (Z.to_int n).

(** The filter of [ensureUniqueSlug]: the slug, and every [_id] but
    [excludeID] when one is given. *)
Definition slug_filter (candidate : string) (excludeID : ObjectID)
           (p : BlogPost) : bool :=
  (post_Slug p =? candidate)%string &&
  (if negb (excludeID =? NilObjectID) then negb (post_ID p =? excludeID)
   else true).

Definition Posts_CountDocuments (filter : BlogPost -> bool) : M (option Z) :=
  store_op (fun d =>
    (Some (Z.of_nat (List.length (List.filter filter (Posts d)))), d)).

(** What [ensureUniqueSlug] returns: [("", err)] or [(candidate, nil)]. *)
Inductive SlugResult :=
| SlugError
| SlugFound (candidate : string).

(** The [for] loop of [ensureUniqueSlug], entered with [candidate] and
    [counter]; [fuel] bounds the number of rounds, and [None] says that
    the loop was still running when it ran out. *)
Fixpoint ensureUniqueSlug_loop (fuel : nat) (slug candidate : string)
         (counter : Z) (excludeID : ObjectID) : M (option SlugResult) :=
  match fuel with
  | O => ret None
  | S fuel' =>
      res <- Posts_CountDocuments (slug_filter candidate excludeID) ;;
      match res with
      | None => ret (Some SlugError)
      | Some count =>
          if count =? 0 then ret (Some (SlugFound candidate))
          else
            let counter := counter + 1 in
            ensureUniqueSlug_loop fuel' slug
              (slug ++ "-" ++ strconv_Itoa counter)%string counter excludeID
      end
  end.

(** [ensureUniqueSlug] ([blog.go]). *)
Definition ensureUniqueSlug (fuel : nat) (slug : string) (excludeID : ObjectID)
  : M (option SlugResult) :=
  ensureUniqueSlug_loop fuel slug slug 1 excludeID.

(** The candidate that the loop tries while [counter] is [k]: the slug
    itself in the first round, then the slug with [-2], [-3], ... *)
Definition slug_candidate (slug : string) (k : Z) : string :=
  if k <=? 1 then slug else (slug ++ "-" ++ strconv_Itoa k)%string.

(** Whether another post has the slug. *)
Definition slug_taken (d : DB) (candidate : string) (excludeID : ObjectID) : bool :=
  existsb (slug_filter candidate excludeID) (Posts d).

(** A store in which [hello] and [hello-2] are taken. *)
Definition crowded_db : DB :=
  mkDB [mkBlogPost 1 7 "hello" "published" 0 0 0 0;
        mkBlogPost 2 7 "hello-2" "draft" 0 0 0 0] [] [] [] [] [].

(* ================================================================= *)
(** ** Listing comments *)

(** Go's [int] of the 64-bit platforms: the values, and the arithmetic
    that wraps around. *)
Definition is_int (z : Z) : Prop := - 2 ^ 63 <= z < 2 ^ 63.
Definition int_wrap (z : Z) : Z := (z + 2 ^ 63) mod 2 ^ 64 - 2 ^ 63.
Definition int_sub (a b : Z) : Z := int_wrap (a - b).
Definition int_mul (a b : Z) : Z := int_wrap (a * b).

(** A request for the comments of a post: the slug, and the [page] and
    [limit] parameters as [strconv.Atoi] reads them: an [int], 0 for a
    missing or malformed value and the nearest [int] for one out of range,
    the error being ignored. *)
Record ListCommentsRequest := mkListCommentsRequest {
  lc_Slug : string;
  lc_Page : Z;
  lc_Limit : Z
}.

(** [models.CommentListResponse]. *)
Record CommentListResponse := mkCommentListResponse {
  clr_Comments : list CommentResponse;
  clr_Total : Z;
  clr_Page : Z;
  clr_Limit : Z
}.

Definition PostComments_CountDocuments (postID : ObjectID) : M (option Z) :=
  store_op (fun d =>
    (Some (Z.of_nat (List.length
             (List.filter (fun c => comment_PostID c =? postID)
                          (PostComments d)))), d)).

(** [a] comes before [b] when sorting by [created_at], newest first. *)
Definition newer_or_same (a b : PostComment) : Prop :=
  comment_CreatedAt b <= comment_CreatedAt a.

(** [cursor.All]: the documents of the first batch, which holds them all,
    are decoded; that can fail. *)
Definition cursor_All {T : Type} (docs : list T) : M (option (list T)) :=
  store_op (fun d => (Some docs, d)).

Section ListComments.
(** The order in which the server hands out documents sorted by
    [created_at], newest first; how it breaks ties is its own affair. *)
Variable sort_created_at_desc : list PostComment -> list PostComment.

(** [Find] with [SetSort], [SetSkip] and [SetLimit].  The server refuses a
    negative [skip], and [Find] returns its error. *)
Definition PostComments_Find (postID : ObjectID) (skip limit : Z)
  : M (option (list PostComment)) :=
  store_op (fun d =>
    if skip <? 0 then (None, d)
    else
      (Some (firstn (Z.to_nat limit)
               (skipn (Z.to_nat skip)
                  (sort_created_at_desc
                     (List.filter (fun c => comment_PostID c =? postID)
                                  (PostComments d))))), d)).

(** [ListComments] ([engagement.go]). *)
Definition ListComments (r : ListCommentsRequest)
  : M (Answer CommentListResponse) :=
  let slug := lc_Slug r in
  if (slug =? "")%string then ret (Failed "Slug is required" StatusBadRequest)
  else
    let page := if lc_Page r <? 1 then 1 else lc_Page r in
    let limit := if (lc_Limit r <? 1) || (lc_Limit r >? 50) then 20
                 else lc_Limit r in
    post <- resolvePostBySlug slug ;;
    match post with
    | None => ret (Failed "Post not found" StatusNotFound)
    | Some post =>
        counted <- PostComments_CountDocuments (post_ID post) ;;
        match counted with
        | None => ret (Failed "Error counting comments" StatusInternalServerError)
        | Some total =>
            let skip := int_mul (int_sub page 1) limit in
            cursor <- PostComments_Find (post_ID post) skip limit ;;
            match cursor with
            | None =>
                ret (Failed "Error fetching comments" StatusInternalServerError)
            | Some cursor =>
                decoded <- cursor_All cursor ;;
                match decoded with
                | None =>
                    ret (Failed "Error decoding comments"
                                StatusInternalServerError)
                | Some comments =>
                    commentResponses <- enrichCommentsWithAuthor comments ;;
                    ret (Encoded (mkCommentListResponse commentResponses total
                                                        page limit))
                end
            end
        end
    end.
End ListComments.

(** The comments of a post. *)
Definition comments_of_post (d : DB) (postID : ObjectID) : list PostComment :=
  List.filter (fun c => comment_PostID c =? postID) (PostComments d).

(** A server that sorts by insertion and leaves equal dates in the order
    of the collection. *)
Fixpoint insert_newest_first (c : PostComment) (l : list PostComment)
  : list PostComment :=
  match l with
  | [] => [c]
  | x :: t =>
      if comment_CreatedAt x <=? comment_CreatedAt c then c :: l
      else x :: insert_newest_first c t
  end.

Fixpoint newest_first (l : list PostComment) : list PostComment :=
  match l with
  | [] => []
  | c :: t => insert_newest_first c (newest_first t)
  end.

(** The sample post with three comments, written at 900, 950 and 920. *)
Definition discussed_db : DB :=
  mkDB [mkBlogPost 1 7 "hello" "published" 10 3 5 3] [] []
       [mkPostComment 500 1 42 "hi" 900 900;
        mkPostComment 501 1 43 "ho" 950 950;
        mkPostComment 502 1 42 "hm" 920 920]
       [mkProfile 42 "reader" "" "user" 0; mkProfile 43 "stranger" "" "user" 0]
       [].

(* ================================================================= *)
(** * Properties *)

(** ** Lists and loops *)

Lemma list_set_length {T : Type} (i : nat) (v : T) (l : list T) :
  List.length (list_set i v l) = List.length l.
Proof.
  revert i; induction l as [|a l IH]; intros [|i]; simpl; auto.
Qed.

Lemma nth_list_set_eq {T : Type} (i : nat) (v d : T) (l : list T) :
  (i < List.length l)%nat -> nth i (list_set i v l) d = v.
Proof.
  revert i; induction l as [|a l IH]; intros [|i] H; simpl in *; try lia; auto.
  apply IH; lia.
Qed.

Lemma nth_list_set_neq {T : Type} (i j : nat) (v d : T) (l : list T) :
  i <> j -> nth j (list_set i v l) d = nth j l d.
Proof.
  revert i j; induction l as [|a l IH]; intros [|i] [|j] H; simpl; auto; try lia.
Qed.

(** The invariant rule of a counted loop. *)
Lemma for_range_inv {St : Type} (P : Z -> St -> Prop) (n : Z)
      (body : Z -> St -> St) (s : St) :
  0 <= n ->
  P 0 s ->
  (forall i s, 0 <= i < n -> P i s -> P (i + 1) (body i s)) ->
  P n (for_range n body s).
Proof.
  intros Hn H0 Hstep. unfold for_range.
  assert (G : forall k, (k <= Z.to_nat n)%nat ->
            P (Z.of_nat k)
              (fold_left (fun s i => body (Z.of_nat i) s) (seq 0 k) s)).
  { induction k as [|k IH]; intros Hk.
    - exact H0.
    - rewrite seq_S, fold_left_app.
      replace (Z.of_nat (S k)) with (Z.of_nat k + 1) by lia.
      cbn [fold_left Nat.add]. apply Hstep; [lia | apply IH; lia]. }
  specialize (G (Z.to_nat n) (le_n _)).
  now rewrite Z2Nat.id in G.
Qed.

Lemma for_range_nonpos {St : Type} (n : Z) (body : Z -> St -> St) (s : St) :
  n <= 0 -> for_range n body s = s.
Proof.
  intros H. unfold for_range.
  replace (Z.to_nat n) with O by lia. reflexivity.
Qed.

(** ** Rectangles and pixel buffers *)

Lemma image_Rect_origin (w h : Z) :
  0 <= w -> 0 <= h -> image_Rect 0 0 w h = mkRectangle 0 0 w h.
Proof.
  intros Hw Hh. unfold image_Rect.
  destruct (Z.gtb_spec 0 w), (Z.gtb_spec 0 h); try lia; reflexivity.
Qed.

Lemma point_In_spec (x y : Z) (r : Rectangle) :
  point_In x y r = true <-> MinX r <= x < MaxX r /\ MinY r <= y < MaxY r.
Proof.
  unfold point_In. rewrite !andb_true_iff, !Z.leb_le, !Z.ltb_lt. lia.
Qed.

Lemma packed_NewRGBA (r : Rectangle) :
  well_formed r -> packed (image_NewRGBA r).
Proof.
  intros [Hx Hy]. unfold packed, image_NewRGBA; simpl.
  repeat split; auto.
  rewrite repeat_length, Z2Nat.id; auto.
  unfold Dx, Dy; nia.
Qed.

(** An in-bounds pixel of a packed buffer has its offset inside [Pix]:
    [RGBA_Set] and [RGBA_At] never index out of range. *)
Lemma PixOffset_in_range (p : RGBAImage) (x y : Z) :
  packed p -> point_In x y (Rect p) = true ->
  0 <= PixOffset p x y < Z.of_nat (List.length (Pix p)).
Proof.
  intros (Hwf & Hs & Hl) Hin. apply point_In_spec in Hin.
  unfold PixOffset. rewrite Hs, Hl. unfold Dx, Dy in *. nia.
Qed.

Lemma PixOffset_inj (p : RGBAImage) (x y x' y' : Z) :
  packed p ->
  point_In x y (Rect p) = true -> point_In x' y' (Rect p) = true ->
  PixOffset p x y = PixOffset p x' y' -> x = x' /\ y = y'.
Proof.
  intros (Hwf & Hs & Hl) Hin Hin' Heq.
  apply point_In_spec in Hin. apply point_In_spec in Hin'.
  unfold PixOffset in Heq. rewrite Hs in Heq. unfold Dx in *.
  assert (y = y') by nia. subst. split; [nia | reflexivity].
Qed.

Lemma packed_Set (p : RGBAImage) (x y : Z) (c : Color) :
  packed p -> packed (RGBA_Set p x y c).
Proof.
  intros Hp. unfold RGBA_Set. destruct (point_In x y (Rect p)); auto.
  destruct Hp as (Hwf & Hs & Hl). unfold packed; simpl.
  rewrite list_set_length. auto.
Qed.

Lemma Rect_Set (p : RGBAImage) (x y : Z) (c : Color) :
  Rect (RGBA_Set p x y c) = Rect p.
Proof.
  unfold RGBA_Set. destruct (point_In x y (Rect p)); reflexivity.
Qed.

(** Reading after writing: the pixel written reads back as the converted
    colour, every other pixel is untouched. *)
Lemma RGBA_At_Set (p : RGBAImage) (x y x' y' : Z) (c : Color) :
  packed p -> point_In x' y' (Rect p) = true ->
  RGBA_At (RGBA_Set p x y c) x' y' =
  if (x =? x') && (y =? y') then rgbaModel c else RGBA_At p x' y'.
Proof.
  intros Hp Hin'. unfold RGBA_Set.
  destruct (point_In x y (Rect p)) eqn:Hin.
  - unfold RGBA_At; simpl. rewrite Hin'.
    pose proof (PixOffset_in_range p x y Hp Hin) as Hr.
    pose proof (PixOffset_in_range p x' y' Hp Hin') as Hr'.
    unfold PixOffset in *; simpl.
    destruct (Z.eqb_spec x x') as [->|Hx]; simpl.
    + destruct (Z.eqb_spec y y') as [->|Hy].
      * apply nth_list_set_eq. lia.
      * apply nth_list_set_neq. intros E.
        apply Z2Nat.inj in E; try lia.
        destruct (PixOffset_inj p x' y x' y' Hp Hin Hin' E). contradiction.
    + apply nth_list_set_neq. intros E.
      apply Z2Nat.inj in E; try lia.
      destruct (PixOffset_inj p x y x' y' Hp Hin Hin' E). contradiction.
  - destruct (Z.eqb_spec x x') as [->|Hx]; simpl; auto.
    destruct (Z.eqb_spec y y') as [->|Hy]; auto. congruence.
Qed.

(** Two packed buffers over the same rectangle that agree on every pixel
    are the same buffer. *)
Lemma RGBAImage_ext (p q : RGBAImage) :
  packed p -> packed q -> Rect p = Rect q ->
  (forall x y, point_In x y (Rect p) = true -> RGBA_At p x y = RGBA_At q x y) ->
  p = q.
Proof.
  intros Hp Hq HR Hpix.
  assert (Hlen : List.length (Pix p) = List.length (Pix q)).
  { destruct Hp as (_ & _ & Lp), Hq as (_ & _ & Lq). rewrite <- HR in Lq. lia. }
  assert (HS : Stride p = Stride q).
  { destruct Hp as (_ & Sp & _), Hq as (_ & Sq & _). rewrite Sp, Sq, HR. reflexivity. }
  assert (HP : Pix p = Pix q).
  { apply nth_ext with (d := transparent) (d' := transparent); auto.
    intros n Hn.
    pose proof Hp as (Hwf & Sp & Lp). destruct Hwf as [Wx Wy].
    set (W := Dx (Rect p)) in *.
    assert (HW : 0 < W).
    { destruct (Z_lt_le_dec 0 W); auto.
      assert (W = 0) by (unfold W, Dx in *; lia). rewrite H in Lp. lia. }
    set (x := MinX (Rect p) + Z.of_nat n mod W).
    set (y := MinY (Rect p) + Z.of_nat n / W).
    pose proof (Z.mod_pos_bound (Z.of_nat n) W HW) as Hm.
    pose proof (Z.div_mod (Z.of_nat n) W ltac:(lia)) as Hdm.
    assert (Hy : 0 <= Z.of_nat n / W < Dy (Rect p)).
    { split; [apply Z.div_pos; lia|].
      apply Z.div_lt_upper_bound; lia. }
    assert (Hin : point_In x y (Rect p) = true).
    { apply point_In_spec. unfold x, y, W, Dx, Dy in *. lia. }
    specialize (Hpix x y Hin). unfold RGBA_At in Hpix.
    rewrite <- HR, Hin in Hpix.
    assert (Op : PixOffset p x y = Z.of_nat n).
    { unfold PixOffset. rewrite Sp. unfold x, y. fold W. lia. }
    assert (Oq : PixOffset q x y = Z.of_nat n).
    { unfold PixOffset. rewrite <- HS, <- HR, Sp. unfold x, y. fold W. lia. }
    rewrite Op, Oq, Nat2Z.id in Hpix. exact Hpix. }
  destruct p, q; simpl in *; congruence.
Qed.

(** ** The transform loops *)

Section Scatter.
Variables (tx ty sx sy : Z -> Z -> Z).
Variable img : Image.
Variables (w h : Z).
Variable dst : RGBAImage.

Hypothesis dst_packed : packed dst.
Hypothesis w_nonneg : 0 <= w.
Hypothesis h_nonneg : 0 <= h.
(** [(sx, sy)] finds the source of every destination pixel ... *)
Hypothesis source_of :
  forall x' y', point_In x' y' (Rect dst) = true ->
    0 <= sx x' y' < w /\ 0 <= sy x' y' < h /\
    tx (sx x' y') (sy x' y') = x' /\ ty (sx x' y') (sy x' y') = y'.
(** ... and no two source pixels share a destination. *)
Hypothesis target_inj :
  forall x y, 0 <= x < w -> 0 <= y < h ->
    point_In (tx x y) (ty x y) (Rect dst) = true ->
    sx (tx x y) (ty x y) = x /\ sy (tx x y) (ty x y) = y.

Let src_pixel (x y : Z) : RGBA8 :=
  rgbaModel (At img (x + MinX (Bounds img)) (y + MinY (Bounds img))).

(** State of the destination when the rows below [i] and, in row [i],
    the columns below [j] have been copied. *)
Let copied (i j : Z) (d : RGBAImage) : Prop :=
  packed d /\ Rect d = Rect dst /\
  forall x' y', point_In x' y' (Rect dst) = true ->
    RGBA_At d x' y' =
    if (sy x' y' <? i) || ((sy x' y' =? i) && (sx x' y' <? j))
    then src_pixel (sx x' y') (sy x' y')
    else RGBA_At dst x' y'.

Lemma copied_next_row (i : Z) (d : RGBAImage) :
  copied i w d -> copied (i + 1) 0 d.
Proof.
  unfold copied. intros (Hp & HR & Hpix).
  split; [exact Hp | split; [exact HR |]].
  intros x' y' Hin. rewrite (Hpix x' y' Hin).
  destruct (source_of x' y' Hin) as (Hsx & Hsy & _).
  replace ((sy x' y' <? i + 1) || ((sy x' y' =? i + 1) && (sx x' y' <? 0)))
    with ((sy x' y' <? i) || ((sy x' y' =? i) && (sx x' y' <? w))); auto.
  destruct (Z.ltb_spec (sy x' y') i), (Z.ltb_spec (sy x' y') (i + 1)),
    (Z.eqb_spec (sy x' y') i), (Z.eqb_spec (sy x' y') (i + 1)),
    (Z.ltb_spec (sx x' y') w), (Z.ltb_spec (sx x' y') 0); simpl; auto; lia.
Qed.

Lemma copied_step (i j : Z) (d : RGBAImage) :
  0 <= i < h -> 0 <= j < w ->
  copied i j d ->
  copied i (j + 1)
    (RGBA_Set d (tx j i) (ty j i)
              (At img (j + MinX (Bounds img)) (i + MinY (Bounds img)))).
Proof.
  unfold copied. intros Hi Hj (Hp & HR & Hpix).
  split; [| split].
  - now apply packed_Set.
  - now rewrite Rect_Set.
  - intros x' y' Hin.
    pose proof Hin as Hin'. rewrite <- HR in Hin'.
    rewrite (RGBA_At_Set d _ _ x' y' _ Hp Hin').
    destruct (source_of x' y' Hin) as (Hsx & Hsy & Htx & Hty).
    destruct ((tx j i =? x') && (ty j i =? y')) eqn:E.
    + apply andb_true_iff in E. destruct E as [E1 E2].
      apply Z.eqb_eq in E1. apply Z.eqb_eq in E2. subst x' y'.
      destruct (target_inj j i Hj Hi Hin) as [-> ->].
      rewrite Z.eqb_refl.
      replace (j <? j + 1) with true by (symmetry; apply Z.ltb_lt; lia).
      rewrite orb_true_r. reflexivity.
    + rewrite (Hpix x' y' Hin).
      assert (N : ~ (sx x' y' = j /\ sy x' y' = i)).
      { intros [A1 A2]. rewrite A1, A2 in Htx, Hty.
        rewrite Htx, Hty, !Z.eqb_refl in E. discriminate. }
      replace ((sy x' y' =? i) && (sx x' y' <? j + 1))
        with ((sy x' y' =? i) && (sx x' y' <? j)); auto.
      destruct (Z.eqb_spec (sy x' y') i), (Z.ltb_spec (sx x' y') j),
        (Z.ltb_spec (sx x' y') (j + 1)); simpl; auto; lia.
Qed.

Lemma scatter_copied : copied h 0 (scatter tx ty img w h dst).
Proof.
  unfold scatter.
  apply (for_range_inv (fun i d => copied i 0 d)); auto.
  - unfold copied. split; [exact dst_packed | split; [reflexivity |]].
    intros x' y' Hin.
    destruct (source_of x' y' Hin) as (Hsx & Hsy & _).
    destruct (Z.ltb_spec (sy x' y') 0), (Z.eqb_spec (sy x' y') 0),
      (Z.ltb_spec (sx x' y') 0); simpl; auto; lia.
  - intros i d Hi Hc. apply copied_next_row.
    apply (for_range_inv (fun j d => copied i j d)); auto.
    intros j d' Hj Hc'. now apply copied_step.
Qed.

Lemma scatter_packed : packed (scatter tx ty img w h dst).
Proof. apply scatter_copied. Qed.

Lemma scatter_Rect : Rect (scatter tx ty img w h dst) = Rect dst.
Proof. apply scatter_copied. Qed.

(** After the loops every destination pixel holds its source pixel. *)
Lemma scatter_At (x' y' : Z) :
  point_In x' y' (Rect dst) = true ->
  RGBA_At (scatter tx ty img w h dst) x' y' =
  rgbaModel (At img (sx x' y' + MinX (Bounds img)) (sy x' y' + MinY (Bounds img))).
Proof.
  intros Hin. destruct scatter_copied as (_ & _ & Hpix).
  rewrite (Hpix x' y' Hin).
  destruct (source_of x' y' Hin) as (_ & Hsy & _).
  replace (sy x' y' <? h) with true by (symmetry; apply Z.ltb_lt; lia).
  reflexivity.
Qed.
End Scatter.

(** ** Grids *)

Lemma grid_eq_refl (g : Grid) : grid_eq g g.
Proof. repeat split; auto. Qed.

Lemma grid_eq_trans (g1 g2 g3 : Grid) :
  grid_eq g1 g2 -> grid_eq g2 g3 -> grid_eq g1 g3.
Proof.
  intros (W1 & H1 & P1) (W2 & H2 & P2). repeat split; try congruence.
  intros x y Hx Hy. rewrite P1 by auto. apply P2; congruence.
Qed.

Lemma grid_eq_sym (g1 g2 : Grid) : grid_eq g1 g2 -> grid_eq g2 g1.
Proof.
  intros (W1 & H1 & P1). repeat split; try congruence.
  intros x y Hx Hy. symmetry. apply P1; congruence.
Qed.

(** The corrections of the table act on grids up to [grid_eq]. *)
Lemma spec_correction_eq (t : Z) (g1 g2 : Grid) :
  1 <= t <= 8 -> grid_eq g1 g2 ->
  grid_eq (spec_correction t g1) (spec_correction t g2).
Proof.
  intros Ht (W & H & P).
  assert (C : t = 1 \/ t = 2 \/ t = 3 \/ t = 4 \/ t = 5 \/ t = 6 \/ t = 7 \/ t = 8)
    by lia.
  destruct C as [-> | [-> | [-> | [-> | [-> | [-> | [-> | ->]]]]]]];
    simpl; repeat split; simpl; auto;
    intros x y Hx Hy; rewrite <- ?W, <- ?H; apply P; lia.
Qed.

(** Each correction followed by the correction of the inverse tag is the
    identity of grids. *)
Lemma spec_correction_inverse (t : Z) (g : Grid) :
  1 <= t <= 8 ->
  grid_eq (spec_correction (inverse_tag t) (spec_correction t g)) g.
Proof.
  intros Ht.
  assert (C : t = 1 \/ t = 2 \/ t = 3 \/ t = 4 \/ t = 5 \/ t = 6 \/ t = 7 \/ t = 8)
    by lia.
  destruct C as [-> | [-> | [-> | [-> | [-> | [-> | [-> | ->]]]]]]];
    simpl; repeat split; simpl; auto;
    intros x y Hx Hy; f_equal; lia.
Qed.

Lemma grid_of_RGBA (p : RGBAImage) (x y : Z) :
  gpix (grid_of (ImageRGBA p)) x y =
  RGBA_At p (MinX (Rect p) + x) (MinY (Rect p) + y).
Proof. reflexivity. Qed.

(** Pixel grids are determined by the grid they show. *)
Lemma pixel_grid_ext (a b : Image) :
  pixel_grid a -> pixel_grid b -> grid_eq (grid_of a) (grid_of b) -> a = b.
Proof.
  destruct a as [p|], b as [q|]; simpl; try contradiction.
  intros (Pp & Xp & Yp) (Pq & Xq & Yq) (W & H & E).
  simpl in W, H. unfold Dx, Dy in W, H.
  assert (HR : Rect p = Rect q).
  { destruct (Rect p), (Rect q); simpl in *. f_equal; lia. }
  f_equal. apply RGBAImage_ext; auto.
  intros x y Hin. apply point_In_spec in Hin.
  specialize (E (x - MinX (Rect p)) (y - MinY (Rect p))).
  rewrite !grid_of_RGBA in E. simpl in E. unfold Dx, Dy in E.
  rewrite Xq, Yq, Xp, Yp in E. rewrite Xp, Yp in Hin.
  replace (0 + (x - 0)) with x in E by lia.
  replace (0 + (y - 0)) with y in E by lia.
  apply E; lia.
Qed.

Lemma pixel_grid_well_formed (img : Image) :
  pixel_grid img -> well_formed (Bounds img).
Proof.
  destruct img; simpl; [|contradiction]. intros ((W & _) & _). exact W.
Qed.

(** The loops of a transform, read as a grid: when [(sx, sy)] inverts the
    placement [(tx, ty)], the result is a fresh pixel grid of the given
    size whose cell [(x, y)] shows the source cell [(sx x y, sy x y)]. *)
Lemma scatter_grid (tx ty sx sy : Z -> Z -> Z) (img : Image) (W H : Z) :
  well_formed (Bounds img) -> 0 <= W -> 0 <= H ->
  (forall x' y', 0 <= x' < W -> 0 <= y' < H ->
     0 <= sx x' y' < Dx (Bounds img) /\ 0 <= sy x' y' < Dy (Bounds img) /\
     tx (sx x' y') (sy x' y') = x' /\ ty (sx x' y') (sy x' y') = y') ->
  (forall x y, 0 <= x < Dx (Bounds img) -> 0 <= y < Dy (Bounds img) ->
     0 <= tx x y < W -> 0 <= ty x y < H ->
     sx (tx x y) (ty x y) = x /\ sy (tx x y) (ty x y) = y) ->
  let out :=
    ImageRGBA (scatter tx ty img (Dx (Bounds img)) (Dy (Bounds img))
                       (image_NewRGBA (image_Rect 0 0 W H))) in
  pixel_grid out /\
  grid_eq (grid_of out)
          {| gw := W; gh := H;
             gpix := fun x y => gpix (grid_of img) (sx x y) (sy x y) |}.
Proof.
  intros [Wx Wy] HW HH Hsrc Hinj out. subst out.
  rewrite image_Rect_origin by auto.
  set (dst := image_NewRGBA (mkRectangle 0 0 W H)).
  assert (Pd : packed dst) by (apply packed_NewRGBA; split; simpl; lia).
  assert (Hd : Rect dst = mkRectangle 0 0 W H) by reflexivity.
  assert (S1 : forall x' y', point_In x' y' (Rect dst) = true ->
             0 <= sx x' y' < Dx (Bounds img) /\ 0 <= sy x' y' < Dy (Bounds img) /\
             tx (sx x' y') (sy x' y') = x' /\ ty (sx x' y') (sy x' y') = y').
  { intros x' y' Hin. apply point_In_spec in Hin. rewrite Hd in Hin. simpl in Hin.
    apply Hsrc; lia. }
  assert (S2 : forall x y, 0 <= x < Dx (Bounds img) -> 0 <= y < Dy (Bounds img) ->
             point_In (tx x y) (ty x y) (Rect dst) = true ->
             sx (tx x y) (ty x y) = x /\ sy (tx x y) (ty x y) = y).
  { intros x y Hx Hy Hin. apply point_In_spec in Hin. rewrite Hd in Hin. simpl in Hin.
    apply Hinj; lia. }
  assert (DX : 0 <= Dx (Bounds img)) by (unfold Dx; lia).
  assert (DY : 0 <= Dy (Bounds img)) by (unfold Dy; lia).
  pose proof (scatter_packed tx ty sx sy img _ _ dst Pd DX DY S1 S2) as Pk.
  pose proof (scatter_Rect tx ty sx sy img _ _ dst Pd DX DY S1 S2) as Rk.
  split.
  - simpl. rewrite Rk, Hd. simpl. auto.
  - split; [|split].
    + simpl. rewrite Rk, Hd. unfold Dx; simpl. lia.
    + simpl. rewrite Rk, Hd. unfold Dy; simpl. lia.
    + intros x y Hx Hy. rewrite grid_of_RGBA.
      simpl in Hx, Hy. rewrite Rk, Hd in Hx, Hy |- *.
      unfold Dx, Dy in Hx, Hy. simpl in Hx, Hy |- *.
      rewrite (scatter_At tx ty sx sy img _ _ dst Pd DX DY S1 S2).
      * f_equal. f_equal; lia.
      * apply point_In_spec. rewrite Hd. simpl. lia.
Qed.

(** ** The five transforms *)

Lemma flipHorizontal_grid (img : Image) :
  well_formed (Bounds img) ->
  pixel_grid (flipHorizontal img) /\
  grid_eq (grid_of (flipHorizontal img)) (spec_flip_horizontal (grid_of img)).
Proof.
  intros Hwf. pose proof Hwf as [Wx Wy].
  apply (scatter_grid (fun x y => Dx (Bounds img) - 1 - x) (fun x y => y)
                      (fun x y => Dx (Bounds img) - 1 - x) (fun x y => y)
                      img (Dx (Bounds img)) (Dy (Bounds img)));
    auto; unfold Dx, Dy; intros; lia.
Qed.

Lemma flipVertical_grid (img : Image) :
  well_formed (Bounds img) ->
  pixel_grid (flipVertical img) /\
  grid_eq (grid_of (flipVertical img)) (spec_flip_vertical (grid_of img)).
Proof.
  intros Hwf. pose proof Hwf as [Wx Wy].
  apply (scatter_grid (fun x y => x) (fun x y => Dy (Bounds img) - 1 - y)
                      (fun x y => x) (fun x y => Dy (Bounds img) - 1 - y)
                      img (Dx (Bounds img)) (Dy (Bounds img)));
    auto; unfold Dx, Dy; intros; lia.
Qed.

Lemma rotate180_grid (img : Image) :
  well_formed (Bounds img) ->
  pixel_grid (rotate180 img) /\
  grid_eq (grid_of (rotate180 img)) (spec_rotate_180 (grid_of img)).
Proof.
  intros Hwf. pose proof Hwf as [Wx Wy].
  apply (scatter_grid (fun x y => Dx (Bounds img) - 1 - x)
                      (fun x y => Dy (Bounds img) - 1 - y)
                      (fun x y => Dx (Bounds img) - 1 - x)
                      (fun x y => Dy (Bounds img) - 1 - y)
                      img (Dx (Bounds img)) (Dy (Bounds img)));
    auto; unfold Dx, Dy; intros; lia.
Qed.

Lemma rotate90CW_grid (img : Image) :
  well_formed (Bounds img) ->
  pixel_grid (rotate90CW img (Dy (Bounds img)) (Dx (Bounds img))) /\
  grid_eq (grid_of (rotate90CW img (Dy (Bounds img)) (Dx (Bounds img))))
          (spec_rotate_90_cw (grid_of img)).
Proof.
  intros Hwf. pose proof Hwf as [Wx Wy].
  apply (scatter_grid (fun x y => Dy (Bounds img) - 1 - y) (fun x y => x)
                      (fun x y => y) (fun x y => Dy (Bounds img) - 1 - x)
                      img (Dy (Bounds img)) (Dx (Bounds img)));
    auto; unfold Dx, Dy; intros; lia.
Qed.

Lemma rotate90CCW_grid (img : Image) :
  well_formed (Bounds img) ->
  pixel_grid (rotate90CCW img (Dy (Bounds img)) (Dx (Bounds img))) /\
  grid_eq (grid_of (rotate90CCW img (Dy (Bounds img)) (Dx (Bounds img))))
          (spec_rotate_90_ccw (grid_of img)).
Proof.
  intros Hwf. pose proof Hwf as [Wx Wy].
  apply (scatter_grid (fun x y => y) (fun x y => Dx (Bounds img) - 1 - x)
                      (fun x y => Dx (Bounds img) - 1 - y) (fun x y => x)
                      img (Dy (Bounds img)) (Dx (Bounds img)));
    auto; unfold Dx, Dy; intros; lia.
Qed.

(** ** The orientation corrector *)

Lemma grid_dims_of_eq (g1 g2 : Grid) :
  grid_eq g1 g2 -> gw g1 = gw g2 /\ gh g1 = gh g2.
Proof. intros (W & H & _). auto. Qed.

(** The switch over the tag: tag 1 and values outside 1..8 hand the image
    back; tags 2..8 build a fresh pixel grid that shows the correction of
    the table. *)
Lemma applyOrientation_grid (orient : Z) (img : Image) :
  well_formed (Bounds img) ->
  (orient = 1 \/ ~ 1 <= orient <= 8 -> applyOrientation orient img = img) /\
  (2 <= orient <= 8 -> pixel_grid (applyOrientation orient img)) /\
  (1 <= orient <= 8 ->
   grid_eq (grid_of (applyOrientation orient img))
           (spec_correction orient (grid_of img))).
Proof.
  intros Hwf.
  destruct (flipHorizontal_grid img Hwf) as [FHp FHg].
  pose proof (pixel_grid_well_formed _ FHp) as FHwf.
  assert (FW : Dx (Bounds (flipHorizontal img)) = Dx (Bounds img))
    by exact (proj1 (grid_dims_of_eq _ _ FHg)).
  assert (FH : Dy (Bounds (flipHorizontal img)) = Dy (Bounds img))
    by exact (proj2 (grid_dims_of_eq _ _ FHg)).
  assert (T5 : pixel_grid (rotate90CCW (flipHorizontal img)
                             (Dy (Bounds img)) (Dx (Bounds img))) /\
               grid_eq (grid_of (rotate90CCW (flipHorizontal img)
                                   (Dy (Bounds img)) (Dx (Bounds img))))
                       (spec_rotate_90_ccw (spec_flip_horizontal (grid_of img)))).
  { rewrite <- FW, <- FH.
    destruct (rotate90CCW_grid _ FHwf) as [P G]. split; auto.
    eapply grid_eq_trans; [exact G|].
    apply (spec_correction_eq 8); [lia | exact FHg]. }
  assert (T7 : pixel_grid (rotate90CW (flipHorizontal img)
                             (Dy (Bounds img)) (Dx (Bounds img))) /\
               grid_eq (grid_of (rotate90CW (flipHorizontal img)
                                   (Dy (Bounds img)) (Dx (Bounds img))))
                       (spec_rotate_90_cw (spec_flip_horizontal (grid_of img)))).
  { rewrite <- FW, <- FH.
    destruct (rotate90CW_grid _ FHwf) as [P G]. split; auto.
    eapply grid_eq_trans; [exact G|].
    apply (spec_correction_eq 6); [lia | exact FHg]. }
  unfold applyOrientation.
  split; [|split].
  - intros [-> | N]; [reflexivity|].
    repeat (match goal with
            | |- context [?a =? ?b] =>
                destruct (Z.eqb_spec a b); [lia|]
            end).
    reflexivity.
  - intros Ht.
    assert (C : orient = 2 \/ orient = 3 \/ orient = 4 \/ orient = 5 \/
                orient = 6 \/ orient = 7 \/ orient = 8) by lia.
    destruct C as [-> | [-> | [-> | [-> | [-> | [-> | ->]]]]]]; simpl.
    + apply flipHorizontal_grid; auto.
    + apply rotate180_grid; auto.
    + apply flipVertical_grid; auto.
    + apply T5.
    + apply rotate90CW_grid; auto.
    + apply T7.
    + apply rotate90CCW_grid; auto.
  - intros Ht.
    assert (C : orient = 1 \/ orient = 2 \/ orient = 3 \/ orient = 4 \/
                orient = 5 \/ orient = 6 \/ orient = 7 \/ orient = 8) by lia.
    destruct C as [-> | [-> | [-> | [-> | [-> | [-> | [-> | ->]]]]]]]; simpl.
    + apply grid_eq_refl.
    + apply flipHorizontal_grid; auto.
    + apply rotate180_grid; auto.
    + apply flipVertical_grid; auto.
    + apply T5.
    + apply rotate90CW_grid; auto.
    + apply T7.
    + apply rotate90CCW_grid; auto.
Qed.

Lemma applyOrientation_well_formed (orient : Z) (img : Image) :
  well_formed (Bounds img) -> well_formed (Bounds (applyOrientation orient img)).
Proof.
  intros Hwf. destruct (applyOrientation_grid orient img Hwf) as (Hid & Hpg & _).
  destruct (Z_le_dec 2 orient); [destruct (Z_le_dec orient 8)|].
  - apply pixel_grid_well_formed, Hpg. lia.
  - rewrite Hid by lia. exact Hwf.
  - rewrite Hid by lia. exact Hwf.
Qed.

Example rotate90CW_test_image :
  rotate90CW test_image 3 2 =
  ImageRGBA (mkRGBAImage
    [mkRGBA 0 2 0 255; mkRGBA 0 1 0 255; mkRGBA 0 0 0 255;
     mkRGBA 1 2 0 255; mkRGBA 1 1 0 255; mkRGBA 1 0 0 255]
    3 (mkRectangle 0 0 3 2)).
Proof. reflexivity. Qed.

Example flipHorizontal_test_image :
  flipHorizontal test_image =
  ImageRGBA (mkRGBAImage
    [mkRGBA 1 0 0 255; mkRGBA 0 0 0 255;
     mkRGBA 1 1 0 255; mkRGBA 0 1 0 255;
     mkRGBA 1 2 0 255; mkRGBA 0 2 0 255] 2 (mkRectangle 0 0 2 3)).
Proof. reflexivity. Qed.

Example transpose_test_image :
  applyOrientation 5 test_image =
  ImageRGBA (mkRGBAImage
    [mkRGBA 0 0 0 255; mkRGBA 0 1 0 255; mkRGBA 0 2 0 255;
     mkRGBA 1 0 0 255; mkRGBA 1 1 0 255; mkRGBA 1 2 0 255]
    3 (mkRectangle 0 0 3 2)).
Proof. reflexivity. Qed.

(** C1.  The orientation corrector: without EXIF data, without the
    orientation tag, without an integer in the tag, or with a tag value
    outside 1..8, the image comes back as it was given; with tag 1 too;
    with a tag 1..8 the result shows exactly the correction that the table
    of section 4.1 lists for the tag, and for the tags 5..8 its width and
    height are the height and width of the source. *)
Theorem applyExifOrientation_table :
  forall (Exif ExifTag : Type)
         (exif_Decode : string -> option Exif)
         (exif_Get_Orientation : Exif -> option ExifTag)
         (tag_Int : ExifTag -> Z -> option Z)
         (r : string) (img : Image),
  well_formed (Bounds img) ->
  let out :=
    applyExifOrientation Exif ExifTag exif_Decode exif_Get_Orientation tag_Int r img in
  (exif_Decode r = None -> out = img) /\
  (forall x, exif_Decode r = Some x -> exif_Get_Orientation x = None -> out = img) /\
  (forall x tag, exif_Decode r = Some x -> exif_Get_Orientation x = Some tag ->
                 tag_Int tag 0 = None -> out = img) /\
  (forall x tag orient,
     exif_Decode r = Some x -> exif_Get_Orientation x = Some tag ->
     tag_Int tag 0 = Some orient ->
     (~ 1 <= orient <= 8 -> out = img) /\
     (orient = 1 -> out = img) /\
     (1 <= orient <= 8 ->
      grid_eq (grid_of out) (spec_correction orient (grid_of img))) /\
     (5 <= orient <= 8 ->
      gw (grid_of out) = gh (grid_of img) /\ gh (grid_of out) = gw (grid_of img))).
Proof.
  intros Exif ExifTag dec get int r img Hwf out. subst out.
  unfold applyExifOrientation.
  split; [|split; [|split]].
  - intros ->. reflexivity.
  - intros x -> ->. reflexivity.
  - intros x tag -> -> ->. reflexivity.
  - intros x tag orient -> -> ->.
    destruct (applyOrientation_grid orient img Hwf) as (Hid & _ & Hg).
    split; [|split; [|split]].
    + intros N. apply Hid. now right.
    + intros E. apply Hid. now left.
    + exact Hg.
    + intros Ht. destruct (Hg ltac:(lia)) as (W & H & _).
      assert (C : orient = 5 \/ orient = 6 \/ orient = 7 \/ orient = 8) by lia.
      destruct C as [-> | [-> | [-> | ->]]]; simpl in W, H; auto.
Qed.

Lemma applyExifOrientation_table_witness :
  well_formed (Bounds test_image) /\
  grid_eq
    (grid_of (applyExifOrientation unit unit (fun _ => Some tt) (fun _ => Some tt)
                (fun _ _ => Some 6) "" test_image))
    (spec_correction 6 (grid_of test_image)).
Proof.
  assert (Hwf : well_formed (Bounds test_image)) by (split; simpl; lia).
  split; [exact Hwf|].
  destruct (applyExifOrientation_table unit unit (fun _ => Some tt)
              (fun _ => Some tt) (fun _ _ => Some 6) "" test_image Hwf)
    as (_ & _ & _ & H).
  destruct (H tt tt 6 eq_refl eq_refl eq_refl) as (_ & _ & G & _).
  apply G. lia.
Defined.

(** C2.  Round trip: for each of the eight tags, the correction followed
    by the correction of the inverse tag shows the original grid again,
    with the original width and height (the tags 5..8 swap them on the way
    and swap them back); a source that is a pixel grid comes back equal,
    pixel for pixel and as a value. *)
Theorem orientation_round_trip :
  forall (tag : Z) (img : Image),
  well_formed (Bounds img) ->
  1 <= tag <= 8 ->
  let corrected := applyOrientation tag img in
  let back := applyOrientation (inverse_tag tag) corrected in
  grid_eq (grid_of back) (grid_of img) /\
  (5 <= tag ->
   gw (grid_of corrected) = gh (grid_of img) /\
   gh (grid_of corrected) = gw (grid_of img)) /\
  (pixel_grid img -> back = img).
Proof.
  intros tag img Hwf Ht corrected back.
  assert (Hit : 1 <= inverse_tag tag <= 8).
  { assert (C : tag = 1 \/ tag = 2 \/ tag = 3 \/ tag = 4 \/ tag = 5 \/ tag = 6 \/
                tag = 7 \/ tag = 8) by lia.
    destruct C as [-> | [-> | [-> | [-> | [-> | [-> | [-> | ->]]]]]]]; simpl; lia. }
  destruct (applyOrientation_grid tag img Hwf) as (Hid & Hpg & Hg).
  pose proof (applyOrientation_well_formed tag img Hwf) as Hwf'.
  fold corrected in Hid, Hpg, Hg, Hwf'.
  destruct (applyOrientation_grid (inverse_tag tag) corrected Hwf')
    as (Hid' & Hpg' & Hg').
  fold back in Hid', Hpg', Hg'.
  assert (G : grid_eq (grid_of back) (grid_of img)).
  { eapply grid_eq_trans; [apply Hg'; lia|].
    eapply grid_eq_trans; [apply spec_correction_eq; [lia | apply Hg; lia]|].
    apply spec_correction_inverse; lia. }
  split; [exact G | split].
  - intros H5. destruct (Hg Ht) as (W & H & _).
    assert (C : tag = 5 \/ tag = 6 \/ tag = 7 \/ tag = 8) by lia.
    destruct C as [-> | [-> | [-> | ->]]]; simpl in W, H; auto.
  - intros Hpix. destruct (Z.eq_dec tag 1) as [-> | N].
    + unfold back, corrected. reflexivity.
    + apply pixel_grid_ext; auto.
      apply Hpg'.
      assert (C : tag = 2 \/ tag = 3 \/ tag = 4 \/ tag = 5 \/ tag = 6 \/
                  tag = 7 \/ tag = 8) by lia.
      destruct C as [-> | [-> | [-> | [-> | [-> | [-> | ->]]]]]]; simpl; lia.
Qed.

Lemma orientation_round_trip_witness :
  well_formed (Bounds test_grid) /\ 1 <= 6 <= 8 /\
  applyOrientation (inverse_tag 6) (applyOrientation 6 test_grid) = test_grid.
Proof.
  assert (Hwf : well_formed (Bounds test_grid)) by (split; simpl; lia).
  assert (Ht : 1 <= 6 <= 8) by lia.
  split; [exact Hwf | split; [exact Ht |]].
  destruct (orientation_round_trip 6 test_grid Hwf Ht) as (_ & _ & H).
  apply H. simpl. unfold packed. simpl. unfold well_formed, Dx, Dy. simpl. lia.
Defined.

(** ** Resizing *)

Lemma Bounds_resizeImage scaled_pixels (img : Image) (width height : Z) :
  Bounds (resizeImage scaled_pixels img width height) = image_Rect 0 0 width height.
Proof. reflexivity. Qed.

(** C3.  Square-crop-then-scale: the crop is a square whose side is the
    shorter side of the source, it keeps the shorter dimension whole and
    cuts the longer one symmetrically (the two margins differ by at most
    one pixel), no square inside the source is larger, it is scaled with
    the Catmull-Rom kernel, and the output is exactly target x target
    whatever the shape of the source. *)
Theorem resizeImage_square_crop_scale :
  forall scaled_pixels (img : Image) (target : Z),
  well_formed (Bounds img) ->
  MinX (Bounds img) = 0 -> MinY (Bounds img) = 0 ->
  0 <= target ->
  let srcW := Dx (Bounds img) in
  let srcH := Dy (Bounds img) in
  let crop := cropRect_of img in
  let out := resizeImage scaled_pixels img target target in
  (* the crop is the largest square in the source *)
  Dx crop = Z.min srcW srcH /\ Dy crop = Z.min srcW srcH /\
  (0 <= MinX crop /\ MaxX crop <= srcW /\ 0 <= MinY crop /\ MaxY crop <= srcH) /\
  (forall r, well_formed r -> Dx r = Dy r ->
             0 <= MinX r -> MaxX r <= srcW -> 0 <= MinY r -> MaxY r <= srcH ->
             Dx r <= Dx crop) /\
  (* it is centered: the longer dimension loses the same margin on both
     sides, up to the odd pixel *)
  (0 <= (srcW - MaxX crop) - MinX crop <= 1) /\
  (0 <= (srcH - MaxY crop) - MinY crop <= 1) /\
  (* the square is scaled by a high-quality kernel into a fresh buffer *)
  out = ImageRGBA
          (draw_Scale scaled_pixels CatmullRom
             (image_NewRGBA (mkRectangle 0 0 target target))
             (mkRectangle 0 0 target target) img crop Over) /\
  high_quality CatmullRom = true /\
  (* the output is target x target *)
  Bounds out = mkRectangle 0 0 target target /\
  Dx (Bounds out) = target /\ Dy (Bounds out) = target.
Proof.
  intros sp img target [Wx Wy] Mx My Ht srcW srcH crop out.
  assert (HW : 0 <= srcW) by (unfold srcW, Dx; lia).
  assert (HH : 0 <= srcH) by (unfold srcH, Dy; lia).
  assert (Hcrop :
    crop = if srcW >? srcH
           then mkRectangle (Z.quot (srcW - srcH) 2) 0
                            (Z.quot (srcW - srcH) 2 + srcH) srcH
           else mkRectangle 0 (Z.quot (srcH - srcW) 2)
                            srcW (Z.quot (srcH - srcW) 2 + srcW)).
  { unfold crop, cropRect_of. fold srcW srcH.
    destruct (Z.gtb_spec srcW srcH) as [G|G].
    - pose proof (Z.quot_pos (srcW - srcH) 2 ltac:(lia) ltac:(lia)).
      unfold image_Rect.
      destruct (Z.gtb_spec (Z.quot (srcW - srcH) 2) (Z.quot (srcW - srcH) 2 + srcH));
        destruct (Z.gtb_spec 0 srcH); try lia; reflexivity.
    - pose proof (Z.quot_pos (srcH - srcW) 2 ltac:(lia) ltac:(lia)).
      unfold image_Rect.
      destruct (Z.gtb_spec 0 srcW);
        destruct (Z.gtb_spec (Z.quot (srcH - srcW) 2) (Z.quot (srcH - srcW) 2 + srcW));
        try lia; reflexivity. }
  assert (Hout : out = ImageRGBA
          (draw_Scale sp CatmullRom
             (image_NewRGBA (mkRectangle 0 0 target target))
             (mkRectangle 0 0 target target) img crop Over)).
  { unfold out, resizeImage. rewrite image_Rect_origin by auto. reflexivity. }
  assert (Q1 : 2 * Z.quot (srcW - srcH) 2 <= srcW - srcH <= 2 * Z.quot (srcW - srcH) 2 + 1
               \/ srcW <= srcH).
  { destruct (Z_le_dec srcW srcH); [now right|left].
    rewrite Z.quot_div_nonneg by lia.
    pose proof (Z.div_mod (srcW - srcH) 2 ltac:(lia)).
    pose proof (Z.mod_pos_bound (srcW - srcH) 2 ltac:(lia)). lia. }
  assert (Q2 : 2 * Z.quot (srcH - srcW) 2 <= srcH - srcW <= 2 * Z.quot (srcH - srcW) 2 + 1
               \/ srcH < srcW).
  { destruct (Z_lt_dec srcH srcW); [now right|left].
    rewrite Z.quot_div_nonneg by lia.
    pose proof (Z.div_mod (srcH - srcW) 2 ltac:(lia)).
    pose proof (Z.mod_pos_bound (srcH - srcW) 2 ltac:(lia)). lia. }
  assert (E : exists a b c d,
             crop = mkRectangle a b c d /\
             c - a = Z.min srcW srcH /\ d - b = Z.min srcW srcH /\
             (0 <= a /\ c <= srcW /\ 0 <= b /\ d <= srcH) /\
             0 <= (srcW - c) - a <= 1 /\ 0 <= (srcH - d) - b <= 1).
  { rewrite Hcrop. clear Hcrop Hout.
    generalize dependent (Z.quot (srcW - srcH) 2).
    generalize dependent (Z.quot (srcH - srcW) 2).
    intros q2 Q2 q1 Q1.
    destruct (Z.gtb_spec srcW srcH) as [G|G];
      eexists _, _, _, _; (split; [reflexivity|]); clearbody srcW srcH; lia. }
  destruct E as (a & b & c & d & Ec & F1 & F2 & F3 & F4 & F5).
  rewrite Hout, Ec. unfold Dx at 1 2 3, Dy at 1 2. simpl.
  split; [exact F1|]. split; [exact F2|]. split; [exact F3|].
  split.
  { intros r [Rx Ry] Hsq A1 A2 A3 A4. unfold Dx, Dy in *. simpl. lia. }
  split; [exact F4|]. split; [exact F5|].
  split; [reflexivity|]. split; [reflexivity|]. split; [reflexivity|].
  unfold Dx, Dy; simpl. lia.
Qed.

(** The scenario of the specification: a 300x500 source on the avatar
    path. *)
Lemma resizeImage_square_crop_scale_witness :
  well_formed (Bounds (black_image 300 500)) /\
  0 <= 256 /\
  cropRect_of (black_image 300 500) = mkRectangle 0 100 300 400 /\
  Bounds (resizeImage no_scaling (black_image 300 500) 256 256) =
    mkRectangle 0 0 256 256.
Proof.
  assert (Hwf : well_formed (Bounds (black_image 300 500))) by (split; simpl; lia).
  assert (Ht : 0 <= 256) by lia.
  split; [exact Hwf | split; [exact Ht | split; [reflexivity |]]].
  apply (resizeImage_square_crop_scale no_scaling (black_image 300 500) 256
           Hwf eq_refl eq_refl Ht).
Defined.

(** ** Collections *)

Lemma inc_ID (f : Counter) (delta : Z) (p : BlogPost) :
  post_ID (inc f delta p) = post_ID p.
Proof. destruct f; reflexivity. Qed.

Lemma inc_Slug (f : Counter) (delta : Z) (p : BlogPost) :
  post_Slug (inc f delta p) = post_Slug p.
Proof. destruct f; reflexivity. Qed.

Lemma inc_Status (f : Counter) (delta : Z) (p : BlogPost) :
  post_Status (inc f delta p) = post_Status p.
Proof. destruct f; reflexivity. Qed.

(** [UpdateOne] by [_id], seen through a lookup by [_id]. *)
Lemma UpdateOne_by_id (id id' : ObjectID) (upd : BlogPost -> BlogPost)
      (ps : list BlogPost) :
  (forall p, post_ID (upd p) = post_ID p) ->
  find (fun p => post_ID p =? id')
       (snd (coll_UpdateOne (fun p => post_ID p =? id) upd ps)) =
  if id' =? id
  then option_map upd (find (fun p => post_ID p =? id) ps)
  else find (fun p => post_ID p =? id') ps.
Proof.
  intros Hupd. induction ps as [|x t IH]; simpl.
  - destruct (id' =? id); reflexivity.
  - destruct (Z.eqb_spec (post_ID x) id) as [E|N]; simpl.
    + rewrite Hupd, E. destruct (Z.eqb_spec id id') as [->|N'].
      * rewrite Z.eqb_refl. reflexivity.
      * destruct (Z.eqb_spec id' id); [congruence | reflexivity].
    + destruct (coll_UpdateOne (fun p => post_ID p =? id) upd t) as [n t'] eqn:Eu.
      simpl in *. destruct (Z.eqb_spec (post_ID x) id') as [E'|N'].
      * destruct (Z.eqb_spec id' id); [congruence | reflexivity].
      * exact IH.
Qed.

Lemma UpdateOne_ids (id : ObjectID) (upd : BlogPost -> BlogPost)
      (ps : list BlogPost) :
  (forall p, post_ID (upd p) = post_ID p) ->
  map post_ID (snd (coll_UpdateOne (fun p => post_ID p =? id) upd ps)) =
  map post_ID ps.
Proof.
  intros Hupd. induction ps as [|x t IH]; simpl; auto.
  destruct (post_ID x =? id); simpl.
  - now rewrite Hupd.
  - destruct (coll_UpdateOne (fun p => post_ID p =? id) upd t) as [n t'].
    simpl in *. now rewrite IH.
Qed.

(** [UpdateOne] by [_id], seen through any other lookup that the update
    does not disturb: the document found is the same one, updated when it
    is the one with that [_id]. *)
Lemma UpdateOne_by_pred (id : ObjectID) (upd : BlogPost -> BlogPost)
      (pred : BlogPost -> bool) (ps : list BlogPost) (post : BlogPost) :
  (forall p, post_ID (upd p) = post_ID p) ->
  (forall p, pred (upd p) = pred p) ->
  NoDup (map post_ID ps) ->
  find pred ps = Some post ->
  find pred (snd (coll_UpdateOne (fun p => post_ID p =? id) upd ps)) =
  Some (if post_ID post =? id then upd post else post).
Proof.
  intros Hid Hpred. induction ps as [|x t IH]; simpl; intros ND Hf; [discriminate|].
  inversion ND as [|? ? Hnotin ND']; subst.
  destruct (Z.eqb_spec (post_ID x) id) as [E|N]; simpl.
  - rewrite Hpred. destruct (pred x) eqn:Px.
    + inversion Hf; subst. rewrite Z.eqb_refl. reflexivity.
    + rewrite Hf. f_equal.
      destruct (Z.eqb_spec (post_ID post) id) as [E'|]; [|reflexivity].
      exfalso. apply Hnotin. apply find_some in Hf. destruct Hf as [Hin _].
      rewrite E, <- E'. now apply in_map.
  - destruct (coll_UpdateOne (fun p => post_ID p =? id) upd t) as [n t'] eqn:Eu.
    simpl in *. destruct (pred x) eqn:Px.
    + inversion Hf; subst.
      destruct (Z.eqb_spec (post_ID post) id); [contradiction | reflexivity].
    + apply IH; auto.
Qed.

Lemma UpdateOne_by_pred_none (id : ObjectID) (upd : BlogPost -> BlogPost)
      (pred : BlogPost -> bool) (ps : list BlogPost) :
  (forall p, pred (upd p) = pred p) ->
  find pred ps = None ->
  find pred (snd (coll_UpdateOne (fun p => post_ID p =? id) upd ps)) = None.
Proof.
  intros Hpred. induction ps as [|x t IH]; simpl; intros Hf; auto.
  destruct (pred x) eqn:Px; [discriminate|].
  destruct (post_ID x =? id); simpl.
  - now rewrite Hpred, Px.
  - destruct (coll_UpdateOne (fun p => post_ID p =? id) upd t) as [n t'].
    simpl in *. rewrite Px. auto.
Qed.

Lemma find_by_id_of_pred (pred : BlogPost -> bool) (ps : list BlogPost)
      (post : BlogPost) :
  NoDup (map post_ID ps) ->
  find pred ps = Some post ->
  find (fun p => post_ID p =? post_ID post) ps = Some post.
Proof.
  induction ps as [|x t IH]; simpl; intros ND Hf; [discriminate|].
  inversion ND as [|? ? Hnotin ND']; subst.
  destruct (pred x) eqn:Px.
  - inversion Hf; subst. now rewrite Z.eqb_refl.
  - destruct (Z.eqb_spec (post_ID x) (post_ID post)) as [E|N]; auto.
    exfalso. apply Hnotin. rewrite E. apply find_some in Hf.
    apply in_map. tauto.
Qed.

Section Markers.
(** A marker collection, keyed by the pair its unique index covers. *)
Variable T : Type.
Variable key : T -> Z * Z.

Lemma has_key_spec (k : Z * Z) (x : T) : has_key key k x = true <-> key x = k.
Proof.
  unfold has_key. rewrite andb_true_iff, !Z.eqb_eq.
  destruct (key x), k; simpl. split; [intros [-> ->]; auto | now inversion 1].
Qed.

Lemma DeleteOne_count (k : Z * Z) (c : list T) :
  fst (coll_DeleteOne (has_key key k) c) = if existsb (has_key key k) c then 1 else 0.
Proof.
  induction c as [|x t IH]; simpl; auto.
  destruct (has_key key k x); simpl; auto.
  destruct (coll_DeleteOne (has_key key k) t) as [n t']. simpl in *. exact IH.
Qed.

Lemma DeleteOne_absent (k : Z * Z) (c : list T) :
  existsb (has_key key k) c = false -> snd (coll_DeleteOne (has_key key k) c) = c.
Proof.
  induction c as [|x t IH]; simpl; auto.
  destruct (has_key key k x); simpl; [discriminate|]. intros H.
  destruct (coll_DeleteOne (has_key key k) t) as [n t']. simpl in *.
  now rewrite IH.
Qed.

Lemma DeleteOne_incl (k : Z * Z) (c : list T) (x : T) :
  In x (snd (coll_DeleteOne (has_key key k) c)) -> In x c.
Proof.
  induction c as [|y t IH]; simpl; auto.
  destruct (has_key key k y); simpl; auto.
  destruct (coll_DeleteOne (has_key key k) t) as [n t']. simpl in *.
  intros [->|H]; auto.
Qed.

Lemma DeleteOne_NoDup (k : Z * Z) (c : list T) :
  NoDup (map key c) -> NoDup (map key (snd (coll_DeleteOne (has_key key k) c))).
Proof.
  induction c as [|x t IH]; simpl; auto. intros ND.
  inversion ND as [|? ? Hnotin ND']; subst.
  destruct (has_key key k x); simpl; auto.
  destruct (coll_DeleteOne (has_key key k) t) as [n t'] eqn:E. simpl in *.
  constructor; auto. intros Hin. apply Hnotin.
  apply in_map_iff in Hin. destruct Hin as (y & Ey & Hy).
  apply in_map_iff. exists y. split; auto.
  apply (DeleteOne_incl k t y). now rewrite E.
Qed.

(** With the unique index in force, deleting the marker of a pair leaves
    none behind. *)
Lemma DeleteOne_gone (k : Z * Z) (c : list T) :
  NoDup (map key c) ->
  existsb (has_key key k) (snd (coll_DeleteOne (has_key key k) c)) = false.
Proof.
  induction c as [|x t IH]; simpl; auto. intros ND.
  inversion ND as [|? ? Hnotin ND']; subst.
  destruct (has_key key k x) eqn:Hx; simpl.
  - apply has_key_spec in Hx.
    destruct (existsb (has_key key k) t) eqn:Ex; auto.
    apply existsb_exists in Ex. destruct Ex as (y & Hy & Ky).
    apply has_key_spec in Ky. exfalso. apply Hnotin.
    rewrite Hx, <- Ky. now apply in_map.
  - destruct (coll_DeleteOne (has_key key k) t) as [n t'] eqn:E. simpl in *.
    rewrite Hx. auto.
Qed.

Lemma DeleteOne_other (k k' : Z * Z) (c : list T) :
  k' <> k ->
  existsb (has_key key k') (snd (coll_DeleteOne (has_key key k) c)) =
  existsb (has_key key k') c.
Proof.
  intros N. induction c as [|x t IH]; simpl; auto.
  destruct (has_key key k x) eqn:Hx; simpl.
  - apply has_key_spec in Hx.
    destruct (has_key key k' x) eqn:Hx'; auto.
    apply has_key_spec in Hx'. congruence.
  - destruct (coll_DeleteOne (has_key key k) t) as [n t']. simpl in *.
    now rewrite IH.
Qed.

Lemma existsb_snoc (f : T -> bool) (c : list T) (x : T) :
  existsb f (c ++ [x]) = existsb f c || f x.
Proof. rewrite existsb_app. simpl. now rewrite orb_false_r. Qed.

Lemma NoDup_snoc_key (c : list T) (x : T) :
  NoDup (map key c) -> existsb (has_key key (key x)) c = false ->
  NoDup (map key (c ++ [x])).
Proof.
  intros ND Hx. rewrite map_app. simpl.
  apply NoDup_app; auto.
  - constructor; [intros []|constructor].
  - intros y Hy [<-|[]].
    apply in_map_iff in Hy. destruct Hy as (z & Ez & Hz).
    assert (existsb (has_key key (key x)) c = true).
    { apply existsb_exists. exists z. split; auto. now apply has_key_spec. }
    congruence.
Qed.
End Markers.

(** ** Store operations

    Each lemma gives the outcome of one store operation issued at a
    moment when no concurrent writer has touched the store since the
    previous one. *)

Lemma store_op_quiet {T : Type} (f : DB -> option T * DB) (env : Env) (w : World) :
  others env (issued w) (db w) = db w ->
  store_op f env w =
  if fails env (issued w)
  then (None, bump w)
  else (fst (f (db w)), mkWorld (snd (f (db w))) (S (issued w)) (effects w)).
Proof.
  intros Q. unfold store_op, bump. rewrite Q. destruct (fails env (issued w)); auto.
  destruct (f (db w)); reflexivity.
Qed.

Lemma Posts_FindOne_quiet (filter : BlogPost -> bool) (env : Env) (w : World) :
  others env (issued w) (db w) = db w ->
  Posts_FindOne filter env w =
  if fails env (issued w) then (None, bump w)
  else (find filter (Posts (db w)), bump w).
Proof.
  intros Q. unfold Posts_FindOne. rewrite store_op_quiet by auto. reflexivity.
Qed.

Lemma resolvePostBySlug_quiet (slug : string) (env : Env) (w : World) :
  others env (issued w) (db w) = db w ->
  resolvePostBySlug slug env w =
  if fails env (issued w) then (None, bump w)
  else (published_post (db w) slug, bump w).
Proof. intros Q. unfold resolvePostBySlug. now rewrite Posts_FindOne_quiet. Qed.

Lemma Posts_UpdateOne_inc_quiet (id : ObjectID) (f : Counter) (delta : Z)
      (env : Env) (w : World) :
  others env (issued w) (db w) = db w ->
  Posts_UpdateOne_inc id f delta env w =
  if fails env (issued w) then (None, bump w)
  else
    (Some (fst (coll_UpdateOne (fun p => post_ID p =? id) (inc f delta)
                               (Posts (db w)))),
     mkWorld
       (with_Posts (db w)
          (snd (coll_UpdateOne (fun p => post_ID p =? id) (inc f delta)
                               (Posts (db w)))))
       (S (issued w)) (effects w)).
Proof.
  intros Q. unfold Posts_UpdateOne_inc. rewrite store_op_quiet by auto.
  destruct (fails env (issued w)); auto.
  destruct (coll_UpdateOne _ _ _); reflexivity.
Qed.

Lemma PostViews_Upsert_quiet (postID userID : ObjectID) (doc : PostView)
      (env : Env) (w : World) :
  others env (issued w) (db w) = db w ->
  PostViews_Upsert postID userID doc env w =
  if fails env (issued w) then (None, bump w)
  else if viewed (db w) postID userID
       then (Some 0, bump w)
       else (Some 1,
             mkWorld (with_PostViews (db w) (PostViews (db w) ++ [doc]))
                     (S (issued w)) (effects w)).
Proof.
  intros Q. unfold PostViews_Upsert. rewrite store_op_quiet by auto.
  destruct (fails env (issued w)); auto.
  unfold coll_Upsert, viewed.
  destruct (existsb _ (PostViews (db w))); simpl; auto.
  unfold bump, with_PostViews. destruct w as [[] ? ?]; reflexivity.
Qed.

Lemma PostLikes_DeleteOne_quiet (postID userID : ObjectID) (env : Env) (w : World) :
  others env (issued w) (db w) = db w ->
  PostLikes_DeleteOne postID userID env w =
  if fails env (issued w) then (None, bump w)
  else
    (Some (if liked (db w) postID userID then 1 else 0),
     mkWorld
       (with_PostLikes (db w)
          (snd (coll_DeleteOne (has_key like_key (postID, userID))
                               (PostLikes (db w)))))
       (S (issued w)) (effects w)).
Proof.
  intros Q. unfold PostLikes_DeleteOne. rewrite store_op_quiet by auto.
  destruct (fails env (issued w)); auto.
  change (fun l : PostLike => (like_PostID l =? postID) && (like_UserID l =? userID))
    with (has_key like_key (postID, userID)).
  pose proof (DeleteOne_count PostLike like_key (postID, userID) (PostLikes (db w))) as C.
  destruct (coll_DeleteOne _ _) as [n ls]. simpl in *. subst n. reflexivity.
Qed.

Lemma PostLikes_InsertOne_quiet (doc : PostLike) (env : Env) (w : World) :
  others env (issued w) (db w) = db w ->
  PostLikes_InsertOne doc env w =
  if fails env (issued w) then (None, bump w)
  else if liked (db w) (like_PostID doc) (like_UserID doc)
       then (None, bump w)
       else (Some tt,
             mkWorld (with_PostLikes (db w) (PostLikes (db w) ++ [doc]))
                     (S (issued w)) (effects w)).
Proof.
  intros Q. unfold PostLikes_InsertOne. rewrite store_op_quiet by auto.
  destruct (fails env (issued w)); auto.
  unfold coll_InsertOne_unique, liked.
  destruct (existsb _ (PostLikes (db w))); simpl; auto.
Qed.

Lemma PostComments_InsertOne_quiet (doc : PostComment) (env : Env) (w : World) :
  others env (issued w) (db w) = db w ->
  PostComments_InsertOne doc env w =
  if fails env (issued w) then (None, bump w)
  else (Some tt,
        mkWorld (with_PostComments (db w) (PostComments (db w) ++ [doc]))
                (S (issued w)) (effects w)).
Proof.
  intros Q. unfold PostComments_InsertOne. now rewrite store_op_quiet by auto.
Qed.

Lemma Profiles_Find_quiet (filter : Profile -> bool) (env : Env) (w : World) :
  others env (issued w) (db w) = db w ->
  Profiles_Find filter env w =
  if fails env (issued w) then (None, bump w)
  else (Some (List.filter filter (Profiles (db w))), bump w).
Proof.
  intros Q. unfold Profiles_Find. rewrite store_op_quiet by auto. reflexivity.
Qed.

Lemma Posts_FindOne_any (filter : BlogPost -> bool) (env : Env) (w : World) :
  Posts_FindOne filter env w =
  (if fails env (issued w) then None
   else find filter (Posts (others env (issued w) (db w))),
   mkWorld (others env (issued w) (db w)) (S (issued w)) (effects w)).
Proof.
  unfold Posts_FindOne, store_op. destruct (fails env (issued w)); reflexivity.
Qed.

(** One step of a handler run: the next store operation is replaced by its
    outcome; [Q] says that the store is left alone. *)
Ltac left_alone Q :=
  first [ solve [apply Q] | solve [apply Q; cbn [issued bump]; lia] ].

Ltac store_step Q :=
  cbn [bump db issued effects fst snd];
  match goal with
  | |- context [resolvePostBySlug ?s ?e ?w] =>
      rewrite (resolvePostBySlug_quiet s e w) by left_alone Q
  | |- context [Posts_FindOne ?f ?e ?w] =>
      rewrite (Posts_FindOne_quiet f e w) by left_alone Q
  | |- context [Posts_UpdateOne_inc ?i ?f ?k ?e ?w] =>
      rewrite (Posts_UpdateOne_inc_quiet i f k e w) by left_alone Q
  | |- context [PostViews_Upsert ?p ?u ?doc ?e ?w] =>
      rewrite (PostViews_Upsert_quiet p u doc e w) by left_alone Q
  | |- context [PostLikes_DeleteOne ?p ?u ?e ?w] =>
      rewrite (PostLikes_DeleteOne_quiet p u e w) by left_alone Q
  | |- context [PostLikes_InsertOne ?doc ?e ?w] =>
      rewrite (PostLikes_InsertOne_quiet doc e w) by left_alone Q
  | |- context [PostComments_InsertOne ?doc ?e ?w] =>
      rewrite (PostComments_InsertOne_quiet doc e w) by left_alone Q
  | |- context [Profiles_Find ?f ?e ?w] =>
      rewrite (Profiles_Find_quiet f e w) by left_alone Q
  end;
  cbn [bump db issued effects fst snd].

Ltac handler_start :=
  unfold run, bind, ret, ask, emit; cbv beta; cbn [db issued effects fst snd].

(** ** Counters *)

Lemma read_inc (g f : Counter) (delta : Z) (p : BlogPost) :
  read g (inc f delta p) = read g p + (if Counter_eqb g f then delta else 0).
Proof. destruct g, f; simpl; lia. Qed.

Lemma post_by_id_inc (d : DB) (id id' : ObjectID) (f : Counter) (delta : Z) :
  post_by_id
    (with_Posts d (snd (coll_UpdateOne (fun p => post_ID p =? id) (inc f delta)
                                       (Posts d)))) id' =
  if id' =? id then option_map (inc f delta) (post_by_id d id)
  else post_by_id d id'.
Proof.
  unfold post_by_id; simpl. apply UpdateOne_by_id. intros p. apply inc_ID.
Qed.

(** [$inc] on the post [id] adds [delta] to that counter of that post and
    touches nothing else. *)
Lemma counter_inc (d : DB) (id id' : ObjectID) (f g : Counter) (delta : Z) :
  post_by_id d id <> None ->
  counter g
    (with_Posts d (snd (coll_UpdateOne (fun p => post_ID p =? id) (inc f delta)
                                       (Posts d)))) id' =
  counter g d id' + (if (id' =? id) && Counter_eqb g f then delta else 0).
Proof.
  intros Hex. unfold counter. rewrite post_by_id_inc.
  destruct (Z.eqb_spec id' id) as [->|N]; simpl.
  - destruct (post_by_id d id) as [p|]; [|contradiction]. simpl.
    apply read_inc.
  - lia.
Qed.

Lemma published_post_inc (d : DB) (id : ObjectID) (f : Counter) (delta : Z)
      (slug : string) (post : BlogPost) :
  NoDup (map post_ID (Posts d)) ->
  published_post d slug = Some post ->
  published_post
    (with_Posts d (snd (coll_UpdateOne (fun p => post_ID p =? id) (inc f delta)
                                       (Posts d)))) slug =
  Some (if post_ID post =? id then inc f delta post else post).
Proof.
  intros ND Hp. unfold published_post in *; simpl.
  apply UpdateOne_by_pred; auto.
  - intros p. apply inc_ID.
  - intros p. now rewrite inc_Slug, inc_Status.
Qed.

Lemma published_post_by_id (d : DB) (slug : string) (post : BlogPost) :
  store_ok d -> published_post d slug = Some post ->
  post_by_id d (post_ID post) = Some post.
Proof.
  intros (ND & _) Hp. unfold post_by_id, published_post in *.
  eapply find_by_id_of_pred; eauto.
Qed.

Lemma store_ok_inc (d : DB) (id : ObjectID) (f : Counter) (delta : Z) :
  store_ok d ->
  store_ok (with_Posts d (snd (coll_UpdateOne (fun p => post_ID p =? id)
                                              (inc f delta) (Posts d)))).
Proof.
  intros (N1 & N2 & N3). unfold store_ok; simpl.
  rewrite UpdateOne_ids by (intros; apply inc_ID). auto.
Qed.

Lemma viewed_snoc (d : DB) (doc : PostView) (p u : ObjectID) :
  viewed (with_PostViews d (PostViews d ++ [doc])) p u =
  viewed d p u || ((view_PostID doc =? p) && (view_UserID doc =? u)).
Proof. unfold viewed; simpl. apply existsb_snoc. Qed.

Lemma store_ok_view (d : DB) (doc : PostView) :
  store_ok d -> viewed d (view_PostID doc) (view_UserID doc) = false ->
  store_ok (with_PostViews d (PostViews d ++ [doc])).
Proof.
  intros (N1 & N2 & N3) Hv. unfold store_ok; simpl. repeat split; auto.
  apply NoDup_snoc_key; auto.
Qed.

(** ** View recording *)

(** What one run of [RecordView] does once the post is resolved and the
    raw counter is written: the answer is the success message whatever
    happens to the marker; [unique_view_count] moves exactly when the
    marker is new and its increment goes through. *)
Lemma RecordView_outcome (r : Request) (env : Env) (d : DB) (post : BlogPost) :
  quiet env -> store_ok d ->
  req_Slug r <> "" ->
  published_post d (req_Slug r) = Some post ->
  fails env 0%nat = false -> fails env 1%nat = false ->
  let out := run (RecordView r) env d in
  let id := post_ID post in
  let u := req_UserID r in
  let fresh := negb (u =? NilObjectID) && negb (fails env 2%nat) &&
               negb (viewed d id u) in
  let counted := fresh && negb (fails env 3%nat) in
  fst out = json_OK (BodyMessage "View recorded") /\
  (forall g id',
     counter g (db_of out) id' =
     counter g d id'
     + (if (id' =? id) && Counter_eqb g view_count then 1 else 0)
     + (if counted && (id' =? id) && Counter_eqb g unique_view_count
        then 1 else 0)) /\
  (forall p' u',
     viewed (db_of out) p' u' =
     viewed d p' u' || (fresh && (p' =? id) && (u' =? u))) /\
  store_ok (db_of out) /\
  PostLikes (db_of out) = PostLikes d /\
  PostComments (db_of out) = PostComments d /\
  map post_ID (Posts (db_of out)) = map post_ID (Posts d).
Proof.
  intros Q Hok Hs Hp F0 F1 out id u fresh counted.
  assert (Hid : post_by_id d id = Some post)
    by exact (published_post_by_id d _ post Hok Hp).
  assert (Hex : post_by_id d id <> None) by congruence.
  set (d1 := with_Posts d (snd (coll_UpdateOne (fun p => post_ID p =? id)
                                               (inc view_count 1) (Posts d)))).
  assert (Hok1 : store_ok d1) by (apply store_ok_inc; auto).
  assert (Hex1 : post_by_id d1 id <> None).
  { unfold d1. rewrite post_by_id_inc, Z.eqb_refl, Hid. discriminate. }
  assert (C1 : forall g id', counter g d1 id' =
             counter g d id' + (if (id' =? id) && Counter_eqb g view_count
                                then 1 else 0)).
  { intros. apply counter_inc; auto. }
  assert (I1 : map post_ID (Posts d1) = map post_ID (Posts d)).
  { unfold d1; simpl. apply UpdateOne_ids. intros; apply inc_ID. }
  subst counted; subst fresh; subst out.
  unfold RecordView.
  destruct (String.eqb_spec (req_Slug r) "") as [E|_]; [contradiction|].
  handler_start.
  store_step Q. rewrite F0, Hp.
  store_step Q. rewrite F1. fold id d1. fold u.
  destruct (Z.eqb_spec u NilObjectID) as [Eu|Nu]; cbn [negb andb].
  { unfold db_of; cbn [bump fst snd db issued effects].
    split; [|split; [|split; [|split; [|split; [|split]]]]]; auto.
    - intros. rewrite C1. lia.
    - intros. now rewrite orb_false_r. }
  store_step Q.
  destruct (fails env 2%nat) eqn:F2; cbn [negb andb].
  { unfold db_of; cbn [bump fst snd db issued effects].
    split; [|split; [|split; [|split; [|split; [|split]]]]]; auto.
    - intros. rewrite C1. lia.
    - intros. now rewrite orb_false_r. }
  change (viewed d1 id u) with (viewed d id u).
  destruct (viewed d id u) eqn:V; cbn [negb andb].
  { cbn [Z.gtb Z.compare]. unfold db_of; cbn [bump fst snd db issued effects].
    split; [|split; [|split; [|split; [|split; [|split]]]]]; auto.
    - intros. rewrite C1. lia.
    - intros. now rewrite orb_false_r. }
  cbn [Z.gtb Z.compare].
  set (doc := mkPostView (NewObjectID env) id u (Now env)).
  set (d2 := with_PostViews d1 (PostViews d1 ++ [doc])).
  assert (Hok2 : store_ok d2) by (apply store_ok_view; auto).
  assert (V2 : forall p' u', viewed d2 p' u' =
             viewed d p' u' || ((p' =? id) && (u' =? u))).
  { intros. unfold d2. rewrite viewed_snoc. simpl.
    now rewrite (Z.eqb_sym id p'), (Z.eqb_sym u u'). }
  store_step Q.
  destruct (fails env 3%nat) eqn:F3; cbn [negb andb].
  { unfold db_of; cbn [bump fst snd db issued effects].
    split; [|split; [|split; [|split; [|split; [|split]]]]]; auto.
    intros. change (counter g d2 id') with (counter g d1 id'). rewrite C1. lia. }
  unfold db_of; cbn [bump fst snd db issued effects].
  set (d3 := with_Posts d2 _).
  assert (C3 : forall g id', counter g d3 id' =
             counter g d2 id' + (if (id' =? id) && Counter_eqb g unique_view_count
                                 then 1 else 0)).
  { intros. apply counter_inc. exact Hex1. }
  split; [|split; [|split; [|split; [|split; [|split]]]]]; auto.
  - intros. rewrite C3. change (counter g d2 id') with (counter g d1 id').
    rewrite C1. lia.
  - apply (store_ok_inc d2); auto.
  - unfold d3; simpl. rewrite UpdateOne_ids by (intros; apply inc_ID). exact I1.
Qed.

(** Every other run of [RecordView] leaves the store as it was. *)
Lemma RecordView_cases (r : Request) (env : Env) (d : DB) :
  quiet env ->
  (db_of (run (RecordView r) env d) = d /\
   StatusCode (fst (run (RecordView r) env d)) <> StatusOK) \/
  (exists post,
     req_Slug r <> "" /\ published_post d (req_Slug r) = Some post /\
     fails env 0%nat = false /\ fails env 1%nat = false).
Proof.
  intros Q. unfold RecordView.
  destruct (String.eqb_spec (req_Slug r) "") as [E|N].
  { left. split; [reflexivity | discriminate]. }
  handler_start. store_step Q.
  destruct (fails env 0%nat) eqn:F0.
  { left. split; [reflexivity | discriminate]. }
  destruct (published_post d (req_Slug r)) as [post|] eqn:Hp.
  2:{ left. split; [reflexivity | discriminate]. }
  store_step Q.
  destruct (fails env 1%nat) eqn:F1.
  { left. split; [reflexivity | discriminate]. }
  right. exists post. auto.
Qed.

Lemma RecordView_unique_step (r : Request) (env : Env) (d : DB) (p u : ObjectID) :
  quiet env -> store_ok d ->
  let d' := db_of (run (RecordView r) env d) in
  store_ok d' /\
  (viewed d p u = true -> viewed d' p u = true) /\
  (req_UserID r = u ->
   counter unique_view_count d p < counter unique_view_count d' p ->
   viewed d p u = false /\ viewed d' p u = true).
Proof.
  intros Q Hok d'. subst d'.
  destruct (RecordView_cases r env d Q) as [[E _] | (post & Hs & Hp & F0 & F1)].
  - rewrite E. split; [exact Hok | split; [auto | intros _ Hlt; lia]].
  - destruct (RecordView_outcome r env d post Q Hok Hs Hp F0 F1)
      as (_ & C & V & Hok' & _).
    split; [exact Hok' | split].
    + intros Hv. rewrite V, Hv. reflexivity.
    + intros Hu Hlt. rewrite (C unique_view_count p) in Hlt. simpl in Hlt.
      rewrite andb_false_r in Hlt. rewrite V. subst u.
      destruct (negb (req_UserID r =? NilObjectID) && negb (fails env 2%nat) &&
                negb (viewed d (post_ID post) (req_UserID r))) eqn:Fr;
        cbn [andb] in Hlt; [|lia].
      destruct (Z.eqb_spec p (post_ID post)) as [->|N];
        [|rewrite andb_false_r in Hlt; simpl in Hlt; lia].
      apply andb_true_iff in Fr. destruct Fr as [_ Fv].
      apply negb_true_iff in Fv. rewrite Fv, Z.eqb_refl. auto.
Qed.

(** Over any sequence of view requests, however they fail, at most one
    raises the unique counter of a post on behalf of the same user, and
    none does once the marker exists. *)
Lemma unique_increments_bound (p u : ObjectID) (calls : list (Request * Env)) :
  forall d, store_ok d -> Forall (fun c => quiet (snd c)) calls ->
  (unique_increments p u calls d <= if viewed d p u then 0 else 1)%nat.
Proof.
  induction calls as [|[r env] rest IH]; intros d Hok Hq; simpl.
  - destruct (viewed d p u); lia.
  - inversion Hq as [|? ? Q Hq']; subst. simpl in Q.
    destruct (RecordView_unique_step r env d p u Q Hok) as (Hok' & Vk & Vn).
    specialize (IH _ Hok' Hq').
    destruct ((req_UserID r =? u) &&
              (counter unique_view_count d p <?
               counter unique_view_count (db_of (run (RecordView r) env d)) p))
      eqn:Ind.
    + apply andb_true_iff in Ind. destruct Ind as [Eu Lt].
      apply Z.eqb_eq in Eu. apply Z.ltb_lt in Lt.
      destruct (Vn Eu Lt) as [V0 V1]. rewrite V0. rewrite V1 in IH. lia.
    + destruct (viewed d p u) eqn:V0.
      * rewrite (Vk eq_refl) in IH. lia.
      * destruct (viewed _ p u); lia.
Qed.

(** C5.  A successful view recording (every store operation of the request
    succeeds, no concurrent writer) on a published post: [viewCount] goes
    up by exactly one, unconditionally; [uniqueViewCount] goes up by
    exactly one if and only if the caller is authenticated and the
    insert-if-absent created the marker, that is, no marker of the pair
    existed; with an existing marker only [viewCount] changes; the other
    counters and the other posts are never touched.  Hence, over any
    sequence of view requests, at most one increment of [uniqueViewCount]
    is ever made for a (post, user) pair. *)
Theorem RecordView_counts_views :
  forall (r : Request) (env : Env) (d : DB) (post : BlogPost),
  store_ok d -> quiet env -> no_faults env ->
  req_Slug r <> "" ->
  published_post d (req_Slug r) = Some post ->
  let out := run (RecordView r) env d in
  let d' := db_of out in
  let id := post_ID post in
  let u := req_UserID r in
  let created := negb (u =? NilObjectID) && negb (viewed d id u) in
  fst out = json_OK (BodyMessage "View recorded") /\
  counter view_count d' id = post_ViewCount post + 1 /\
  counter unique_view_count d' id =
    post_UniqueViewCount post + (if created then 1 else 0) /\
  counter like_count d' id = post_LikeCount post /\
  counter comment_count d' id = post_CommentCount post /\
  (forall g id', id' <> id -> counter g d' id' = counter g d id') /\
  (u <> NilObjectID -> viewed d' id u = true) /\
  (forall p' u', viewed d' p' u' = true ->
                 viewed d p' u' = true \/ (created = true /\ p' = id /\ u' = u)) /\
  (forall (p' u' : ObjectID) (calls : list (Request * Env)) (d0 : DB),
     store_ok d0 -> Forall (fun c => quiet (snd c)) calls ->
     (unique_increments p' u' calls d0 <= 1)%nat).
Proof.
  intros r env d post Hok Q NF Hs Hp out d' id u created.
  destruct (RecordView_outcome r env d post Q Hok Hs Hp (NF _) (NF _))
    as (Hresp & C & V & Hok' & _).
  fold out in Hresp. fold d' in C, V. fold id in C, V. fold u in C, V.
  pose proof (NF 2%nat) as F2. pose proof (NF 3%nat) as F3.
  assert (C' : forall g id',
             counter g d' id' =
             counter g d id'
             + (if (id' =? id) && Counter_eqb g view_count then 1 else 0)
             + (if created && (id' =? id) && Counter_eqb g unique_view_count
                then 1 else 0)).
  { intros. rewrite C, F2, F3. unfold created. cbn [negb].
    rewrite !andb_true_r. reflexivity. }
  assert (V' : forall p' u',
             viewed d' p' u' =
             viewed d p' u' || (created && (p' =? id) && (u' =? u))).
  { intros. rewrite V, F2. unfold created. cbn [negb].
    rewrite !andb_true_r. reflexivity. }
  clear C V. rename C' into C. rename V' into V.
  assert (Hid : post_by_id d id = Some post)
    by exact (published_post_by_id d _ post Hok Hp).
  assert (R : forall g, counter g d id = read g post).
  { intros g. unfold counter. now rewrite Hid. }
  split; [exact Hresp|].
  split; [rewrite C, R, Z.eqb_refl; simpl; rewrite andb_false_r; simpl; lia|].
  split; [rewrite C, R, Z.eqb_refl; simpl; rewrite !andb_true_r; lia|].
  split; [rewrite C, R, Z.eqb_refl; simpl; rewrite andb_false_r; simpl; lia|].
  split; [rewrite C, R, Z.eqb_refl; simpl; rewrite andb_false_r; simpl; lia|].
  split.
  { intros g id' N. rewrite C.
    destruct (Z.eqb_spec id' id); [contradiction|]. simpl.
    rewrite andb_false_r. simpl. lia. }
  split.
  { intros Nu. rewrite V, !Z.eqb_refl, !andb_true_r. unfold created.
    destruct (Z.eqb_spec u NilObjectID); [contradiction|]. simpl.
    destruct (viewed d id u); reflexivity. }
  split.
  { intros p' u' Hv. rewrite V in Hv. apply orb_true_iff in Hv.
    destruct Hv as [Hv|Hv]; [now left | right].
    apply andb_true_iff in Hv. destruct Hv as [Hv E2].
    apply andb_true_iff in Hv. destruct Hv as [E0 E1].
    apply Z.eqb_eq in E1. apply Z.eqb_eq in E2. auto. }
  intros p' u' calls d0 Hok0 Hq.
  pose proof (unique_increments_bound p' u' calls d0 Hok0 Hq) as B.
  destruct (viewed d0 p' u'); lia.
Qed.

Lemma store_ok_sample_db : store_ok sample_db.
Proof.
  unfold store_ok, sample_db; simpl.
  repeat split; repeat constructor. intros [].
Defined.

Lemma quiet_calm : quiet calm.
Proof. intros i d. reflexivity. Defined.

Lemma no_faults_calm : no_faults calm.
Proof. intros i. reflexivity. Defined.

Lemma quiet_failing_at (i : nat) : quiet (failing_at i).
Proof. intros j d. reflexivity. Defined.

(** User 42 looks at the sample post for the first time: 10 views become
    11, 3 unique views become 4. *)
Lemma RecordView_counts_views_witness :
  store_ok sample_db /\ quiet calm /\ no_faults calm /\
  counter view_count (db_of (run (RecordView sample_request) calm sample_db)) 1 = 11 /\
  counter unique_view_count
          (db_of (run (RecordView sample_request) calm sample_db)) 1 = 4.
Proof.
  split; [exact store_ok_sample_db|]. split; [exact quiet_calm|].
  split; [exact no_faults_calm|].
  assert (Hs : req_Slug sample_request <> "") by discriminate.
  destruct (RecordView_counts_views sample_request calm sample_db sample_post
              store_ok_sample_db quiet_calm no_faults_calm Hs eq_refl)
    as (_ & Hv & Hu & _).
  split; [exact Hv | exact Hu].
Defined.

(** C10.  When the post is resolved and the raw counter written, the
    request is answered with the success message ("View recorded")
    whatever becomes of the marker; when the insert-if-absent of the
    marker fails for an authenticated caller, the error is swallowed:
    [uniqueViewCount] and the markers stay as they were, and the
    increment of [viewCount] already made is kept. *)
Theorem RecordView_marker_error_swallowed :
  forall (r : Request) (env : Env) (d : DB) (post : BlogPost),
  store_ok d -> quiet env ->
  req_Slug r <> "" ->
  req_UserID r <> NilObjectID ->
  published_post d (req_Slug r) = Some post ->
  fails env 0%nat = false -> fails env 1%nat = false ->
  let out := run (RecordView r) env d in
  let d' := db_of out in
  let id := post_ID post in
  fst out = json_OK (BodyMessage "View recorded") /\
  StatusCode (fst out) = StatusOK /\
  (fails env 2%nat = true ->
   counter unique_view_count d' id = post_UniqueViewCount post /\
   counter view_count d' id = post_ViewCount post + 1 /\
   (forall p' u', viewed d' p' u' = viewed d p' u')).
Proof.
  intros r env d post Hok Q Hs Hu Hp F0 F1 out d' id.
  destruct (RecordView_outcome r env d post Q Hok Hs Hp F0 F1)
    as (Hresp & C & V & _).
  fold out in Hresp. fold d' in C, V. fold id in C, V.
  assert (Hid : post_by_id d id = Some post)
    by exact (published_post_by_id d _ post Hok Hp).
  assert (R : forall g, counter g d id = read g post).
  { intros g. unfold counter. now rewrite Hid. }
  split; [exact Hresp|]. split; [rewrite Hresp; reflexivity|].
  intros F2. rewrite F2 in C, V. cbn [negb andb] in C, V.
  rewrite andb_false_r in C, V. cbn [andb] in C, V.
  split; [rewrite C, R, Z.eqb_refl; simpl; lia|].
  split; [rewrite C, R, Z.eqb_refl; simpl; lia|].
  intros p' u'. rewrite V. apply orb_false_r.
Qed.

Lemma RecordView_marker_error_swallowed_witness :
  store_ok sample_db /\ quiet (failing_at 2) /\
  fst (run (RecordView sample_request) (failing_at 2) sample_db) =
    json_OK (BodyMessage "View recorded") /\
  counter unique_view_count
          (db_of (run (RecordView sample_request) (failing_at 2) sample_db)) 1 = 3 /\
  counter view_count
          (db_of (run (RecordView sample_request) (failing_at 2) sample_db)) 1 = 11.
Proof.
  split; [exact store_ok_sample_db|]. split; [exact (quiet_failing_at 2)|].
  assert (Hs : req_Slug sample_request <> "") by discriminate.
  assert (Hu : req_UserID sample_request <> NilObjectID) by discriminate.
  destruct (RecordView_marker_error_swallowed sample_request (failing_at 2)
              sample_db sample_post store_ok_sample_db (quiet_failing_at 2)
              Hs Hu eq_refl eq_refl eq_refl)
    as (Hr & _ & H).
  destruct (H eq_refl) as (H1 & H2 & _).
  split; [exact Hr | split; [exact H1 | exact H2]].
Defined.

(** ** Like toggling *)

Lemma liked_has_key (d : DB) (p u : ObjectID) :
  liked d p u = existsb (has_key like_key (p, u)) (PostLikes d).
Proof. reflexivity. Qed.

Lemma liked_after_delete (d : DB) (id u p' u' : ObjectID) :
  store_ok d ->
  liked (with_PostLikes d (snd (coll_DeleteOne (has_key like_key (id, u))
                                               (PostLikes d)))) p' u' =
  if (p' =? id) && (u' =? u) then false else liked d p' u'.
Proof.
  intros (_ & ND & _). rewrite !liked_has_key. simpl.
  destruct ((p' =? id) && (u' =? u)) eqn:E.
  - apply andb_true_iff in E. destruct E as [E1 E2].
    apply Z.eqb_eq in E1. apply Z.eqb_eq in E2. subst.
    now apply DeleteOne_gone.
  - apply DeleteOne_other. intros H. inversion H; subst.
    now rewrite !Z.eqb_refl in E.
Qed.

Lemma store_ok_delete_like (d : DB) (k : Z * Z) :
  store_ok d ->
  store_ok (with_PostLikes d (snd (coll_DeleteOne (has_key like_key k)
                                                  (PostLikes d)))).
Proof.
  intros (N1 & N2 & N3). unfold store_ok; simpl. repeat split; auto.
  now apply DeleteOne_NoDup.
Qed.

Lemma liked_after_insert (d : DB) (doc : PostLike) (p' u' : ObjectID) :
  liked (with_PostLikes d (PostLikes d ++ [doc])) p' u' =
  liked d p' u' || ((p' =? like_PostID doc) && (u' =? like_UserID doc)).
Proof.
  unfold liked; simpl. rewrite existsb_snoc.
  now rewrite (Z.eqb_sym (like_PostID doc)), (Z.eqb_sym (like_UserID doc)).
Qed.

Lemma store_ok_insert_like (d : DB) (doc : PostLike) :
  store_ok d -> liked d (like_PostID doc) (like_UserID doc) = false ->
  store_ok (with_PostLikes d (PostLikes d ++ [doc])).
Proof.
  intros (N1 & N2 & N3) Hl. unfold store_ok; simpl. repeat split; auto.
  apply NoDup_snoc_key; auto.
Qed.

(** One toggle, with every store operation succeeding and the store left
    alone until the final read: [adjusted] is the store right after the
    counter adjustment; [others env k] is what concurrent requests do to it
    before the handler reads the post again. *)
Lemma ToggleLike_outcome (r : Request) (env : Env) (d : DB) (post : BlogPost) :
  store_ok d -> no_faults env ->
  req_UserID r <> NilObjectID -> req_Slug r <> "" ->
  published_post d (req_Slug r) = Some post ->
  let id := post_ID post in
  let u := req_UserID r in
  let was := liked d id u in
  let k := reread_index was in
  (forall i d0, (i < k)%nat -> others env i d0 = d0) ->
  let out := run (ToggleLike r) env d in
  exists adjusted : DB,
    liked adjusted id u = negb was /\
    (forall p' u', liked adjusted p' u' =
                   if (p' =? id) && (u' =? u) then negb was else liked d p' u') /\
    (forall g id', counter g adjusted id' =
                   counter g d id' +
                   (if (id' =? id) && Counter_eqb g like_count
                    then like_delta was else 0)) /\
    published_post adjusted (req_Slug r) =
      Some (inc like_count (like_delta was) post) /\
    store_ok adjusted /\
    PostViews adjusted = PostViews d /\
    db_of out = others env k adjusted /\
    fst out = json_OK (BodyLike (negb was)
                                (counter like_count (others env k adjusted) id)).
Proof.
  intros Hok NF Hu Hs Hp id u was k Q out.
  assert (Hid : post_by_id d id = Some post)
    by exact (published_post_by_id d _ post Hok Hp).
  assert (Hex : post_by_id d id <> None) by congruence.
  subst out. destruct (run (ToggleLike r) env d) as [resp w] eqn:Hrun.
  revert Hrun. unfold ToggleLike.
  destruct (Z.eqb_spec (req_UserID r) NilObjectID) as [E|_]; [contradiction|].
  destruct (String.eqb_spec (req_Slug r) "") as [E|_]; [contradiction|].
  fold u. subst k. unfold reread_index in *.
  destruct was eqn:L; subst was.
  - (* unlike *)
    handler_start.
    store_step Q. rewrite (NF 0%nat), Hp. fold id.
    store_step Q. rewrite (NF 1%nat), L. cbn [Z.gtb Z.compare].
    set (d1 := with_PostLikes d _).
    assert (Hok1 : store_ok d1) by (apply store_ok_delete_like; auto).
    store_step Q. rewrite (NF 2%nat).
    set (d2 := with_Posts d1 _).
    rewrite Posts_FindOne_any. cbn [db issued effects fst snd]. rewrite (NF 3%nat).
    intros Hrun. inversion Hrun; subst resp w; clear Hrun.
    exists d2. unfold db_of; cbn [fst snd db]. cbn [negb like_delta].
    split; [|split; [|split; [|split; [|split; [|split; [|split]]]]]].
    + change (liked d2 id u) with (liked d1 id u). unfold d1.
      rewrite liked_after_delete, !Z.eqb_refl by auto. reflexivity.
    + intros. change (liked d2 p' u') with (liked d1 p' u'). unfold d1.
      now rewrite liked_after_delete by auto.
    + intros. unfold d2. rewrite counter_inc by exact Hex. reflexivity.
    + unfold d2. change (Posts d1) with (Posts d).
      change (published_post (with_Posts d1 ?x) ?s)
        with (published_post (with_Posts d x) s).
      rewrite (published_post_inc d id like_count (-1) _ post) by (apply Hok || auto).
      unfold id. now rewrite Z.eqb_refl.
    + unfold d2. apply store_ok_inc. exact Hok1.
    + reflexivity.
    + reflexivity.
    + reflexivity.
  - (* like *)
    handler_start.
    store_step Q. rewrite (NF 0%nat), Hp. fold id.
    store_step Q. rewrite (NF 1%nat), L. cbn [Z.gtb Z.compare].
    set (d1 := with_PostLikes d _).
    assert (E1 : d1 = d).
    { unfold d1. rewrite DeleteOne_absent by exact L.
      destruct d; reflexivity. }
    rewrite E1. clear d1 E1.
    store_step Q. rewrite (NF 2%nat). cbn [like_PostID like_UserID]. rewrite L.
    set (doc := mkPostLike (NewObjectID env) id u (Now env)).
    set (d2 := with_PostLikes d (PostLikes d ++ [doc])).
    assert (Hok2 : store_ok d2) by (apply store_ok_insert_like; auto).
    store_step Q. rewrite (NF 3%nat).
    set (d3 := with_Posts d2 _).
    rewrite Posts_FindOne_any. cbn [db issued effects fst snd]. rewrite (NF 4%nat).
    intros Hrun. inversion Hrun; subst resp w; clear Hrun.
    exists d3. unfold db_of; cbn [fst snd db]. cbn [negb like_delta].
    split; [|split; [|split; [|split; [|split; [|split; [|split]]]]]].
    + change (liked d3 id u) with (liked d2 id u). unfold d2.
      rewrite liked_after_insert. simpl. now rewrite !Z.eqb_refl, orb_true_r.
    + intros. change (liked d3 p' u') with (liked d2 p' u'). unfold d2.
      rewrite liked_after_insert. simpl.
      destruct ((p' =? id) && (u' =? u)) eqn:E; [apply orb_true_r | apply orb_false_r].
    + intros. unfold d3. change (counter g d id') with (counter g d2 id').
      apply counter_inc. exact Hex.
    + unfold d3.
      change (published_post (with_Posts d2 ?x) ?s)
        with (published_post (with_Posts d x) s).
      rewrite (published_post_inc d id like_count 1 _ post) by (apply Hok || auto).
      unfold id. now rewrite Z.eqb_refl.
    + unfold d3. apply store_ok_inc. exact Hok2.
    + reflexivity.
    + reflexivity.
    + reflexivity.
Qed.

(** C6.  An authenticated like toggle on a published post, every store
    operation succeeding: when a marker of the pair existed it is deleted,
    [likeCount] goes down by one and the answer says [liked=false]; when
    none existed one is inserted, [likeCount] goes up by one and the answer
    says [liked=true].  In both cases the [likeCount] of the answer is the
    one read from the store after the adjustment: it is the counter of the
    store as concurrent requests ([others env k]) left it at the final
    read, not the old value plus or minus one. *)
Theorem ToggleLike_transition :
  forall (r : Request) (env : Env) (d : DB) (post : BlogPost),
  store_ok d -> no_faults env ->
  req_UserID r <> NilObjectID -> req_Slug r <> "" ->
  published_post d (req_Slug r) = Some post ->
  let id := post_ID post in
  let u := req_UserID r in
  let was := liked d id u in
  let k := reread_index was in
  (forall i d0, (i < k)%nat -> others env i d0 = d0) ->
  let out := run (ToggleLike r) env d in
  exists adjusted : DB,
    (was = true ->
     liked adjusted id u = false /\
     counter like_count adjusted id = post_LikeCount post - 1 /\
     reported_liked (fst out) = Some false) /\
    (was = false ->
     liked adjusted id u = true /\
     counter like_count adjusted id = post_LikeCount post + 1 /\
     reported_liked (fst out) = Some true) /\
    (forall p' u', (p', u') <> (id, u) -> liked adjusted p' u' = liked d p' u') /\
    (forall g id', (g, id') <> (like_count, id) ->
                   counter g adjusted id' = counter g d id') /\
    db_of out = others env k adjusted /\
    StatusCode (fst out) = StatusOK /\
    reported_like_count (fst out) = Some (counter like_count (db_of out) id).
Proof.
  intros r env d post Hok NF Hu Hs Hp id u was k Q out.
  destruct (ToggleLike_outcome r env d post Hok NF Hu Hs Hp Q)
    as (adj & L & Lall & C & _ & _ & _ & Hdb & Hresp).
  fold id u was k out in L, Lall, C, Hdb, Hresp.
  assert (Hid : post_by_id d id = Some post)
    by exact (published_post_by_id d _ post Hok Hp).
  assert (R : counter like_count d id = post_LikeCount post).
  { unfold counter. now rewrite Hid. }
  exists adj.
  split; [|split; [|split; [|split; [|split; [|split]]]]].
  - intros W. rewrite W in *. rewrite L, C, R, Hresp, Z.eqb_refl. simpl.
    repeat split; auto; lia.
  - intros W. rewrite W in *. rewrite L, C, R, Hresp, Z.eqb_refl. simpl.
    repeat split; auto.
  - intros p' u' N. rewrite Lall.
    destruct (Z.eqb_spec p' id), (Z.eqb_spec u' u); simpl; auto. congruence.
  - intros g id' N. rewrite C.
    destruct (Z.eqb_spec id' id); simpl; [|lia].
    destruct g; simpl; try lia. congruence.
  - exact Hdb.
  - rewrite Hresp. reflexivity.
  - rewrite Hresp, Hdb. reflexivity.
Qed.

(** User 42 likes the sample post while user 99's like lands before the
    final read: the answer reports 7 likes, not the 5 + 1 that the handler
    could have computed by itself. *)
Lemma ToggleLike_transition_witness :
  store_ok sample_db /\ no_faults (rival_at 4) /\
  fst (run (ToggleLike sample_request) (rival_at 4) sample_db) =
    json_OK (BodyLike true 7) /\
  reported_like_count (fst (run (ToggleLike sample_request) (rival_at 4) sample_db)) =
    Some (counter like_count
            (db_of (run (ToggleLike sample_request) (rival_at 4) sample_db)) 1).
Proof.
  assert (NF : no_faults (rival_at 4)) by (intros i; reflexivity).
  assert (Hu : req_UserID sample_request <> NilObjectID) by discriminate.
  assert (Hs : req_Slug sample_request <> "") by discriminate.
  assert (Q : forall i d0,
             Nat.lt i (reread_index (liked sample_db (post_ID sample_post)
                                           (req_UserID sample_request))) ->
             others (rival_at 4) i d0 = d0).
  { intros i d0 Hi. unfold Nat.lt in Hi. simpl in Hi. unfold rival_at; simpl.
    destruct (Nat.eqb_spec i 4); [lia | reflexivity]. }
  split; [exact store_ok_sample_db|]. split; [exact NF|].
  split; [reflexivity|].
  destruct (ToggleLike_transition sample_request (rival_at 4) sample_db sample_post
              store_ok_sample_db NF Hu Hs eq_refl Q)
    as (adj & _ & _ & _ & _ & _ & _ & H).
  exact H.
Defined.

(** *** Toggling again and again *)

(** One toggle in quiet surroundings, as the induction below uses it. *)
Lemma ToggleLike_quiet_step :
  forall (r : Request) (env : Env) (d : DB) (post : BlogPost),
  store_ok d -> no_faults env -> quiet env ->
  req_UserID r <> NilObjectID -> req_Slug r <> "" ->
  published_post d (req_Slug r) = Some post ->
  let was := liked d (post_ID post) (req_UserID r) in
  let out := run (ToggleLike r) env d in
  store_ok (db_of out) /\
  published_post (db_of out) (req_Slug r) =
    Some (inc like_count (like_delta was) post) /\
  liked (db_of out) (post_ID post) (req_UserID r) = negb was /\
  counter like_count (db_of out) (post_ID post) =
    post_LikeCount post + like_delta was /\
  reported_liked (fst out) = Some (negb was).
Proof.
  intros r env d post Hok NF Q Hu Hs Hp was out.
  destruct (ToggleLike_outcome r env d post Hok NF Hu Hs Hp (fun i d0 _ => Q i d0))
    as (adj & L & _ & C & P & Ok & _ & Hdb & Hresp).
  fold was out in L, C, P, Hdb, Hresp.
  rewrite Q in Hdb, Hresp. rewrite Hdb, Hresp.
  repeat (split; [assumption|]).
  split; [|reflexivity].
  rewrite C, Z.eqb_refl. simpl.
  unfold counter. now rewrite (published_post_by_id d _ post Hok Hp).
Qed.

Lemma like_delta_negb (b : bool) : like_delta (negb b) = - like_delta b.
Proof. destruct b; reflexivity. Qed.

(** The state after [n] toggles, and what they answer. *)
Lemma ToggleLike_serve :
  forall (r : Request) (envs : list Env),
  req_UserID r <> NilObjectID -> req_Slug r <> "" ->
  Forall (fun env => no_faults env /\ quiet env) envs ->
  forall (d : DB) (post : BlogPost),
  store_ok d ->
  published_post d (req_Slug r) = Some post ->
  let was := liked d (post_ID post) (req_UserID r) in
  let n := List.length envs in
  let result := serve ToggleLike (map (fun env => (r, env)) envs) d in
  map reported_liked (fst result) = map Some (alternate (negb was) n) /\
  liked (snd result) (post_ID post) (req_UserID r) =
    (if Nat.even n then was else negb was) /\
  counter like_count (snd result) (post_ID post) =
    post_LikeCount post + (if Nat.even n then 0 else like_delta was).
Proof.
  intros r envs Hu Hs. induction 1 as [|env envs [NF Q] _ IH]; intros d post Hok Hp.
  - simpl. split; [reflexivity|]. split; [reflexivity|].
    unfold counter. rewrite (published_post_by_id d _ post Hok Hp). simpl. lia.
  - destruct (ToggleLike_quiet_step r env d post Hok NF Q Hu Hs Hp)
      as (Ok1 & P1 & L1 & C1 & R1).
    specialize (IH _ _ Ok1 P1). rewrite inc_ID in IH.
    cbv zeta in IH. rewrite L1, negb_involutive in IH.
    destruct IH as (A & B & C).
    cbv zeta. cbn [map serve List.length].
    destruct (serve ToggleLike (map (fun env0 => (r, env0)) envs)
                    (db_of (run (ToggleLike r) env d))) as [rs d'] eqn:S.
    cbn [fst snd] in *. cbn [map alternate].
    rewrite R1, A, B, C, Nat.even_succ, <- Nat.negb_even, like_delta_negb.
    rewrite negb_involutive. cbn [inc post_LikeCount].
    split; [reflexivity|].
    destruct (Nat.even (List.length envs)); simpl.
    + split; [reflexivity|].
      destruct (liked d (post_ID post) (req_UserID r)); simpl; lia.
    + split; [reflexivity|].
      destruct (liked d (post_ID post) (req_UserID r)); simpl; lia.
Qed.

(** C7.  Like toggles of one user on one published post, one after the
    other, each succeeding and nothing else writing in between: the answers
    alternate strictly, starting with the opposite of the state before the
    first toggle; three toggles from the state NotLiked answer true, false,
    true; and after an even number of toggles both [likeCount] and the
    state are what they were. *)
Theorem ToggleLike_alternates :
  forall (r : Request) (envs : list Env) (d : DB) (post : BlogPost),
  store_ok d ->
  req_UserID r <> NilObjectID -> req_Slug r <> "" ->
  published_post d (req_Slug r) = Some post ->
  Forall (fun env => no_faults env /\ quiet env) envs ->
  let id := post_ID post in
  let u := req_UserID r in
  let n := List.length envs in
  let result := serve ToggleLike (map (fun env => (r, env)) envs) d in
  map reported_liked (fst result) = map Some (alternate (negb (liked d id u)) n) /\
  liked (snd result) id u = (if Nat.even n then liked d id u else negb (liked d id u)) /\
  (liked d id u = false -> n = 3%nat ->
   map reported_liked (fst result) = [Some true; Some false; Some true]) /\
  (Nat.even n = true ->
   counter like_count (snd result) id = counter like_count d id) /\
  (Nat.even n = false ->
   counter like_count (snd result) id =
     counter like_count d id + like_delta (liked d id u)).
Proof.
  intros r envs d post Hok Hu Hs Hp HF id u n result.
  destruct (ToggleLike_serve r envs Hu Hs HF d post Hok Hp) as (A & B & C).
  fold id u n result in A, B, C.
  assert (R : counter like_count d id = post_LikeCount post).
  { unfold counter, id. now rewrite (published_post_by_id d _ post Hok Hp). }
  split; [exact A|]. split; [exact B|].
  split; [|split].
  - intros W N. rewrite A, W, N. reflexivity.
  - intros E. rewrite C, E, R. lia.
  - intros E. rewrite C, E, R. reflexivity.
Qed.

(** Three toggles of user 42 on the sample post, which nobody likes yet. *)
Lemma ToggleLike_alternates_witness :
  map reported_liked
      (fst (serve ToggleLike
                  (map (fun env => (sample_request, env)) [calm; calm; calm])
                  sample_db)) =
    [Some true; Some false; Some true] /\
  counter like_count
          (snd (serve ToggleLike
                      (map (fun env => (sample_request, env)) [calm; calm])
                      sample_db)) 1 = 5.
Proof.
  assert (Hu : req_UserID sample_request <> NilObjectID) by discriminate.
  assert (Hs : req_Slug sample_request <> "") by discriminate.
  assert (F : forall l, Forall (fun env => no_faults env /\ quiet env)
                               (repeat calm l)).
  { induction l; constructor; auto.
    split; [exact no_faults_calm | exact quiet_calm]. }
  split.
  - destruct (ToggleLike_alternates sample_request [calm; calm; calm] sample_db
                sample_post store_ok_sample_db Hu Hs eq_refl (F 3%nat))
      as (_ & _ & T & _).
    exact (T eq_refl eq_refl).
  - destruct (ToggleLike_alternates sample_request [calm; calm] sample_db
                sample_post store_ok_sample_db Hu Hs eq_refl (F 2%nat))
      as (_ & _ & _ & E & _).
    exact (E eq_refl).
Defined.

(** *** Comments *)

Lemma characters_nonneg (s : string) : 0 <= characters s.
Proof.
  induction s as [|c s IH]; simpl; [lia|].
  destruct ((128 <=? Z.of_N (N_of_ascii c)) && (Z.of_N (N_of_ascii c) <? 192)); lia.
Qed.

(** A text has at most as many characters as its encoding has bytes. *)
Lemma characters_le_length (s : string) :
  characters s <= Z.of_nat (String.length s).
Proof.
  induction s as [|c s IH]; [simpl; lia|].
  cbn [characters String.length]. rewrite Nat2Z.inj_succ.
  destruct ((128 <=? Z.of_N (N_of_ascii c)) && (Z.of_N (N_of_ascii c) <? 192)); lia.
Qed.

(** What [CreateComment] does once the request has passed the checks on
    the session, the slug and the body. *)
Lemma CreateComment_checked :
  forall (r : Request) (env : Env) (d : DB) (req : CreateCommentRequest),
  quiet env ->
  req_UserID r <> NilObjectID -> req_Slug r <> "" -> req_Body r = Some req ->
  let len := Z.of_nat (String.length (ccr_Content req)) in
  let out := run (CreateComment r) env d in
  if (len <? 1) || (len >? 2000) then
    out = (http_Error "Content must be between 1 and 2000 characters"
                      StatusBadRequest, mkWorld d 0 [])
  else
    match (if fails env 0 then None else published_post d (req_Slug r)) with
    | None => out = (http_Error "Post not found" StatusNotFound, mkWorld d 1 [])
    | Some post =>
        if fails env 1 then
          out = (http_Error "Error creating comment" StatusInternalServerError,
                 mkWorld d 2 [])
        else
          let stored :=
            with_PostComments d (PostComments d ++ [new_comment r env post]) in
          StatusCode (fst out) = StatusCreated /\
          db_of out =
            (if fails env 2 then stored
             else with_Posts stored
                    (snd (coll_UpdateOne (fun p => post_ID p =? post_ID post)
                                         (inc comment_count 1) (Posts stored)))) /\
          filter is_metric (effects_of out) = [MetricInc "IncCommentCreated"]
    end.
Proof.
  intros r env d req Q Hu Hs Hb len out. subst out. unfold CreateComment.
  destruct (Z.eqb_spec (req_UserID r) NilObjectID) as [E|_]; [contradiction|].
  destruct (String.eqb_spec (req_Slug r) "") as [E|_]; [contradiction|].
  rewrite Hb. fold len.
  destruct ((len <? 1) || (len >? 2000)); [reflexivity|].
  handler_start.
  store_step Q.
  destruct (fails env 0); [reflexivity|].
  destruct (published_post d (req_Slug r)) as [post|] eqn:Hp; [|reflexivity].
  cbn [bump db issued effects fst snd].
  store_step Q.
  destruct (fails env 1); [reflexivity|].
  cbn [bump db issued effects fst snd].
  store_step Q.
  unfold enrichCommentsWithAuthor. cbn [List.length Nat.eqb].
  handler_start.
  unfold new_comment, submitted_content. rewrite Hb.
  destruct (fails env 2).
  - store_step Q.
    destruct (fails env 3); cbn [map fst snd]; repeat split.
  - cbn [bump db issued effects fst snd].
    store_step Q.
    destruct (fails env 3); cbn [map fst snd]; repeat split.
Qed.

(** A request without a session, without a slug or without a body that
    decodes is answered before anything else happens. *)
Lemma CreateComment_unchecked :
  forall (r : Request) (env : Env) (d : DB),
  req_UserID r = NilObjectID \/ req_Slug r = "" \/ req_Body r = None ->
  exists resp,
    run (CreateComment r) env d = (resp, mkWorld d 0 []) /\
    client_error resp = true.
Proof.
  intros r env d H. unfold CreateComment.
  destruct (Z.eqb_spec (req_UserID r) NilObjectID) as [E|N].
  { eexists; split; reflexivity. }
  destruct (String.eqb_spec (req_Slug r) "") as [E|N'].
  { eexists; split; reflexivity. }
  destruct (req_Body r) as [req|].
  { destruct H as [H|[H|H]]; congruence. }
  eexists; split; reflexivity.
Qed.

(** The counters after [comment_count] of the post went up by one behind a
    newly stored comment. *)
Lemma counter_after_comment (d : DB) (c : PostComment) (post : BlogPost)
      (g : Counter) (id : ObjectID) :
  post_by_id d (post_ID post) = Some post ->
  let stored := with_PostComments d (PostComments d ++ [c]) in
  counter g
    (with_Posts stored
       (snd (coll_UpdateOne (fun p => post_ID p =? post_ID post)
                            (inc comment_count 1) (Posts stored)))) id =
  counter g d id +
  (if (id =? post_ID post) && Counter_eqb g comment_count then 1 else 0).
Proof.
  intros Hid stored.
  change (counter g d id) with (counter g stored id).
  apply counter_inc. change (post_by_id stored (post_ID post))
    with (post_by_id d (post_ID post)). congruence.
Qed.

(** The checks of [CreateComment] as the code makes them, the length test
    being on [len(req.Content)], the bytes of the content.  With nobody
    else writing to the store, the answer is a client error when the
    request has no session, no slug or no body that decodes, when the
    content is empty or longer than 2000 characters, and when no published
    post has the slug; a request so answered leaves the store as it was
    and emits nothing.  A request with a session, a slug and a body whose
    content has 1 to 2000 bytes, on a published post that the lookup
    finds, is not a client error: the comment is inserted first (a failing
    insert gives 500 and leaves the store alone) and [comment_count] of
    the post is then raised by one, no other counter changing. *)
Lemma CreateComment_validation :
  forall (r : Request) (env : Env) (d : DB),
  store_ok d -> quiet env ->
  let out := run (CreateComment r) env d in
  let content := submitted_content r in
  (req_UserID r = NilObjectID \/ req_Slug r = "" \/ req_Body r = None \/
   content = "" \/ characters content > 2000 \/
   published_post d (req_Slug r) = None ->
   client_error (fst out) = true) /\
  (client_error (fst out) = true -> db_of out = d /\ effects_of out = []) /\
  (forall post : BlogPost,
     req_UserID r <> NilObjectID -> req_Slug r <> "" -> req_Body r <> None ->
     1 <= Z.of_nat (String.length content) <= 2000 ->
     published_post d (req_Slug r) = Some post ->
     fails env 0 = false ->
     client_error (fst out) = false /\
     (fails env 1 = true ->
      StatusCode (fst out) = StatusInternalServerError /\ db_of out = d) /\
     (fails env 1 = false ->
      StatusCode (fst out) = StatusCreated /\
      PostComments (db_of out) = PostComments d ++ [new_comment r env post] /\
      (fails env 2 = false ->
       forall g id,
         counter g (db_of out) id =
         counter g d id +
         (if (id =? post_ID post) && Counter_eqb g comment_count then 1 else 0)))).
Proof.
  intros r env d Hok Q out content.
  destruct (Z.eq_dec (req_UserID r) NilObjectID) as [Hu|Hu];
    [|destruct (string_dec (req_Slug r) "") as [Hs|Hs];
      [|destruct (req_Body r) as [req|] eqn:Hb]].
  1, 2, 4:
    destruct (CreateComment_unchecked r env d) as (resp & E & CE);
      [solve [auto | rewrite Hb; auto] |];
    subst out; rewrite E; cbn [fst];
    (split; [intros _; exact CE|]);
    (split; [intros _; split; reflexivity|]);
    intros post Hu' Hs' Hb'; congruence.
  pose proof (CreateComment_checked r env d req Q Hu Hs Hb) as H.
  cbv zeta in H. fold out in H.
  assert (Hc : content = ccr_Content req).
  { subst content. unfold submitted_content. now rewrite Hb. }
  assert (Hnew : forall post, new_comment r env post =
                   mkPostComment (NewObjectID env) (post_ID post) (req_UserID r)
                                 (ccr_Content req) (Now env) (Now env)).
  { intros post. unfold new_comment, submitted_content. now rewrite Hb. }
  rewrite Hc. clear Hc content.
  pose proof (characters_le_length (ccr_Content req)) as Hle.
  set (len := Z.of_nat (String.length (ccr_Content req))) in *.
  destruct ((len <? 1) || (len >? 2000)) eqn:Hlen.
  { (* outside 1 .. 2000 bytes *)
    rewrite H. cbn [fst].
    split; [intros _; reflexivity|].
    split; [intros _; split; reflexivity|].
    intros post _ _ _ Hr. apply orb_true_iff in Hlen. lia. }
  apply orb_false_iff in Hlen. destruct Hlen as [L1 L2].
  assert (Hne : ccr_Content req <> "").
  { intros E. subst len. rewrite E in L1. simpl in L1. lia. }
  destruct (fails env 0) eqn:F0.
  { (* the lookup fails *)
    rewrite H. cbn [fst].
    split; [intros _; reflexivity|].
    split; [intros _; split; reflexivity|].
    intros; discriminate. }
  destruct (published_post d (req_Slug r)) as [post|] eqn:Hp.
  2:{ rewrite H. cbn [fst].
      split; [intros _; reflexivity|].
      split; [intros _; split; reflexivity|].
      intros; discriminate. }
  assert (Hid : post_by_id d (post_ID post) = Some post)
    by exact (published_post_by_id d _ post Hok Hp).
  destruct (fails env 1) eqn:F1.
  { rewrite H. cbn [fst].
    split; [intros [?|[?|[?|[?|[?|?]]]]]; try congruence; lia|].
    split; [discriminate|].
    intros post' _ _ _ _ E _. split; [reflexivity|].
    split; [intros _; split; reflexivity | discriminate]. }
  destruct H as (St & Hdb & _).
  assert (CE : client_error (fst out) = false).
  { unfold client_error. rewrite St. reflexivity. }
  split; [intros [?|[?|[?|[?|[?|?]]]]]; try congruence; lia|].
  split; [congruence|].
  intros post' _ _ _ _ E _. injection E as <-.
  split; [exact CE|]. split; [discriminate|]. intros _.
  split; [exact St|].
  split.
  - rewrite Hdb, Hnew. destruct (fails env 2); reflexivity.
  - intros F2 g id. rewrite Hdb, F2. apply counter_after_comment. exact Hid.
Qed.

(** User 42 comments on the sample post: 201, and [comment_count] goes
    from 2 to 3. *)
Lemma CreateComment_validation_witness :
  store_ok sample_db /\ quiet calm /\
  StatusCode (fst (run (CreateComment sample_comment) calm sample_db)) =
    StatusCreated /\
  counter comment_count
          (db_of (run (CreateComment sample_comment) calm sample_db)) 1 = 3.
Proof.
  split; [exact store_ok_sample_db|]. split; [exact quiet_calm|].
  destruct (CreateComment_validation sample_comment calm sample_db
              store_ok_sample_db quiet_calm) as (_ & _ & A).
  assert (Hu : req_UserID sample_comment <> NilObjectID) by discriminate.
  assert (Hs : req_Slug sample_comment <> "") by discriminate.
  assert (Hb : req_Body sample_comment <> None) by discriminate.
  assert (Hl : 1 <= Z.of_nat (String.length (submitted_content sample_comment))
               <= 2000) by (simpl; lia).
  destruct (A sample_post Hu Hs Hb Hl eq_refl eq_refl) as (_ & _ & B).
  destruct (B eq_refl) as (St & _ & C).
  split; [exact St|].
  exact (C eq_refl comment_count 1).
Defined.

(** C8.  User 42 comments on the published sample post with 1001 letters
    e-acute: 1001 characters, which the claim and the handler's own
    message allow, none of the claim's two reasons for rejecting holding.
    The handler counts the 2002 bytes of the content and answers 400,
    "Content must be between 1 and 2000 characters", writing nothing. *)
Theorem CreateComment_counts_bytes :
  let out := run (CreateComment accented_comment) calm sample_db in
  req_UserID accented_comment <> NilObjectID /\
  published_post sample_db (req_Slug accented_comment) = Some sample_post /\
  characters (submitted_content accented_comment) = 1001 /\
  Z.of_nat (String.length (submitted_content accented_comment)) = 2002 /\
  ~ spec_comment_rejected accented_comment sample_db /\
  fst out = http_Error "Content must be between 1 and 2000 characters"
                       StatusBadRequest /\
  client_error (fst out) = true /\
  db_of out = sample_db /\ effects_of out = [].
Proof.
  assert (Hc : characters (submitted_content accented_comment) = 1001)
    by (vm_compute; reflexivity).
  cbv zeta.
  split; [discriminate|]. split; [reflexivity|]. split; [exact Hc|].
  split; [vm_compute; reflexivity|].
  split.
  { unfold spec_comment_rejected. rewrite Hc.
    intros [H|[H|H]]; [lia | lia | discriminate]. }
  split; [vm_compute; reflexivity|].
  split; [vm_compute; reflexivity|].
  split; vm_compute; reflexivity.
Qed.

(** *** Uploads *)

(** The sample upload of a post image succeeds, writes its log event, and
    increments no counter: the promise of the specification fails on this
    path. *)
Lemma UploadPostImage_no_metric :
  fst sample_UploadPostImage = json_OK (BodyURL "/api/v1/blog/images/" 100) /\
  existsb is_metric (effects_of sample_UploadPostImage) = false /\
  ~ spec_upload_effects sample_UploadPostImage.
Proof.
  split; [reflexivity|]. split; [reflexivity|].
  unfold spec_upload_effects. simpl. intros [_ H]. discriminate.
Qed.

Section UploadEffects.
Variable Exif : Type.
Variable ExifTag : Type.
Variable exif_Decode : string -> option Exif.
Variable exif_Get_Orientation : Exif -> option ExifTag.
Variable tag_Int : ExifTag -> Z -> option Z.
Variable scaled_pixels :
  Interpolator -> RGBAImage -> Rectangle -> Image -> Rectangle -> DrawOp ->
  list RGBA8.
Variable image_Decode : string -> option Image.
Variable jpeg_Encode : Image -> Z -> option string.
Variable base64_EncodeToString : string -> string.
Variable http_DetectContentType : string -> string.

Let avatar :=
  UploadAvatar Exif ExifTag exif_Decode exif_Get_Orientation tag_Int
               scaled_pixels image_Decode jpeg_Encode base64_EncodeToString.
Let post_image :=
  UploadPostImage scaled_pixels image_Decode jpeg_Encode base64_EncodeToString
                  http_DetectContentType.

(** The avatar path: a metric and then a log event with status 200,
    nothing with any other status. *)
Lemma UploadAvatar_effects (r : UploadRequest) (env : Env) (d : DB) :
  let out := run (avatar r) env d in
  map is_metric (effects_of out) =
    if StatusCode (fst out) =? StatusOK then [true; false] else [].
Proof.
  unfold avatar, UploadAvatar.
  destruct (up_UserID r =? NilObjectID); [reflexivity|].
  destruct (ParseMultipartForm r) as [form|]; [|reflexivity].
  destruct (FormFile form "avatar") as [file|]; [|reflexivity].
  destruct (negb _ && negb _); [reflexivity|].
  destruct (part_Data file) as [imgData|]; [|reflexivity].
  destruct (image_Decode imgData) as [img|]; [|reflexivity].
  destruct (jpeg_Encode _ 80) as [buf|]; [|reflexivity].
  unfold Profiles_UpdateOne_avatar, Profiles_FindOne, store_op.
  handler_start.
  destruct (fails env 0); [reflexivity|].
  destruct (coll_UpdateOne _ _ _) as [n ps].
  destruct (n =? 0); [reflexivity|].
  cbn [db issued effects fst snd].
  destruct (fails env 1); reflexivity.
Qed.

(** The post image path: a log event with status 200, nothing with any
    other status; never a metric. *)
Lemma UploadPostImage_effects (r : UploadRequest) (env : Env) (d : DB) :
  let out := run (post_image r) env d in
  map is_metric (effects_of out) =
    if StatusCode (fst out) =? StatusOK then [false] else [].
Proof.
  unfold post_image, UploadPostImage.
  destruct (up_UserID r =? NilObjectID); [reflexivity|].
  destruct (ParseMultipartForm r) as [form|]; [|reflexivity].
  destruct (FormFile form "image") as [file|]; [|reflexivity].
  destruct (part_Data file) as [imgData|]; [|reflexivity].
  destruct (negb _ && negb _ && negb _); [reflexivity|].
  destruct (image_Decode imgData) as [img|]; [|reflexivity].
  destruct (jpeg_Encode _ 65) as [buf|]; [|reflexivity].
  unfold Images_InsertOne, store_op.
  handler_start.
  destruct (fails env 0); reflexivity.
Qed.

(** C9, amended.  A successful avatar upload emits one counter increment
    and one log event, a successful post image upload emits one log
    event and no counter increment, and on both paths an upload that
    fails, whatever the reason, emits nothing. *)
Theorem upload_side_effects (r : UploadRequest) (env : Env) (d : DB) :
  map is_metric (effects_of (run (avatar r) env d)) =
    (if StatusCode (fst (run (avatar r) env d)) =? StatusOK
     then [true; false] else []) /\
  map is_metric (effects_of (run (post_image r) env d)) =
    (if StatusCode (fst (run (post_image r) env d)) =? StatusOK
     then [false] else []).
Proof.
  split; [apply UploadAvatar_effects | apply UploadPostImage_effects].
Qed.
End UploadEffects.

(* ================================================================= *)
(** ** Doubles that hold integers *)

Lemma digits2_pos_bounds (p : positive) :
  2 ^ (Zpos (digits2_pos p) - 1) <= Zpos p < 2 ^ Zpos (digits2_pos p).
Proof.
  induction p as [p IH|p IH|]; cbn [digits2_pos]; rewrite ?Pos2Z.inj_succ.
  - replace (Z.succ (Z.pos (digits2_pos p)) - 1)
      with (Z.succ (Z.pos (digits2_pos p) - 1)) by lia.
    rewrite !Z.pow_succ_r by lia. lia.
  - replace (Z.succ (Z.pos (digits2_pos p)) - 1)
      with (Z.succ (Z.pos (digits2_pos p) - 1)) by lia.
    rewrite !Z.pow_succ_r by lia. lia.
  - simpl. lia.
Qed.

Lemma Zdigits2_unique (m d : Z) :
  2 ^ (d - 1) <= m < 2 ^ d -> 0 < d -> Zdigits2 m = d.
Proof.
  intros [L U] Hd.
  assert (0 < m) by (pose proof (Z.pow_pos_nonneg 2 (d - 1)); lia).
  destruct m as [|p|p]; try lia. cbn [Zdigits2].
  pose proof (digits2_pos_bounds p) as [L' U'].
  set (D := Z.pos (digits2_pos p)) in *.
  destruct (Z.lt_trichotomy D d) as [C|[C|C]]; [|exact C|].
  - assert (2 ^ D <= 2 ^ (d - 1)) by (apply Z.pow_le_mono_r; lia). lia.
  - assert (2 ^ d <= 2 ^ (D - 1)) by (apply Z.pow_le_mono_r; lia). lia.
Qed.

Lemma Zdigits2_bounds (m : Z) :
  0 < m -> 2 ^ (Zdigits2 m - 1) <= m < 2 ^ Zdigits2 m /\ 0 < Zdigits2 m.
Proof.
  destruct m as [|p|p]; try lia. intros _. cbn [Zdigits2].
  split; [apply digits2_pos_bounds | lia].
Qed.

(** Rounding a mantissa of 53 bits that is exact leaves it alone. *)
Lemma binary_round_aux_exact (m e : Z) :
  2 ^ 52 <= m < 2 ^ 53 -> -1074 <= e <= 971 ->
  binary_round_aux prec64 emax64 false m e loc_Exact = finite64 m e.
Proof.
  intros Hm He.
  assert (D : Zdigits2 m = 53) by (apply Zdigits2_unique; simpl; lia).
  unfold binary_round_aux, shr_fexp. rewrite D.
  unfold fexp, emin, prec64, emax64.
  replace (Z.max (53 + e - 53) (3 - 1024 - 53) - e) with 0 by lia.
  cbn [shr shr_record_of_loc shr_m loc_of_shr_record round_nearest_even].
  rewrite D.
  replace (Z.max (53 + e - 53) (3 - 1024 - 53) - e) with 0 by lia.
  cbn [shr shr_record_of_loc shr_m].
  destruct m as [|p|p]; try lia.
  replace (e <=? 1024 - 53) with true by (symmetry; apply Z.leb_le; lia).
  reflexivity.
Qed.

Lemma scaled_bounds (n d : Z) :
  2 ^ (d - 1) <= n < 2 ^ d -> 0 < d <= 53 ->
  2 ^ 52 <= n * 2 ^ (53 - d) < 2 ^ 53.
Proof.
  intros [L U] Hd.
  assert (P : 0 < 2 ^ (53 - d)) by (apply Z.pow_pos_nonneg; lia).
  assert (E1 : 2 ^ 52 = 2 ^ (d - 1) * 2 ^ (53 - d)).
  { rewrite <- Z.pow_add_r by lia. f_equal. lia. }
  assert (E2 : 2 ^ 53 = 2 ^ d * 2 ^ (53 - d)).
  { rewrite <- Z.pow_add_r by lia. f_equal. lia. }
  rewrite E1, E2. split; nia.
Qed.

Lemma digits_below (n : Z) :
  0 < n < 2 ^ 53 -> 0 < Zdigits2 n <= 53.
Proof.
  intros [Hn U]. destruct (Zdigits2_bounds n Hn) as ([L _] & Hd).
  split; [exact Hd|].
  destruct (Z_le_gt_dec (Zdigits2 n) 53) as [C|C]; [exact C|].
  assert (2 ^ 53 <= 2 ^ (Zdigits2 n - 1)) by (apply Z.pow_le_mono_r; lia). lia.
Qed.

Lemma float64_of_int_normal (n : Z) :
  0 < n < 2 ^ 53 -> float64_of_int n = normal_of n.
Proof.
  intros Hn. pose proof (digits_below n Hn) as Hd.
  destruct (Zdigits2_bounds n (proj1 Hn)) as (B & _).
  pose proof (scaled_bounds n _ B Hd) as S.
  unfold normal_of. destruct n as [|p|p]; try lia.
  cbn [Zdigits2] in *. set (d := Z.pos (digits2_pos p)) in *.
  unfold float64_of_int, binary_normalize, binary_round, shl_align.
  unfold fexp, emin, prec64, emax64. fold d.
  assert (F : Z.max (d + 0 - 53) (3 - 1024 - 53) = d - 53) by lia.
  rewrite F. clear F.
  assert (F : d - 53 - 0 = d - 53) by lia.
  rewrite F. clear F.
  destruct (d - 53) as [|k|k] eqn:E; try lia.
  - replace (53 - d) with 0 in * by lia. rewrite Z.mul_1_r in *.
    apply (binary_round_aux_exact (Z.pos p) 0); [exact S | lia].
  - assert (K : Z.pos (Pos.iter xO p k) = Z.pos p * 2 ^ (53 - d)).
    { change (Pos.iter xO p k) with (shift_pos k p).
      rewrite shift_pos_correct.
      change (Zpower_pos 2 k) with (2 ^ Z.pos k).
      replace (53 - d) with (Z.pos k) by lia. lia. }
    rewrite K, <- E. apply binary_round_aux_exact; [exact S | lia].
Qed.

(** Shifting out [k] zero bits is exact. *)
Lemma iter_pos_shr_exact (k : positive) :
  forall m : Z, 0 < m ->
  iter_pos shr_1 k (Build_shr_record (m * 2 ^ Z.pos k) false false) =
  Build_shr_record m false false.
Proof.
  assert (One : forall m, 0 < m ->
            shr_1 (Build_shr_record (m * 2) false false) =
            Build_shr_record m false false).
  { intros m Hm. destruct m as [|p|p]; try lia.
    rewrite Z.mul_comm. reflexivity. }
  induction k as [k IH|k IH|]; intros m Hm; cbn [iter_pos].
  - change (Z.pos k~1) with (2 * Z.pos k + 1).
    replace (m * 2 ^ (2 * Z.pos k + 1))
      with ((m * 2 ^ Z.pos k * 2 ^ Z.pos k) * 2).
    2:{ rewrite Z.pow_add_r, Z.pow_1_r by lia.
        replace (2 * Z.pos k) with (Z.pos k + Z.pos k) by lia.
        rewrite Z.pow_add_r by lia. ring. }
    assert (0 < 2 ^ Z.pos k) by (apply Z.pow_pos_nonneg; lia).
    assert (0 < m * 2 ^ Z.pos k) by (apply Z.mul_pos_pos; assumption).
    rewrite One by (apply Z.mul_pos_pos; assumption).
    rewrite (IH (m * 2 ^ Z.pos k)) by assumption. apply IH. exact Hm.
  - change (Z.pos k~0) with (2 * Z.pos k).
    replace (m * 2 ^ (2 * Z.pos k)) with (m * 2 ^ Z.pos k * 2 ^ Z.pos k).
    2:{ replace (2 * Z.pos k) with (Z.pos k + Z.pos k) by lia.
        rewrite Z.pow_add_r by lia. ring. }
    assert (0 < 2 ^ Z.pos k) by (apply Z.pow_pos_nonneg; lia).
    rewrite (IH (m * 2 ^ Z.pos k)) by (apply Z.mul_pos_pos; assumption).
    apply IH. exact Hm.
  - rewrite Z.pow_1_r. apply One. exact Hm.
Qed.

(** Rounding a mantissa that is a 53-bit number followed by [k] zero bits
    drops the zeros. *)
Lemma binary_round_aux_shift (m k e : Z) :
  2 ^ 52 <= m < 2 ^ 53 -> 0 <= k -> -1074 <= e + k <= 971 ->
  binary_round_aux prec64 emax64 false (m * 2 ^ k) e loc_Exact =
  finite64 m (e + k).
Proof.
  intros Hm Hk He.
  destruct (Z.eq_dec k 0) as [->|Nk].
  { rewrite Z.mul_1_r, Z.add_0_r. apply binary_round_aux_exact; auto.
    now rewrite Z.add_0_r in He. }
  rewrite <- (binary_round_aux_exact m (e + k) Hm He).
  assert (D : Zdigits2 (m * 2 ^ k) = 53 + k).
  { apply Zdigits2_unique; [|lia].
    replace (53 + k - 1) with (52 + k) by lia.
    rewrite !Z.pow_add_r by lia.
    assert (0 < 2 ^ k) by (apply Z.pow_pos_nonneg; lia). nia. }
  assert (D' : Zdigits2 m = 53) by (apply Zdigits2_unique; simpl; lia).
  assert (S : shr_fexp prec64 emax64 (m * 2 ^ k) e loc_Exact =
              shr_fexp prec64 emax64 m (e + k) loc_Exact).
  { unfold shr_fexp. rewrite D, D'. unfold fexp, emin, prec64, emax64.
    assert (F : Z.max (53 + k + e - 53) (3 - 1024 - 53) - e = k) by lia.
    rewrite F. clear F.
    assert (F : Z.max (53 + (e + k) - 53) (3 - 1024 - 53) - (e + k) = 0) by lia.
    rewrite F. clear F.
    destruct k as [|kp|kp]; try lia.
    cbn [shr shr_record_of_loc]. rewrite iter_pos_shr_exact by lia.
    reflexivity. }
  unfold binary_round_aux. rewrite S. reflexivity.
Qed.

Lemma float64_mul_normal (h w : Z) :
  0 < h -> 0 < w -> h * w < 2 ^ 53 ->
  float64_mul (normal_of h) (normal_of w) = normal_of (h * w).
Proof.
  intros Hh Hw Hp.
  assert (Hh' : 0 < h < 2 ^ 53) by nia.
  assert (Hw' : 0 < w < 2 ^ 53) by nia.
  assert (Hp' : 0 < h * w < 2 ^ 53) by nia.
  destruct (Zdigits2_bounds h Hh) as (Bh & _).
  destruct (Zdigits2_bounds w Hw) as (Bw & _).
  destruct (Zdigits2_bounds (h * w) (proj1 Hp')) as (Bp & _).
  pose proof (digits_below h Hh') as Dh.
  pose proof (digits_below w Hw') as Dw.
  pose proof (digits_below _ Hp') as Dp.
  pose proof (scaled_bounds _ _ Bh Dh) as Sh.
  pose proof (scaled_bounds _ _ Bw Dw) as Sw.
  pose proof (scaled_bounds _ _ Bp Dp) as Sp.
  set (dh := Zdigits2 h) in *. set (dw := Zdigits2 w) in *.
  set (D := Zdigits2 (h * w)) in *.
  assert (Low : dh + dw - 2 < D).
  { apply (Z.pow_lt_mono_r_iff 2); [lia | lia |].
    replace (dh + dw - 2) with ((dh - 1) + (dw - 1)) by lia.
    rewrite Z.pow_add_r by lia.
    assert (0 < 2 ^ (dh - 1)) by (apply Z.pow_pos_nonneg; lia).
    assert (0 < 2 ^ (dw - 1)) by (apply Z.pow_pos_nonneg; lia).
    nia. }
  unfold normal_of. fold dh dw D. unfold finite64 at 1 2.
  unfold float64_mul, SFmul. cbn [xorb].
  rewrite Pos2Z.inj_mul, !Z2Pos.id by lia.
  set (k := 53 + D - dh - dw).
  replace (h * 2 ^ (53 - dh) * (w * 2 ^ (53 - dw)))
    with ((h * w * 2 ^ (53 - D)) * 2 ^ k).
  2:{ rewrite <- !Z.mul_assoc. rewrite <- Z.pow_add_r by lia.
      replace (53 - D + k) with ((53 - dh) + (53 - dw)) by lia.
      rewrite Z.pow_add_r by lia. ring. }
  replace (D - 53) with ((dh - 53 + (dw - 53)) + k) by lia.
  apply binary_round_aux_shift; [exact Sp | lia | lia].
Qed.

Lemma round_nearest_even_bounds (m : Z) (l : location) :
  m <= round_nearest_even m l <= m + 1.
Proof.
  destruct l as [|[| |]]; cbn [round_nearest_even];
    try destruct (Z.even m); lia.
Qed.

Lemma shr_m_shr_1 (m : Z) (r s : bool) :
  0 < m -> shr_m (shr_1 (Build_shr_record m r s)) = m / 2.
Proof.
  intros Hm. destruct m as [|[p|p|]|]; try lia; cbn [shr_1 shr_m].
  - rewrite Pos2Z.inj_xI. apply Z.div_unique with 1; lia.
  - rewrite Pos2Z.inj_xO. apply Z.div_unique with 0; lia.
  - reflexivity.
Qed.

(** The second half of [binary_round_aux]: a rounded mantissa that has
    reached [2 ^ 53] is renormalised. *)
Lemma renormalise (m e : Z) :
  2 ^ 52 <= m <= 2 ^ 53 -> -1074 <= e <= 900 ->
  exists M j,
    (let '(mrs, e') := shr_fexp prec64 emax64 m e loc_Exact in
     match shr_m mrs with
     | Z0 => S754_zero false
     | Zpos p => if e' <=? emax64 - prec64 then S754_finite false p e'
                 else S754_infinity false
     | Zneg _ => S754_nan
     end) = finite64 M (e + j) /\
    0 <= j <= 1 /\ 2 ^ 52 <= M < 2 ^ 53 /\ m = M * 2 ^ j.
Proof.
  intros Hm He.
  destruct (Z.eq_dec m (2 ^ 53)) as [->|N].
  - exists (2 ^ 52), 1.
    split; [|split; [lia|split; [simpl; lia | reflexivity]]].
    assert (D : Zdigits2 (2 ^ 53) = 54) by reflexivity.
    unfold shr_fexp. rewrite D. unfold fexp, emin, prec64, emax64.
    assert (F : Z.max (54 + e - 53) (3 - 1024 - 53) - e = 1) by lia.
    rewrite F. cbn [shr iter_pos shr_record_of_loc].
    rewrite shr_m_shr_1 by (simpl; lia).
    change (2 ^ 53 / 2) with (Z.pos (Z.to_pos (2 ^ 52))). cbv iota.
    replace (e + 1 <=? 1024 - 53) with true by (symmetry; apply Z.leb_le; lia).
    reflexivity.
  - exists m, 0. rewrite Z.add_0_r, Z.mul_1_r.
    split; [|split; [lia|split; [lia | reflexivity]]].
    assert (D : Zdigits2 m = 53) by (apply Zdigits2_unique; simpl; lia).
    unfold shr_fexp. rewrite D. unfold fexp, emin, prec64, emax64.
    assert (F : Z.max (53 + e - 53) (3 - 1024 - 53) - e = 0) by lia.
    rewrite F. cbn [shr shr_record_of_loc shr_m].
    destruct m as [|p|p]; try lia.
    replace (e <=? 1024 - 53) with true by (symmetry; apply Z.leb_le; lia).
    reflexivity.
Qed.

Lemma shr_record_of_loc_m (m : Z) (l : location) :
  exists r s, shr_record_of_loc m l = Build_shr_record m r s.
Proof. destruct l as [|[| |]]; do 2 eexists; reflexivity. Qed.

(** Rounding a quotient of 53 or 54 bits: the result is a double whose
    mantissa is the quotient without its last [j] bits, or one more. *)
Lemma binary_round_aux_near (q e : Z) (l : location) :
  2 ^ 52 <= q < 2 ^ 54 -> -1074 <= e <= 800 ->
  exists M j,
    binary_round_aux prec64 emax64 false q e l = finite64 M (e + j) /\
    0 <= j <= 2 /\ 2 ^ 52 <= M < 2 ^ 53 /\
    q / 2 ^ j <= M <= q / 2 ^ j + 1.
Proof.
  intros Hq He.
  change (2 ^ 52) with 4503599627370496 in *.
  change (2 ^ 53) with 9007199254740992 in *.
  change (2 ^ 54) with 18014398509481984 in *.
  destruct (shr_record_of_loc_m q l) as (r & s & R).
  destruct (Z_lt_ge_dec q 9007199254740992) as [C|C].
  - assert (D : Zdigits2 q = 53) by (apply Zdigits2_unique; simpl; lia).
    assert (S1 : shr_fexp prec64 emax64 q e l = (Build_shr_record q r s, e)).
    { unfold shr_fexp. rewrite D, R. unfold fexp, emin, prec64, emax64.
      assert (F : Z.max (53 + e - 53) (3 - 1024 - 53) - e = 0) by lia.
      rewrite F. reflexivity. }
    set (M0 := round_nearest_even q (loc_of_shr_record (Build_shr_record q r s))).
    pose proof (round_nearest_even_bounds q
                  (loc_of_shr_record (Build_shr_record q r s))) as B.
    fold M0 in B.
    destruct (renormalise M0 e) as (M & j & E & Hj & HM & Hv);
      [simpl; lia | lia |].
    exists M, j. split.
    { unfold binary_round_aux. rewrite S1. exact E. }
    split; [lia|]. split; [exact HM|].
    assert (J : j = 0 \/ j = 1) by lia.
    destruct J as [-> | ->].
    + rewrite Z.mul_1_r in Hv. change (2 ^ 0) with 1. rewrite Z.div_1_r. lia.
    + change (2 ^ 1) with 2 in *.
      pose proof (Z.div_mod q 2). pose proof (Z.mod_pos_bound q 2). lia.
  - assert (D : Zdigits2 q = 54) by (apply Zdigits2_unique; simpl; lia).
    assert (S1 : shr_fexp prec64 emax64 q e l =
                 (shr_1 (Build_shr_record q r s), e + 1)).
    { unfold shr_fexp. rewrite D, R. unfold fexp, emin, prec64, emax64.
      assert (F : Z.max (54 + e - 53) (3 - 1024 - 53) - e = 1) by lia.
      rewrite F. reflexivity. }
    set (mrs := shr_1 (Build_shr_record q r s)) in *.
    assert (Hm : shr_m mrs = q / 2) by (apply shr_m_shr_1; lia).
    set (M0 := round_nearest_even (shr_m mrs) (loc_of_shr_record mrs)).
    pose proof (round_nearest_even_bounds (shr_m mrs) (loc_of_shr_record mrs)) as B.
    fold M0 in B. rewrite Hm in B.
    pose proof (Z.div_mod q 2) as Q2. pose proof (Z.mod_pos_bound q 2) as R2.
    destruct (renormalise M0 (e + 1)) as (M & j & E & Hj & HM & Hv);
      [simpl; lia | lia |].
    exists M, (j + 1). split.
    { unfold binary_round_aux. rewrite S1.
      replace (e + (j + 1)) with (e + 1 + j) by lia. exact E. }
    split; [lia|]. split; [exact HM|].
    assert (J : j = 0 \/ j = 1) by lia.
    destruct J as [-> | ->].
    + rewrite Z.mul_1_r in Hv. change (2 ^ (0 + 1)) with 2. lia.
    + change (2 ^ 1) with 2 in *. change (2 ^ (1 + 1)) with 4.
      pose proof (Z.div_mod q 4). pose proof (Z.mod_pos_bound q 4). lia.
Qed.

(** The arithmetic behind the division: a quotient that was scaled by
    [2 ^ k], cut to an integer of at least 53 bits and possibly rounded up
    by one still has the integer part of the exact quotient. *)
Lemma scaled_quotient_floor (a b k M : Z) :
  0 < b -> 0 <= a < 2 ^ 51 -> 0 <= k ->
  a * 2 ^ k / b <= M <= a * 2 ^ k / b + 1 -> 2 ^ 52 <= M ->
  M / 2 ^ k = a / b.
Proof.
  intros Hb Ha Hk HM Big.
  change (2 ^ 51) with 2251799813685248 in *.
  change (2 ^ 52) with 4503599627370496 in *.
  set (P := 2 ^ k) in *.
  assert (HP : 0 < P) by (apply Z.pow_pos_nonneg; lia).
  pose proof (Z.div_mod a b ltac:(lia)) as Ea.
  pose proof (Z.mod_pos_bound a b Hb) as Ef.
  set (n := a / b) in *. set (f := a mod b) in *.
  assert (Hn : 0 <= n) by (apply Z.div_pos; lia).
  assert (Small : b < P).
  { destruct (Z_lt_ge_dec b P) as [C|C]; [exact C|].
    assert (a * P / b <= a) by (apply Z.div_le_upper_bound; nia). lia. }
  assert (EF : a * P / b = n * P + f * P / b).
  { rewrite <- Z.div_add_l by lia. f_equal. rewrite Ea at 1. ring. }
  set (G := f * P / b) in *.
  assert (G0 : 0 <= G) by (apply Z.div_pos; nia).
  assert (G1 : G < P - 1).
  { destruct (Z_lt_ge_dec G (P - 1)) as [C|C]; [exact C|].
    pose proof (Z.mul_div_le (f * P) b Hb) as L. fold G in L. nia. }
  symmetry. apply Z.div_unique with (M - n * P); [left; lia | ring].
Qed.

Lemma SFdiv_core_normal (mA ea mB eb : Z) :
  2 ^ 52 <= mA < 2 ^ 53 -> 2 ^ 52 <= mB < 2 ^ 53 ->
  -60 <= ea <= 0 -> -60 <= eb <= 0 ->
  exists l,
    SFdiv_core_binary prec64 emax64 mA ea mB eb =
    (mA * 2 ^ 53 / mB, ea - eb - 53, l).
Proof.
  intros HmA HmB Ha Hb.
  assert (DmA : Zdigits2 mA = 53) by (apply Zdigits2_unique; simpl; lia).
  assert (DmB : Zdigits2 mB = 53) by (apply Zdigits2_unique; simpl; lia).
  unfold SFdiv_core_binary. rewrite DmA, DmB.
  unfold fexp, emin, prec64, emax64.
  assert (F : Z.min (Z.max (53 + ea - (53 + eb) - 53) (3 - 1024 - 53)) (ea - eb) =
              ea - eb - 53) by lia.
  rewrite F. clear F.
  assert (F : ea - eb - (ea - eb - 53) = 53) by lia.
  rewrite F. clear F. cbv iota. rewrite Z.shiftl_mul_pow2 by lia.
  unfold Z.div. destruct (Z.div_eucl (mA * 2 ^ 53) mB) as [q r].
  eexists. reflexivity.
Qed.

Lemma int_of_float64_finite (M e : Z) :
  0 < M -> e < 0 -> int_of_float64 (finite64 M e) = M / 2 ^ (- e).
Proof.
  intros HM He. unfold int_of_float64, finite64.
  rewrite Z2Pos.id by exact HM.
  destruct (Z.leb_spec 0 e); [lia|].
  apply Z.quot_div_nonneg; [lia | apply Z.pow_pos_nonneg; lia].
Qed.

(** Dividing the doubles of two integers and cutting the fraction off
    gives the integer quotient. *)
Lemma float64_div_normal (a b : Z) :
  0 < a < 2 ^ 51 -> 0 < b < 2 ^ 53 ->
  int_of_float64 (float64_div (normal_of a) (normal_of b)) = a / b.
Proof.
  intros Ha Hb.
  assert (Ha' : 0 < a < 2 ^ 53) by (change (2 ^ 51) with 2251799813685248 in Ha;
                                    change (2 ^ 53) with 9007199254740992; lia).
  destruct (Zdigits2_bounds a (proj1 Ha)) as (Ba & _).
  destruct (Zdigits2_bounds b (proj1 Hb)) as (Bb & _).
  pose proof (digits_below a Ha') as Da.
  pose proof (digits_below b Hb) as Db.
  pose proof (scaled_bounds _ _ Ba Da) as Sa.
  pose proof (scaled_bounds _ _ Bb Db) as Sb.
  set (da := Zdigits2 a) in *. set (db := Zdigits2 b) in *.
  assert (Da' : da <= 51).
  { destruct (Z_le_gt_dec da 51) as [C|C]; [exact C|].
    assert (2 ^ 51 <= 2 ^ (da - 1)) by (apply Z.pow_le_mono_r; lia). lia. }
  set (mA := a * 2 ^ (53 - da)) in *. set (mB := b * 2 ^ (53 - db)) in *.
  destruct (SFdiv_core_normal mA (da - 53) mB (db - 53) Sa Sb) as (l & Core);
    [lia | lia |].
  set (q := mA * 2 ^ 53 / mB) in *.
  assert (Hq : 2 ^ 52 <= q < 2 ^ 54).
  { change (2 ^ 52) with 4503599627370496 in *.
    change (2 ^ 53) with 9007199254740992 in *.
    change (2 ^ 54) with 18014398509481984.
    split.
    - apply Z.div_le_lower_bound; lia.
    - apply Z.div_lt_upper_bound; lia. }
  destruct (binary_round_aux_near q (da - 53 - (db - 53) - 53) l Hq)
    as (M & j & E & Hj & HM & Near); [lia|].
  assert (R : float64_div (normal_of a) (normal_of b) =
              finite64 M (da - 53 - (db - 53) - 53 + j)).
  { unfold normal_of. fold da db mA mB. unfold finite64 at 1 2.
    unfold float64_div, SFdiv. rewrite !Z2Pos.id by lia.
    rewrite Core. cbn [xorb]. exact E. }
  rewrite R, int_of_float64_finite by lia.
  set (k := - (da - 53 - (db - 53) - 53 + j)).
  apply scaled_quotient_floor; try lia.
  assert (P1 : 0 < 2 ^ (53 - db)) by (apply Z.pow_pos_nonneg; lia).
  assert (P2 : 0 < 2 ^ j) by (apply Z.pow_pos_nonneg; lia).
  assert (F : q / 2 ^ j = a * 2 ^ k / b).
  { unfold q. rewrite Z.div_div by lia.
    replace (mA * 2 ^ 53) with (a * 2 ^ k * (2 ^ (53 - db) * 2 ^ j)).
    2:{ unfold mA. rewrite <- !Z.mul_assoc, <- !Z.pow_add_r by lia.
        f_equal. f_equal. lia. }
    replace (mB * 2 ^ j) with (b * (2 ^ (53 - db) * 2 ^ j)) by (unfold mB; ring).
    apply Z.div_mul_cancel_r; nia. }
  rewrite <- F. exact Near.
Qed.

(** ** The height that [resizeCover] computes *)

(** [int(float64(h) * float64(w) / float64(b))] is the integer quotient of
    [h * w] by [b], as long as the product stays below [2 ^ 51]. *)
Lemma scaled_height (h w b : Z) :
  0 <= h -> 0 <= w -> 0 < b < 2 ^ 53 -> h * w < 2 ^ 51 ->
  int_of_float64
    (float64_div (float64_mul (float64_of_int h) (float64_of_int w))
                 (float64_of_int b)) = h * w / b.
Proof.
  intros Hh Hw Hb Hp.
  rewrite (float64_of_int_normal b Hb).
  assert (E51 : 2 ^ 51 < 2 ^ 53) by reflexivity.
  destruct (Z.eq_dec h 0) as [->|Nh].
  { unfold normal_of, finite64.
    destruct (float64_of_int w) as [s|s| |s m e]; reflexivity. }
  destruct (Z.eq_dec w 0) as [->|Nw].
  { rewrite Z.mul_0_r. unfold normal_of, finite64.
    destruct (float64_of_int h) as [s|s| |s m e]; reflexivity. }
  rewrite (float64_of_int_normal h), (float64_of_int_normal w) by nia.
  rewrite float64_mul_normal by nia.
  apply float64_div_normal; [nia | exact Hb].
Qed.

(** Cutting the fraction off and rounding to nearest differ by at most
    one. *)
Lemma spec_round_floor (n d : Z) :
  0 < d -> n / d <= spec_round n d <= n / d + 1.
Proof.
  intros Hd. unfold spec_round.
  pose proof (Z.div_mod n d ltac:(lia)) as E.
  pose proof (Z.mod_pos_bound n d Hd) as B.
  replace (2 * n + d) with (n / d * (2 * d) + (2 * (n mod d) + d)) by lia.
  rewrite Z.div_add_l by lia.
  assert (0 <= (2 * (n mod d) + d) / (2 * d)) by (apply Z.div_pos; lia).
  assert ((2 * (n mod d) + d) / (2 * d) < 2)
    by (apply Z.div_lt_upper_bound; lia).
  lia.
Qed.

(** A source of 801 by 3 pixels, limited to a width of 800: the exact
    height is 2.996..., [resizeCover] makes the image 2 pixels high, and
    rounding would give 3. *)
Lemma resizeCover_does_not_round :
  Bounds (resizeCover no_scaling (black_image 801 3) 800) =
    mkRectangle 0 0 800 2 /\
  Dy (Bounds (resizeCover no_scaling (black_image 801 3) 800)) <>
    spec_round (Dy (Bounds (black_image 801 3)) * 800)
               (Dx (Bounds (black_image 801 3))).
Proof.
  split; [reflexivity|]. vm_compute. discriminate.
Qed.

(** C4, amended.  [resizeCover] returns the image it was given when the
    source is not wider than the maximum width; otherwise the result is
    exactly [maxWidth] wide and its height is
    [sourceHeight * maxWidth / sourceWidth] with the fraction cut off
    (not rounded to nearest, from which it differs by at most one).  The
    height is computed in doubles; the statement holds while
    [sourceHeight * maxWidth] is below [2 ^ 51]. *)
Theorem resizeCover_proportional :
  forall scaled_pixels (img : Image) (maxWidth : Z),
  well_formed (Bounds img) -> 0 <= maxWidth ->
  Dx (Bounds img) < 2 ^ 53 -> Dy (Bounds img) * maxWidth < 2 ^ 51 ->
  let srcW := Dx (Bounds img) in
  let srcH := Dy (Bounds img) in
  let out := resizeCover scaled_pixels img maxWidth in
  (srcW <= maxWidth -> out = img) /\
  (maxWidth < srcW ->
   Bounds out = mkRectangle 0 0 maxWidth (srcH * maxWidth / srcW) /\
   Dx (Bounds out) = maxWidth /\
   Dy (Bounds out) = srcH * maxWidth / srcW /\
   Dy (Bounds out) <= spec_round (srcH * maxWidth) srcW <= Dy (Bounds out) + 1).
Proof.
  intros scaled_pixels img maxWidth [WX WY] Hm HW HP srcW srcH out.
  assert (HH : 0 <= srcH) by (unfold srcH, Dy; lia).
  subst out. unfold resizeCover. fold srcW srcH.
  split.
  - intros Hle. apply Z.leb_le in Hle. now rewrite Hle.
  - intros Hlt. destruct (Z.leb_spec srcW maxWidth) as [C|_]; [lia|].
    rewrite scaled_height by (fold srcW in HW; fold srcH in HP; lia).
    assert (Q : 0 <= srcH * maxWidth / srcW) by (apply Z.div_pos; nia).
    cbn [Bounds draw_Scale Rect image_NewRGBA].
    rewrite image_Rect_origin by lia.
    split; [reflexivity|]. unfold Dx, Dy. cbn [MinX MinY MaxX MaxY].
    rewrite !Z.sub_0_r. split; [reflexivity|]. split; [reflexivity|].
    apply spec_round_floor. lia.
Qed.

(** A photograph of 4032 by 3024 pixels becomes 800 by 600. *)
Lemma resizeCover_proportional_witness :
  well_formed (Bounds (black_image 4032 3024)) /\
  Bounds (resizeCover no_scaling (black_image 4032 3024) 800) =
    mkRectangle 0 0 800 600.
Proof.
  assert (Hwf : well_formed (Bounds (black_image 4032 3024)))
    by (split; simpl; lia).
  assert (Hm : 0 <= 800) by lia.
  assert (HW : Dx (Bounds (black_image 4032 3024)) < 2 ^ 53) by reflexivity.
  assert (HP : Dy (Bounds (black_image 4032 3024)) * 800 < 2 ^ 51) by reflexivity.
  split; [exact Hwf|].
  destruct (resizeCover_proportional no_scaling (black_image 4032 3024) 800
              Hwf Hm HW HP) as (_ & A).
  assert (Hlt : 800 < Dx (Bounds (black_image 4032 3024))) by reflexivity.
  destruct (A Hlt) as (B0 & _). exact B0.
Defined.

(* ================================================================= *)
(** ** Statistics of a post *)

(** One generic store operation, issued while nobody else writes. *)
Ltac op_step Q :=
  cbn [bump db issued effects fst snd];
  match goal with
  | |- context [@store_op ?T ?f ?e ?w] =>
      rewrite (@store_op_quiet T f e w) by left_alone Q
  end;
  cbn [bump db issued effects fst snd].

Lemma filter_nonempty_existsb {T : Type} (f : T -> bool) (l : list T) :
  (Z.of_nat (List.length (List.filter f l)) >? 0) = existsb f l.
Proof.
  induction l as [|x l IH]; [reflexivity|]. simpl.
  destruct (f x); simpl; [|exact IH].
  destruct (Z.gtb_spec (Z.pos (Pos.of_succ_nat (List.length (List.filter f l)))) 0);
    [reflexivity | lia].
Qed.

(** A run of [GetPostStats] that got past the slug check. *)
Lemma GetPostStats_run (r : Request) (env : Env) (d : DB) :
  quiet env -> req_Slug r <> "" ->
  exists k,
    run (GetPostStats r) env d =
    (match (if fails env 0 then None else published_post d (req_Slug r)) with
     | None => Failed "Post not found" StatusNotFound
     | Some post =>
         Encoded (mkPostStatsResponse
                    (post_ViewCount post) (post_UniqueViewCount post)
                    (post_LikeCount post) (post_CommentCount post)
                    (negb (req_UserID r =? NilObjectID) && negb (fails env 1) &&
                     liked d (post_ID post) (req_UserID r)))
     end, mkWorld d k []).
Proof.
  intros Q N. unfold GetPostStats.
  destruct (String.eqb_spec (req_Slug r) "") as [E|_]; [contradiction|].
  handler_start. store_step Q.
  destruct (fails env 0) eqn:F0; [eexists; reflexivity|].
  destruct (published_post d (req_Slug r)) as [post|] eqn:Hp;
    [|eexists; reflexivity].
  destruct (req_UserID r =? NilObjectID) eqn:U; cbn [negb andb];
    [eexists; reflexivity|].
  unfold PostLikes_CountDocuments. op_step Q.
  destruct (fails env 1) eqn:F1; cbn [negb andb fst snd];
    [eexists; reflexivity|].
  rewrite filter_nonempty_existsb. eexists; reflexivity.
Qed.

(** [GetPostStats] reads and never writes: it leaves the store as it is
    and emits nothing.  It answers 400 without a slug and 404 without a
    published post; otherwise it reports the four counters of the post,
    and [liked] exactly when the caller is authenticated, the count of
    the caller's like markers succeeds, and there is one. *)
Theorem GetPostStats_report :
  forall (r : Request) (env : Env) (d : DB),
  quiet env ->
  let out := run (GetPostStats r) env d in
  db_of out = d /\ effects_of out = [] /\
  (req_Slug r = "" -> fst out = Failed "Slug is required" StatusBadRequest) /\
  (req_Slug r <> "" -> fails env 0 = false ->
   match published_post d (req_Slug r) with
   | None => fst out = Failed "Post not found" StatusNotFound
   | Some post =>
       fst out =
       Encoded (mkPostStatsResponse
                  (post_ViewCount post) (post_UniqueViewCount post)
                  (post_LikeCount post) (post_CommentCount post)
                  (negb (req_UserID r =? NilObjectID) && negb (fails env 1) &&
                   liked d (post_ID post) (req_UserID r)))
   end).
Proof.
  intros r env d Q out. subst out.
  destruct (string_dec (req_Slug r) "") as [E|N].
  { unfold GetPostStats. rewrite E. cbn. repeat split; auto.
    intros; contradiction. }
  destruct (GetPostStats_run r env d Q N) as (k & R). rewrite R.
  split; [reflexivity|]. split; [reflexivity|].
  split; [intros; contradiction|].
  intros _ F0. rewrite F0. cbn [fst].
  destruct (published_post d (req_Slug r)); reflexivity.
Qed.

Lemma GetPostStats_report_witness :
  quiet calm /\
  fst (run (GetPostStats sample_request) calm sample_db) =
    Encoded (mkPostStatsResponse 10 3 5 2 false).
Proof.
  split; [exact quiet_calm|].
  destruct (GetPostStats_report sample_request calm sample_db quiet_calm)
    as (_ & _ & _ & H).
  assert (N : req_Slug sample_request <> "") by discriminate.
  exact (H N eq_refl).
Defined.

(** After a like toggle that succeeded, the statistics the same caller
    asks for show the state the toggle left: [liked] is the opposite of
    what it was and [like_count] has moved by one. *)
Theorem GetPostStats_after_ToggleLike :
  forall (r : Request) (env env' : Env) (d : DB) (post : BlogPost),
  store_ok d -> no_faults env -> quiet env -> no_faults env' -> quiet env' ->
  req_UserID r <> NilObjectID -> req_Slug r <> "" ->
  published_post d (req_Slug r) = Some post ->
  let was := liked d (post_ID post) (req_UserID r) in
  let d' := db_of (run (ToggleLike r) env d) in
  fst (run (GetPostStats r) env' d') =
  Encoded (mkPostStatsResponse
             (post_ViewCount post) (post_UniqueViewCount post)
             (post_LikeCount post + like_delta was) (post_CommentCount post)
             (negb was)).
Proof.
  intros r env env' d post Hok NF Q NF' Q' Hu Hs Hp was d'.
  destruct (ToggleLike_quiet_step r env d post Hok NF Q Hu Hs Hp)
    as (_ & P1 & L1 & _ & _).
  fold was d' in P1, L1.
  destruct (GetPostStats_run r env' d' Q' Hs) as (k & H).
  rewrite H, (NF' 0%nat), P1. cbn [fst].
  rewrite inc_ID, L1, (NF' 1%nat).
  apply Z.eqb_neq in Hu. rewrite Hu. cbn [negb andb].
  destruct post; reflexivity.
Qed.

Lemma GetPostStats_after_ToggleLike_witness :
  fst (run (GetPostStats sample_request) calm
           (db_of (run (ToggleLike sample_request) calm sample_db))) =
  Encoded (mkPostStatsResponse 10 3 6 2 true).
Proof.
  assert (Hu : req_UserID sample_request <> NilObjectID) by discriminate.
  assert (Hs : req_Slug sample_request <> "") by discriminate.
  exact (GetPostStats_after_ToggleLike sample_request calm calm sample_db
           sample_post store_ok_sample_db no_faults_calm quiet_calm
           no_faults_calm quiet_calm Hu Hs eq_refl).
Defined.

(* ================================================================= *)
(** ** Deleting a comment *)

Lemma DeleteOne_by_id {T : Type} (key : T -> Z) (k : Z) (l : list T) :
  NoDup (map key l) ->
  snd (coll_DeleteOne (fun x => key x =? k) l) =
  List.filter (fun x => negb (key x =? k)) l.
Proof.
  induction l as [|x l IH]; intros ND; [reflexivity|].
  inversion ND as [|? ? Hx ND']; subst. simpl.
  destruct (Z.eqb_spec (key x) k) as [E|N]; simpl.
  - symmetry. apply forallb_filter_id. apply forallb_forall. intros y Hy.
    apply negb_true_iff, Z.eqb_neq. intros E'. apply Hx.
    rewrite E, <- E'. now apply in_map.
  - specialize (IH ND'). destruct (coll_DeleteOne _ l). simpl in *. now f_equal.
Qed.

Lemma DeleteOne_snoc_fresh {T : Type} (f : T -> bool) (l : list T) (x : T) :
  existsb f l = false -> f x = true -> coll_DeleteOne f (l ++ [x]) = (1, l).
Proof.
  induction l as [|y l IH]; simpl; intros H Hx.
  - now rewrite Hx.
  - apply orb_false_iff in H. destruct H as [Hy H]. rewrite Hy.
    now rewrite IH.
Qed.

(** A run of [DeleteComment] in which every store operation succeeds, on
    a comment that exists under a published post. *)
Lemma DeleteComment_run :
  forall (r : DeleteCommentRequest) (env : Env) (d : DB)
         (cid : ObjectID) (post : BlogPost) (c : PostComment),
  quiet env -> no_faults env ->
  dc_UserID r <> NilObjectID -> dc_CommentID r = Some cid ->
  published_post d (dc_Slug r) = Some post ->
  comment_of d cid (post_ID post) = Some c ->
  exists k,
    run (DeleteComment r) env d =
    if may_delete_comment d (dc_UserID r) post c then
      (json_OK (BodyMessage "Comment deleted"),
       mkWorld
         (let removed :=
            with_PostComments d
              (snd (coll_DeleteOne (fun c => comment_ID c =? cid) (PostComments d))) in
          with_Posts removed
            (snd (coll_UpdateOne (fun p => post_ID p =? post_ID post)
                                 (inc comment_count (-1)) (Posts removed))))
         k
         [MetricInc "IncCommentDeleted";
          LogInfo "comment_deleted"
                  [("comment_id", VInt cid); ("post_id", VInt (post_ID post));
                   ("user_id", VInt (dc_UserID r))]])
    else
      (http_Error "Forbidden: you cannot delete this comment" StatusForbidden,
       mkWorld d k []).
Proof.
  intros r env d cid post c Q NF Hu Hc Hp Hf.
  unfold DeleteComment, may_delete_comment, is_admin.
  destruct (Z.eqb_spec (dc_UserID r) NilObjectID) as [E|_]; [contradiction|].
  rewrite Hc. handler_start.
  store_step Q. rewrite (NF 0%nat), Hp.
  unfold PostComments_FindOne. op_step Q. rewrite (NF 1%nat).
  unfold comment_of in Hf. unfold coll_FindOne. rewrite Hf. cbn [fst snd].
  assert (Del : forall w0 n,
            others env n (db w0) = db w0 -> issued w0 = n -> db w0 = d -> effects w0 = [] ->
            exists k,
              (let '(x0, w'1) := PostComments_DeleteOne cid env w0 in
               match x0 with
               | Some _ =>
                   fun (env0 : Env) (w1 : World) =>
                   let '(_, w'2) :=
                     Posts_UpdateOne_inc (post_ID post) comment_count (-1) env0 w1 in
                   (json_OK (BodyMessage "Comment deleted"),
                    {| db := db w'2; issued := issued w'2;
                       effects :=
                         (effects w'2 ++ [MetricInc "IncCommentDeleted"]) ++
                         [LogInfo "comment_deleted"
                            [("comment_id", VInt cid);
                             ("post_id", VInt (post_ID post));
                             ("user_id", VInt (dc_UserID r))]] |})
               | None =>
                   fun (_ : Env) (w1 : World) =>
                   (http_Error "Error deleting comment" StatusInternalServerError, w1)
               end env w'1) =
              (json_OK (BodyMessage "Comment deleted"),
               mkWorld
                 (let removed :=
                    with_PostComments d
                      (snd (coll_DeleteOne (fun c => comment_ID c =? cid)
                                           (PostComments d))) in
                  with_Posts removed
                    (snd (coll_UpdateOne (fun p => post_ID p =? post_ID post)
                                         (inc comment_count (-1)) (Posts removed))))
                 k
                 [MetricInc "IncCommentDeleted";
                  LogInfo "comment_deleted"
                          [("comment_id", VInt cid); ("post_id", VInt (post_ID post));
                           ("user_id", VInt (dc_UserID r))]])).
  { intros w0 n Hq Hi Hd He. unfold PostComments_DeleteOne.
    rewrite store_op_quiet by (rewrite Hi; exact Hq).
    rewrite (NF _), Hd.
    destruct (coll_DeleteOne _ (PostComments d)) as [m cs] eqn:Dl.
    cbn [fst snd].
    rewrite Posts_UpdateOne_inc_quiet by apply Q.
    rewrite (NF _). cbn [db issued effects fst snd]. rewrite He.
    eexists. reflexivity. }
  destruct (comment_UserID c =? dc_UserID r) eqn:A1; cbn [orb negb].
  { apply (Del _ 2%nat); auto. }
  destruct (post_AuthorID post =? dc_UserID r) eqn:A2; cbn [orb negb].
  { apply (Del _ 2%nat); auto. }
  unfold Profiles_FindOne. op_step Q. rewrite (NF 2%nat).
  unfold coll_FindOne.
  destruct (find _ (Profiles d)) as [profile|]; cbn [fst snd].
  - destruct (profile_Role profile =? "admin")%string; cbn [negb].
    + apply (Del _ 3%nat); auto.
    + eexists. reflexivity.
  - eexists. reflexivity.
Qed.

(** Only the author of a comment, the author of its post and an admin can
    delete it: for an existing comment under a published post, with every
    store operation succeeding, the answer is 200 exactly for these
    callers; anybody else gets 403, and then no comment is removed, no
    counter moves and nothing is logged or counted. *)
Theorem DeleteComment_authorization :
  forall (r : DeleteCommentRequest) (env : Env) (d : DB)
         (cid : ObjectID) (post : BlogPost) (c : PostComment),
  quiet env -> no_faults env ->
  dc_UserID r <> NilObjectID -> dc_CommentID r = Some cid ->
  published_post d (dc_Slug r) = Some post ->
  comment_of d cid (post_ID post) = Some c ->
  let out := run (DeleteComment r) env d in
  let u := dc_UserID r in
  (StatusCode (fst out) = StatusOK <->
   comment_UserID c = u \/ post_AuthorID post = u \/ is_admin d u = true) /\
  (comment_UserID c <> u -> post_AuthorID post <> u -> is_admin d u = false ->
   StatusCode (fst out) = StatusForbidden /\ db_of out = d /\ effects_of out = []).
Proof.
  intros r env d cid post c Q NF Hu Hc Hp Hf out u.
  destruct (DeleteComment_run r env d cid post c Q NF Hu Hc Hp Hf) as (k & R).
  subst out. rewrite R. unfold may_delete_comment. fold u.
  destruct (Z.eqb_spec (comment_UserID c) u) as [A1|A1]; cbn [orb].
  { split; [split; auto | intros; contradiction]. }
  destruct (Z.eqb_spec (post_AuthorID post) u) as [A2|A2]; cbn [orb].
  { split; [split; auto | intros; contradiction]. }
  destruct (is_admin d u) eqn:A3.
  { split; [split; auto | intros; discriminate]. }
  split.
  - cbn. split; [discriminate | intros [?|[?|?]]; congruence].
  - intros _ _ _. repeat split.
Qed.

Lemma DeleteComment_authorization_witness :
  StatusCode (fst (run (DeleteComment (mkDeleteCommentRequest 43 "hello" (Some 500)))
                       calm commented_db)) = StatusForbidden /\
  db_of (run (DeleteComment (mkDeleteCommentRequest 43 "hello" (Some 500)))
             calm commented_db) = commented_db.
Proof.
  assert (Hu : dc_UserID (mkDeleteCommentRequest 43 "hello" (Some 500)) <> NilObjectID)
    by discriminate.
  destruct (DeleteComment_authorization
              (mkDeleteCommentRequest 43 "hello" (Some 500)) calm commented_db
              500 (mkBlogPost 1 7 "hello" "published" 10 3 5 1) sample_comment_doc
              quiet_calm no_faults_calm Hu eq_refl eq_refl eq_refl) as (_ & H).
  assert (A1 : comment_UserID sample_comment_doc <> 43) by discriminate.
  assert (A2 : post_AuthorID (mkBlogPost 1 7 "hello" "published" 10 3 5 1) <> 43)
    by discriminate.
  destruct (H A1 A2 eq_refl) as (S1 & S2 & _). split; [exact S1 | exact S2].
Defined.

(** A permitted deletion removes the comment with the given id and no
    other, lowers [comment_count] of the post by one and leaves every
    other counter and every other collection alone. *)
Theorem DeleteComment_removes :
  forall (r : DeleteCommentRequest) (env : Env) (d : DB)
         (cid : ObjectID) (post : BlogPost) (c : PostComment),
  store_ok d -> comments_ok d ->
  quiet env -> no_faults env ->
  dc_UserID r <> NilObjectID -> dc_CommentID r = Some cid ->
  published_post d (dc_Slug r) = Some post ->
  comment_of d cid (post_ID post) = Some c ->
  may_delete_comment d (dc_UserID r) post c = true ->
  let out := run (DeleteComment r) env d in
  let d' := db_of out in
  fst out = json_OK (BodyMessage "Comment deleted") /\
  PostComments d' =
    List.filter (fun x => negb (comment_ID x =? cid)) (PostComments d) /\
  (forall g id,
     counter g d' id =
     counter g d id +
     (if (id =? post_ID post) && Counter_eqb g comment_count then -1 else 0)) /\
  PostLikes d' = PostLikes d /\ PostViews d' = PostViews d /\
  Profiles d' = Profiles d /\ Images d' = Images d.
Proof.
  intros r env d cid post c Hok Hcs Q NF Hu Hc Hp Hf Hm out d'.
  destruct (DeleteComment_run r env d cid post c Q NF Hu Hc Hp Hf) as (k & R).
  subst d' out. rewrite R, Hm. unfold db_of. cbn [fst snd db].
  split; [reflexivity|]. split.
  { cbn [PostComments with_Posts with_PostComments].
    apply (DeleteOne_by_id comment_ID). exact Hcs. }
  split; [|repeat split].
  intros g id.
  set (removed := with_PostComments d _).
  change (counter g d id) with (counter g removed id).
  apply counter_inc.
  change (post_by_id removed (post_ID post)) with (post_by_id d (post_ID post)).
  rewrite (published_post_by_id d _ post Hok Hp). discriminate.
Qed.

Lemma DeleteComment_removes_witness :
  PostComments
    (db_of (run (DeleteComment (mkDeleteCommentRequest 44 "hello" (Some 500)))
                calm commented_db)) = [] /\
  counter comment_count
    (db_of (run (DeleteComment (mkDeleteCommentRequest 44 "hello" (Some 500)))
                calm commented_db)) 1 = 0.
Proof.
  assert (Hok : store_ok commented_db).
  { repeat split; simpl; repeat constructor; simpl; intuition congruence. }
  assert (Hcs : comments_ok commented_db).
  { unfold comments_ok. simpl. repeat constructor. simpl. tauto. }
  assert (Hu : dc_UserID (mkDeleteCommentRequest 44 "hello" (Some 500)) <> NilObjectID)
    by discriminate.
  destruct (DeleteComment_removes
              (mkDeleteCommentRequest 44 "hello" (Some 500)) calm commented_db
              500 (mkBlogPost 1 7 "hello" "published" 10 3 5 1) sample_comment_doc
              Hok Hcs quiet_calm no_faults_calm Hu eq_refl eq_refl eq_refl eq_refl)
    as (_ & P & C & _).
  split; [exact P | exact (C comment_count 1)].
Defined.

(** *** Creating a comment and deleting it again *)

Lemma UpdateOne_undo {T : Type} (flt : T -> bool) (f g : T -> T) (l : list T) :
  (forall x, g (f x) = x) -> (forall x, flt (f x) = flt x) ->
  snd (coll_UpdateOne flt g (snd (coll_UpdateOne flt f l))) = l.
Proof.
  intros Hgf Hflt. induction l as [|x l IH]; [reflexivity|]. simpl.
  destruct (flt x) eqn:E; simpl.
  - now rewrite Hflt, E, Hgf.
  - destruct (coll_UpdateOne flt f l) as [n l'] eqn:U. simpl in *. rewrite E.
    destruct (coll_UpdateOne flt g l') as [m l''] eqn:U'. simpl in *.
    now f_equal.
Qed.

Lemma inc_undo (g : Counter) (delta : Z) (p : BlogPost) :
  inc g (- delta) (inc g delta p) = p.
Proof. destruct p, g; simpl; f_equal; lia. Qed.

Lemma find_snoc_fresh {T : Type} (f : T -> bool) (l : list T) (x : T) :
  existsb f l = false -> f x = true -> find f (l ++ [x]) = Some x.
Proof.
  induction l as [|y l IH]; simpl; intros H Hx.
  - now rewrite Hx.
  - apply orb_false_iff in H. destruct H as [Hy H]. rewrite Hy. now apply IH.
Qed.

(** A comment that its author deletes right after creating it leaves no
    trace in the store: the comment is gone and [comment_count] is back
    where it was.  (The id that [NewObjectID] hands out is new.) *)
Theorem CreateComment_then_DeleteComment :
  forall (r : Request) (env env' : Env) (d : DB) (post : BlogPost)
         (req : CreateCommentRequest),
  store_ok d ->
  quiet env -> no_faults env -> quiet env' -> no_faults env' ->
  req_UserID r <> NilObjectID -> req_Slug r <> "" -> req_Body r = Some req ->
  1 <= Z.of_nat (String.length (ccr_Content req)) <= 2000 ->
  published_post d (req_Slug r) = Some post ->
  existsb (fun c => comment_ID c =? NewObjectID env) (PostComments d) = false ->
  let created := run (CreateComment r) env d in
  let deleted :=
    run (DeleteComment (mkDeleteCommentRequest (req_UserID r) (req_Slug r)
                                               (Some (NewObjectID env))))
        env' (db_of created) in
  StatusCode (fst created) = StatusCreated /\
  PostComments (db_of created) = PostComments d ++ [new_comment r env post] /\
  fst deleted = json_OK (BodyMessage "Comment deleted") /\
  db_of deleted = d.
Proof.
  intros r env env' d post req Hok Q NF Q' NF' Hu Hs Hb Hlen Hp Hfresh
         created deleted.
  pose proof (CreateComment_checked r env d req Q Hu Hs Hb) as H.
  cbv zeta in H. fold created in H.
  assert (Hr : (Z.of_nat (String.length (ccr_Content req)) <? 1) ||
               (Z.of_nat (String.length (ccr_Content req)) >? 2000) = false).
  { destruct (Z.ltb_spec (Z.of_nat (String.length (ccr_Content req))) 1); [lia|].
    destruct (Z.gtb_spec (Z.of_nat (String.length (ccr_Content req))) 2000);
      [lia | reflexivity]. }
  rewrite Hr in H.
  rewrite (NF 0%nat), Hp, (NF 1%nat), (NF 2%nat) in H.
  destruct H as (St & Hdb & _).
  set (nc := new_comment r env post) in *.
  set (stored := with_PostComments d (PostComments d ++ [nc])) in *.
  assert (Hp1 : published_post (db_of created) (req_Slug r) =
                Some (inc comment_count 1 post)).
  { rewrite Hdb.
    change (Posts stored) with (Posts d).
    change (published_post (with_Posts stored ?x) ?s)
      with (published_post (with_Posts d x) s).
    rewrite (published_post_inc d (post_ID post) comment_count 1 _ post)
      by (apply Hok || auto).
    now rewrite Z.eqb_refl. }
  assert (Hc : comment_of (db_of created) (NewObjectID env)
                          (post_ID (inc comment_count 1 post)) = Some nc).
  { rewrite Hdb, inc_ID. unfold comment_of.
    cbn [PostComments with_Posts with_PostComments stored].
    apply find_snoc_fresh.
    - clear -Hfresh. induction (PostComments d) as [|y l IH]; [reflexivity|].
      simpl in *. apply orb_false_iff in Hfresh. destruct Hfresh as [Hy Hl].
      rewrite Hy. simpl. now apply IH.
    - unfold nc, new_comment. cbn. now rewrite !Z.eqb_refl. }
  destruct (DeleteComment_run
              (mkDeleteCommentRequest (req_UserID r) (req_Slug r)
                                      (Some (NewObjectID env)))
              env' (db_of created) (NewObjectID env)
              (inc comment_count 1 post) nc Q' NF' Hu eq_refl Hp1 Hc) as (k & R).
  assert (May : may_delete_comment (db_of created) (req_UserID r)
                                   (inc comment_count 1 post) nc = true).
  { unfold may_delete_comment, nc, new_comment. cbn [comment_UserID].
    now rewrite Z.eqb_refl. }
  cbn [dc_UserID] in R. rewrite May in R.
  split; [exact St|]. split; [rewrite Hdb; reflexivity|].
  subst deleted. rewrite R. split; [reflexivity|].
  unfold db_of at 1. cbn [snd db]. rewrite Hdb, inc_ID.
  cbn [PostComments Posts with_Posts with_PostComments stored].
  rewrite DeleteOne_snoc_fresh;
    [| exact Hfresh | unfold nc, new_comment; cbn; apply Z.eqb_refl].
  cbn [snd].
  rewrite (UpdateOne_undo _ (inc comment_count 1) (inc comment_count (-1)));
    [| intros; apply (inc_undo comment_count 1) | intros; now rewrite inc_ID].
  destruct d; reflexivity.
Qed.

Lemma CreateComment_then_DeleteComment_witness :
  db_of (run (DeleteComment (mkDeleteCommentRequest 42 "hello" (Some 100))) calm
             (db_of (run (CreateComment sample_comment) calm sample_db))) =
  sample_db.
Proof.
  assert (Hu : req_UserID sample_comment <> NilObjectID) by discriminate.
  assert (Hs : req_Slug sample_comment <> "") by discriminate.
  assert (Hl : 1 <= Z.of_nat (String.length (ccr_Content (mkCreateCommentRequest "hi")))
               <= 2000) by (simpl; lia).
  destruct (CreateComment_then_DeleteComment sample_comment calm calm sample_db
              sample_post (mkCreateCommentRequest "hi") store_ok_sample_db
              quiet_calm no_faults_calm quiet_calm no_faults_calm
              Hu Hs eq_refl Hl eq_refl eq_refl) as (_ & _ & _ & H).
  exact H.
Defined.

(** *** Failures of [DeleteComment] *)

Ltac unchanged_or_ok :=
  cbn [fst snd db_of effects_of db effects StatusCode http_Error json_OK];
  first [ solve [intros _; split; reflexivity]
        | solve [intros H; exfalso; apply H; reflexivity] ].

(** Whatever goes wrong, and wherever a store operation fails, a
    [DeleteComment] that does not answer 200 has removed nothing, moved no
    counter and emitted nothing; in particular a caller without a session
    gets 401 and a comment id that is not an object id gets 400 before the
    store is consulted. *)
Theorem DeleteComment_failure_leaves_store :
  forall (r : DeleteCommentRequest) (env : Env) (d : DB),
  quiet env ->
  let out := run (DeleteComment r) env d in
  (StatusCode (fst out) <> StatusOK -> db_of out = d /\ effects_of out = []) /\
  (dc_UserID r = NilObjectID ->
   out = (http_Error "Unauthorized" StatusUnauthorized, mkWorld d 0 [])) /\
  (dc_UserID r <> NilObjectID -> dc_CommentID r = None ->
   out = (http_Error "Invalid comment ID" StatusBadRequest, mkWorld d 0 [])).
Proof.
  intros r env d Q out. subst out.
  split; [|split].
  2:{ intros E. unfold DeleteComment. now rewrite E. }
  2:{ intros N E. unfold DeleteComment. rewrite E.
      destruct (Z.eqb_spec (dc_UserID r) NilObjectID); [contradiction|reflexivity]. }
  unfold DeleteComment.
  destruct (dc_UserID r =? NilObjectID); [unchanged_or_ok|].
  destruct (dc_CommentID r) as [cid|]; [|unchanged_or_ok].
  handler_start. store_step Q.
  destruct (fails env 0); [unchanged_or_ok|].
  destruct (published_post d (dc_Slug r)) as [post|]; [|unchanged_or_ok].
  unfold PostComments_FindOne. op_step Q.
  destruct (fails env 1); [unchanged_or_ok|].
  unfold coll_FindOne.
  destruct (find _ (PostComments d)) as [c|]; [|unchanged_or_ok].
  cbn [fst snd].
  assert (Del : forall w0,
            db w0 = d -> effects w0 = [] ->
            let out :=
              (let '(x0, w'1) := PostComments_DeleteOne cid env w0 in
               match x0 with
               | Some _ =>
                   fun (env0 : Env) (w1 : World) =>
                   let '(_, w'2) :=
                     Posts_UpdateOne_inc (post_ID post) comment_count (-1) env0 w1 in
                   (json_OK (BodyMessage "Comment deleted"),
                    {| db := db w'2; issued := issued w'2;
                       effects :=
                         (effects w'2 ++ [MetricInc "IncCommentDeleted"]) ++
                         [LogInfo "comment_deleted"
                            [("comment_id", VInt cid);
                             ("post_id", VInt (post_ID post));
                             ("user_id", VInt (dc_UserID r))]] |})
               | None =>
                   fun (_ : Env) (w1 : World) =>
                   (http_Error "Error deleting comment" StatusInternalServerError, w1)
               end env w'1) in
            StatusCode (fst out) <> StatusOK ->
            db_of out = d /\ effects_of out = []).
  { intros w0 Hd He. unfold PostComments_DeleteOne.
    rewrite store_op_quiet by apply Q.
    destruct (fails env (issued w0)).
    - cbn. intros _. split; assumption.
    - destruct (coll_DeleteOne _ (PostComments (db w0))) as [m cs].
      cbn [fst snd]. rewrite Posts_UpdateOne_inc_quiet by apply Q.
      cbn [issued]. destruct (fails env (S (issued w0))); unchanged_or_ok. }
  destruct (comment_UserID c =? dc_UserID r); cbn [negb].
  { apply Del; reflexivity. }
  destruct (post_AuthorID post =? dc_UserID r); cbn [negb].
  { apply Del; reflexivity. }
  unfold Profiles_FindOne. op_step Q.
  destruct (fails env 2); cbn [fst snd negb]; [unchanged_or_ok|].
  unfold coll_FindOne.
  destruct (find _ (Profiles d)) as [profile|]; cbn [fst snd negb];
    [|unchanged_or_ok].
  destruct (profile_Role profile =? "admin")%string; cbn [negb];
    [|unchanged_or_ok].
  apply Del; reflexivity.
Qed.

Lemma DeleteComment_failure_leaves_store_witness :
  quiet (failing_at 1) /\
  db_of (run (DeleteComment (mkDeleteCommentRequest 42 "hello" (Some 500)))
             (failing_at 1) commented_db) = commented_db.
Proof.
  split; [exact (quiet_failing_at 1)|].
  destruct (DeleteComment_failure_leaves_store
              (mkDeleteCommentRequest 42 "hello" (Some 500)) (failing_at 1)
              commented_db (quiet_failing_at 1)) as (H & _).
  assert (N : StatusCode (fst (run (DeleteComment
                 (mkDeleteCommentRequest 42 "hello" (Some 500)))
                 (failing_at 1) commented_db)) <> StatusOK) by discriminate.
  exact (proj1 (H N)).
Defined.

(** *** Failures of [ToggleLike] *)

Lemma with_PostLikes_same (d : DB) : with_PostLikes d (PostLikes d) = d.
Proof. destruct d; reflexivity. Qed.

(** A like toggle that does not answer 200 has changed nothing: no marker
    is inserted or deleted, no counter moves and nothing is emitted,
    wherever the failure occurred. *)
Theorem ToggleLike_failure_leaves_store :
  forall (r : Request) (env : Env) (d : DB),
  quiet env ->
  let out := run (ToggleLike r) env d in
  StatusCode (fst out) <> StatusOK -> db_of out = d /\ effects_of out = [].
Proof.
  intros r env d Q out. subst out. unfold ToggleLike.
  destruct (req_UserID r =? NilObjectID); [unchanged_or_ok|].
  destruct (req_Slug r =? "")%string; [unchanged_or_ok|].
  handler_start. store_step Q.
  destruct (fails env 0); [unchanged_or_ok|].
  destruct (published_post d (req_Slug r)) as [post|]; [|unchanged_or_ok].
  store_step Q.
  destruct (fails env 1); [unchanged_or_ok|].
  destruct (liked d (post_ID post) (req_UserID r)) eqn:L;
    cbn [Z.gtb Z.compare].
  - store_step Q.
    destruct (fails env 2); rewrite Posts_FindOne_any;
      cbn [bump db issued effects fst snd];
      destruct (fails env 3); unchanged_or_ok.
  - rewrite DeleteOne_absent by exact L. rewrite with_PostLikes_same.
    store_step Q. cbn [like_PostID like_UserID]. rewrite L.
    destruct (fails env 2); [unchanged_or_ok|].
    store_step Q.
    destruct (fails env 3); rewrite Posts_FindOne_any;
      cbn [bump db issued effects fst snd];
      destruct (fails env 4); unchanged_or_ok.
Qed.

Lemma ToggleLike_failure_leaves_store_witness :
  quiet (failing_at 2) /\
  fst (run (ToggleLike sample_request) (failing_at 2) sample_db) =
    http_Error "Error toggling like" StatusInternalServerError /\
  db_of (run (ToggleLike sample_request) (failing_at 2) sample_db) = sample_db.
Proof.
  split; [exact (quiet_failing_at 2)|]. split; [reflexivity|].
  assert (N : StatusCode (fst (run (ToggleLike sample_request) (failing_at 2)
                                   sample_db)) <> StatusOK) by discriminate.
  exact (proj1 (ToggleLike_failure_leaves_store sample_request (failing_at 2)
                  sample_db (quiet_failing_at 2) N)).
Defined.

(** [ToggleLike] does not look at the result of the counter update.  When
    that update fails, the marker has been deleted or inserted all the
    same, [like_count] keeps its old value, and the answer is 200 with the
    new state and the old count: markers and counter are out of step. *)
Theorem ToggleLike_counter_error_ignored :
  forall (r : Request) (env : Env) (d : DB) (post : BlogPost),
  store_ok d -> quiet env ->
  req_UserID r <> NilObjectID -> req_Slug r <> "" ->
  published_post d (req_Slug r) = Some post ->
  let id := post_ID post in
  let u := req_UserID r in
  let was := liked d id u in
  (forall i, fails env i = true <-> i = (if was then 2%nat else 3%nat)) ->
  let out := run (ToggleLike r) env d in
  fst out = json_OK (BodyLike (negb was) (post_LikeCount post)) /\
  liked (db_of out) id u = negb was /\
  (forall g id', counter g (db_of out) id' = counter g d id').
Proof.
  intros r env d post Hok Q Hu Hs Hp id u was Hf out.
  assert (F : forall i, i <> (if was then 2%nat else 3%nat) -> fails env i = false).
  { intros i N. destruct (fails env i) eqn:E; [|reflexivity].
    apply Hf in E. contradiction. }
  assert (T : fails env (if was then 2%nat else 3%nat) = true) by now apply Hf.
  assert (Hid : post_by_id d id = Some post)
    by exact (published_post_by_id d _ post Hok Hp).
  subst out. unfold ToggleLike.
  destruct (Z.eqb_spec (req_UserID r) NilObjectID) as [E|_]; [contradiction|].
  destruct (String.eqb_spec (req_Slug r) "") as [E|_]; [contradiction|].
  fold u. handler_start.
  store_step Q. rewrite (F 0%nat) by (destruct was; lia). rewrite Hp. fold id.
  store_step Q. rewrite (F 1%nat) by (destruct was; lia).
  destruct was eqn:L; subst was; rewrite L; cbn [Z.gtb Z.compare negb].
  - store_step Q. rewrite T. rewrite Posts_FindOne_any.
    cbn [bump db issued effects fst snd]. rewrite (F 3%nat), Q by lia.
    cbn [Posts with_PostLikes]. fold (post_by_id d id). rewrite Hid.
    unfold db_of. cbn [fst snd db].
    split; [reflexivity|]. split; [|reflexivity].
    rewrite liked_after_delete, !Z.eqb_refl by exact Hok. reflexivity.
  - rewrite DeleteOne_absent by exact L. rewrite with_PostLikes_same.
    store_step Q. rewrite (F 2%nat) by lia. cbn [like_PostID like_UserID].
    rewrite L.
    store_step Q. rewrite T. rewrite Posts_FindOne_any.
    cbn [bump db issued effects fst snd]. rewrite (F 4%nat), Q by lia.
    cbn [Posts with_PostLikes]. fold (post_by_id d id). rewrite Hid.
    unfold db_of. cbn [fst snd db].
    split; [reflexivity|]. split; [|reflexivity].
    rewrite liked_after_insert. cbn [like_PostID like_UserID].
    now rewrite !Z.eqb_refl, orb_true_r.
Qed.

Lemma ToggleLike_counter_error_ignored_witness :
  fst (run (ToggleLike sample_request) (failing_at 3) sample_db) =
    json_OK (BodyLike true 5) /\
  liked (db_of (run (ToggleLike sample_request) (failing_at 3) sample_db)) 1 42 =
    true.
Proof.
  assert (Hu : req_UserID sample_request <> NilObjectID) by discriminate.
  assert (Hs : req_Slug sample_request <> "") by discriminate.
  assert (Hf : forall i, fails (failing_at 3) i = true <->
                         i = (if liked sample_db (post_ID sample_post)
                                        (req_UserID sample_request)
                              then 2%nat else 3%nat)).
  { intros i. simpl. split.
    - intros E. now apply Nat.eqb_eq in E.
    - intros E. now apply Nat.eqb_eq. }
  destruct (ToggleLike_counter_error_ignored sample_request (failing_at 3)
              sample_db sample_post store_ok_sample_db (quiet_failing_at 3)
              Hu Hs eq_refl Hf) as (A & B & _).
  split; [exact A | exact B].
Defined.

(* ================================================================= *)
(** ** What the uploads store *)

Lemma UpdateOne_count {T : Type} (f : T -> bool) (upd : T -> T) (l : list T) :
  fst (coll_UpdateOne f upd l) = if existsb f l then 1 else 0.
Proof.
  induction l as [|x l IH]; [reflexivity|]. simpl.
  destruct (f x); [reflexivity|].
  destruct (coll_UpdateOne f upd l). simpl in *. exact IH.
Qed.

Lemma UpdateOne_unmatched {T : Type} (f : T -> bool) (upd : T -> T) (l : list T) :
  existsb f l = false -> snd (coll_UpdateOne f upd l) = l.
Proof.
  induction l as [|x l IH]; [reflexivity|]. simpl. intros H.
  apply orb_false_iff in H. destruct H as [Hx Hl]. rewrite Hx.
  destruct (coll_UpdateOne f upd l). simpl in *. now rewrite IH.
Qed.

(** [UpdateOne] on a key, seen through a lookup on the same key. *)
Lemma UpdateOne_find {T : Type} (key : T -> Z) (k k' : Z) (upd : T -> T)
      (l : list T) :
  (forall x, key (upd x) = key x) ->
  find (fun x => key x =? k') (snd (coll_UpdateOne (fun x => key x =? k) upd l)) =
  if k' =? k then option_map upd (find (fun x => key x =? k) l)
  else find (fun x => key x =? k') l.
Proof.
  intros Hupd. induction l as [|x l IH]; simpl.
  - destruct (k' =? k); reflexivity.
  - destruct (Z.eqb_spec (key x) k) as [E|N]; simpl.
    + rewrite Hupd, E. destruct (Z.eqb_spec k k') as [->|N'].
      * now rewrite Z.eqb_refl.
      * destruct (Z.eqb_spec k' k); [congruence | reflexivity].
    + destruct (coll_UpdateOne (fun y => key y =? k) upd l) as [n l'] eqn:Eu.
      simpl in *. destruct (Z.eqb_spec (key x) k') as [E'|N'].
      * destruct (Z.eqb_spec k' k); [congruence | reflexivity].
      * exact IH.
Qed.

Lemma existsb_find_none {T : Type} (f : T -> bool) (l : list T) :
  existsb f l = false <-> find f l = None.
Proof.
  induction l as [|x l IH]; simpl; [tauto|].
  destruct (f x); simpl; [split; discriminate | exact IH].
Qed.

Lemma Dx_resizeCover scaled_pixels (img : Image) (maxWidth : Z) :
  0 <= maxWidth -> Dx (Bounds (resizeCover scaled_pixels img maxWidth)) <= maxWidth.
Proof.
  intros Hm. unfold resizeCover.
  destruct (Z.leb_spec (Dx (Bounds img)) maxWidth) as [C|C]; [exact C|].
  cbn [Bounds draw_Scale Rect image_NewRGBA]. unfold image_Rect.
  destruct (Z.gtb_spec 0 maxWidth); [lia|].
  destruct (0 >? _); unfold Dx; simpl; lia.
Qed.

Section UploadStore.
Variable Exif : Type.
Variable ExifTag : Type.
Variable exif_Decode : string -> option Exif.
Variable exif_Get_Orientation : Exif -> option ExifTag.
Variable tag_Int : ExifTag -> Z -> option Z.
Variable scaled_pixels :
  Interpolator -> RGBAImage -> Rectangle -> Image -> Rectangle -> DrawOp ->
  list RGBA8.
Variable image_Decode : string -> option Image.
Variable jpeg_Encode : Image -> Z -> option string.
Variable base64_EncodeToString : string -> string.
Variable base64_DecodeString : string -> option string.
Variable http_DetectContentType : string -> string.

Let avatar :=
  UploadAvatar Exif ExifTag exif_Decode exif_Get_Orientation tag_Int
               scaled_pixels image_Decode jpeg_Encode base64_EncodeToString.
Let post_image :=
  UploadPostImage scaled_pixels image_Decode jpeg_Encode base64_EncodeToString
                  http_DetectContentType.

(** A run of [UploadPostImage]: either it answers 200, and then one
    document was appended to the images, holding the JPEG encoding of an
    image at most 800 pixels wide; or nothing was stored. *)
Lemma UploadPostImage_run (r : UploadRequest) (env : Env) (d : DB) :
  quiet env ->
  let out := run (post_image r) env d in
  (exists resized buf,
     Dx (Bounds resized) <= 800 /\
     jpeg_Encode resized 65 = Some buf /\
     fst out = json_OK (BodyURL "/api/v1/blog/images/" (NewObjectID env)) /\
     db_of out =
       with_Images d
         (Images d ++ [mkBlogImage (NewObjectID env) (up_UserID r)
                                   (base64_EncodeToString buf)
                                   (Z.of_nat (String.length buf)) (Now env)])) \/
  (StatusCode (fst out) <> StatusOK /\ db_of out = d).
Proof.
  intros Q out. subst out. unfold post_image, UploadPostImage.
  destruct (up_UserID r =? NilObjectID); [right; split; [discriminate|reflexivity]|].
  destruct (ParseMultipartForm r) as [form|];
    [|right; split; [discriminate|reflexivity]].
  destruct (FormFile form "image") as [file|];
    [|right; split; [discriminate|reflexivity]].
  destruct (part_Data file) as [imgData|];
    [|right; split; [discriminate|reflexivity]].
  destruct (negb _ && negb _ && negb _);
    [right; split; [discriminate|reflexivity]|].
  destruct (image_Decode imgData) as [img|];
    [|right; split; [discriminate|reflexivity]].
  destruct (jpeg_Encode _ 65) as [buf|] eqn:Enc;
    [|right; split; [discriminate|reflexivity]].
  unfold Images_InsertOne. handler_start. op_step Q.
  destruct (fails env 0).
  - right. split; [discriminate|reflexivity].
  - left. exists (resizeCover scaled_pixels img 800), buf.
    split; [apply Dx_resizeCover; lia|]. split; [exact Enc|].
    split; reflexivity.
Qed.

(** An image that was uploaded is served back byte for byte under the id
    of the URL that the upload answered: the bytes are the JPEG encoding
    of an image at most 800 pixels wide, sent as [image/jpeg] with their
    length.  ([DecodeString] undoes [EncodeToString], and the id that
    [NewObjectID] hands out is new.) *)
Theorem UploadPostImage_then_ServeImage :
  forall (r : UploadRequest) (env env' : Env) (d : DB),
  (forall b, base64_DecodeString (base64_EncodeToString b) = Some b) ->
  quiet env -> quiet env' -> fails env' 0 = false ->
  existsb (fun i => image_ID i =? NewObjectID env) (Images d) = false ->
  let up := run (post_image r) env d in
  StatusCode (fst up) = StatusOK ->
  exists resized buf,
    Dx (Bounds resized) <= 800 /\ jpeg_Encode resized 65 = Some buf /\
    fst up = json_OK (BodyURL "/api/v1/blog/images/" (NewObjectID env)) /\
    fst (run (ServeImage base64_DecodeString (Some (NewObjectID env))) env'
             (db_of up)) =
    Encoded (mkImageReply "image/jpeg" "public, max-age=604800, immutable"
                          (Z.of_nat (String.length buf)) buf).
Proof.
  intros r env env' d RT Q Q' F0 Fresh up Hok.
  destruct (UploadPostImage_run r env d Q) as [(resized & buf & W & Enc & A & B)|[N _]];
    [|contradiction].
  fold up in A, B. exists resized, buf.
  split; [exact W|]. split; [exact Enc|]. split; [exact A|].
  rewrite B. unfold ServeImage, Images_FindOne. handler_start. op_step Q'.
  rewrite F0. unfold coll_FindOne. cbn [Images with_Images fst snd].
  rewrite find_snoc_fresh; [| exact Fresh | cbn; apply Z.eqb_refl].
  cbn [image_Data]. now rewrite RT.
Qed.

(** An upload that does not answer 200 stores nothing: no image document
    is inserted and no profile is changed, whichever check or store
    operation failed. *)
Theorem upload_failure_stores_nothing :
  forall (r : UploadRequest) (env : Env) (d : DB),
  quiet env ->
  (StatusCode (fst (run (post_image r) env d)) <> StatusOK ->
   db_of (run (post_image r) env d) = d) /\
  (StatusCode (fst (run (avatar r) env d)) <> StatusOK ->
   db_of (run (avatar r) env d) = d).
Proof.
  intros r env d Q. split.
  - intros N.
    destruct (UploadPostImage_run r env d Q) as [(resized & buf & _ & _ & A & _)|[_ E]];
      [|exact E].
    exfalso. apply N. now rewrite A.
  - unfold avatar, UploadAvatar.
    destruct (up_UserID r =? NilObjectID); [reflexivity|].
    destruct (ParseMultipartForm r) as [form|]; [|reflexivity].
    destruct (FormFile form "avatar") as [file|]; [|reflexivity].
    destruct (negb _ && negb _); [reflexivity|].
    destruct (part_Data file) as [imgData|]; [|reflexivity].
    destruct (image_Decode imgData) as [img|]; [|reflexivity].
    destruct (jpeg_Encode _ 80) as [buf|]; [|reflexivity].
    unfold Profiles_UpdateOne_avatar, Profiles_FindOne.
    handler_start. op_step Q.
    destruct (fails env 0); [reflexivity|].
    pose proof (UpdateOne_count (fun p => profile_UserID p =? up_UserID r)
                  (fun p => mkProfile (profile_UserID p) (profile_Name p)
                              ("data:image/jpeg;base64," ++ base64_EncodeToString buf)
                              (profile_Role p) (Now env)) (Profiles d)) as C.
    pose proof (UpdateOne_unmatched (fun p => profile_UserID p =? up_UserID r)
                  (fun p => mkProfile (profile_UserID p) (profile_Name p)
                              ("data:image/jpeg;base64," ++ base64_EncodeToString buf)
                              (profile_Role p) (Now env)) (Profiles d)) as U.
    destruct (coll_UpdateOne _ _ (Profiles d)) as [n ps]. cbn [fst snd] in *.
    destruct (existsb _ (Profiles d)); subst n; cbn [Z.eqb].
    + op_step Q. intros N. exfalso. apply N.
      destruct (fails env 1); reflexivity.
    + intros _. unfold db_of. cbn [snd db]. rewrite U by reflexivity.
      destruct d; reflexivity.
Qed.
(** A successful avatar upload sets the avatar of the caller's profile to
    a JPEG data URL of a 256 by 256 image and stamps the profile with the
    time of the upload; no other profile and no other collection
    changes, and the answer is the updated profile when reading it back
    succeeds. *)
Theorem UploadAvatar_stores :
  forall (r : UploadRequest) (env : Env) (d : DB),
  quiet env ->
  let out := run (avatar r) env d in
  let u := up_UserID r in
  StatusCode (fst out) = StatusOK ->
  exists resized buf old,
    Bounds resized = mkRectangle 0 0 256 256 /\
    jpeg_Encode resized 80 = Some buf /\
    profile_of d u = Some old /\
    let updated :=
      with_avatar ("data:image/jpeg;base64," ++ base64_EncodeToString buf)
                  (Now env) old in
    profile_of (db_of out) u = Some updated /\
    (forall u', u' <> u -> profile_of (db_of out) u' = profile_of d u') /\
    (fails env 1 = false -> fst out = json_OK (BodyProfile updated)) /\
    Posts (db_of out) = Posts d /\ PostComments (db_of out) = PostComments d /\
    PostLikes (db_of out) = PostLikes d /\ PostViews (db_of out) = PostViews d /\
    Images (db_of out) = Images d.
Proof.
  intros r env d Q out u. subst out. unfold avatar, UploadAvatar. fold u.
  destruct (u =? NilObjectID); [discriminate|].
  destruct (ParseMultipartForm r) as [form|]; [|discriminate].
  destruct (FormFile form "avatar") as [file|]; [|discriminate].
  destruct (negb _ && negb _); [discriminate|].
  destruct (part_Data file) as [imgData|]; [|discriminate].
  destruct (image_Decode imgData) as [img|]; [|discriminate].
  destruct (jpeg_Encode _ 80) as [buf|] eqn:Enc; [|discriminate].
  unfold Profiles_UpdateOne_avatar, Profiles_FindOne.
  handler_start. op_step Q.
  destruct (fails env 0); [discriminate|].
  set (upd := fun p : Profile =>
                mkProfile (profile_UserID p) (profile_Name p)
                          ("data:image/jpeg;base64," ++ base64_EncodeToString buf)
                          (profile_Role p) (Now env)).
  pose proof (UpdateOne_count (fun p => profile_UserID p =? u) upd (Profiles d)) as C.
  pose proof (fun k' => UpdateOne_find profile_UserID u k' upd (Profiles d)
                          (fun x => eq_refl)) as Fd.
  destruct (coll_UpdateOne _ upd (Profiles d)) as [n ps]. cbn [fst snd] in *.
  destruct (existsb _ (Profiles d)) eqn:Ex; subst n; cbn [Z.eqb]; [|discriminate].
  destruct (find (fun p => profile_UserID p =? u) (Profiles d)) as [old|] eqn:Hold.
  2:{ apply existsb_find_none in Hold. congruence. }
  op_step Q. intros _.
  exists (resizeImage scaled_pixels
            (applyExifOrientation Exif ExifTag exif_Decode exif_Get_Orientation
                                  tag_Int imgData img) 256 256), buf, old.
  split; [reflexivity|]. split; [exact Enc|]. split; [exact Hold|].
  assert (Hnew : profile_of (with_Profiles d ps) u = Some (upd old)).
  { unfold profile_of. cbn [Profiles with_Profiles].
    rewrite Fd, Z.eqb_refl. reflexivity. }
  cbv zeta. unfold with_avatar. fold (upd old).
  destruct (fails env 1) eqn:F1; unfold db_of; cbn [fst snd db effects].
  - split; [exact Hnew|]. split.
    + intros u' N. unfold profile_of. cbn [Profiles with_Profiles].
      rewrite Fd. destruct (Z.eqb_spec u' u); [contradiction|reflexivity].
    + split; [discriminate|]. repeat split.
  - split; [exact Hnew|]. split.
    + intros u' N. unfold profile_of. cbn [Profiles with_Profiles].
      rewrite Fd. destruct (Z.eqb_spec u' u); [contradiction|reflexivity].
    + split.
      * intros _. unfold coll_FindOne. unfold profile_of in Hnew. rewrite Hnew.
        reflexivity.
      * repeat split.
Qed.
End UploadStore.

Lemma UploadPostImage_then_ServeImage_witness :
  exists resized buf,
    Dx (Bounds resized) <= 800 /\ encode_tiny resized 65 = Some buf /\
    fst sample_UploadPostImage = json_OK (BodyURL "/api/v1/blog/images/" 100) /\
    fst (run (ServeImage Some (Some 100)) calm (db_of sample_UploadPostImage)) =
    Encoded (mkImageReply "image/jpeg" "public, max-age=604800, immutable"
                          (Z.of_nat (String.length buf)) buf).
Proof.
  exact (UploadPostImage_then_ServeImage no_scaling decode_tiny encode_tiny
           (fun s => s) Some detect_jpeg sample_upload calm calm sample_db
           (fun b => eq_refl) quiet_calm quiet_calm eq_refl eq_refl eq_refl).
Defined.

Lemma upload_failure_stores_nothing_witness :
  db_of (run (UploadPostImage no_scaling decode_tiny encode_tiny (fun s => s)
                detect_jpeg sample_upload) (failing_at 0) sample_db) = sample_db.
Proof.
  assert (N : StatusCode
                (fst (run (UploadPostImage no_scaling decode_tiny encode_tiny
                             (fun s => s) detect_jpeg sample_upload)
                          (failing_at 0) sample_db)) <> StatusOK)
    by discriminate.
  exact (proj1 (upload_failure_stores_nothing unit unit no_exif no_tag no_int
                  no_scaling decode_tiny encode_tiny (fun s => s) detect_jpeg
                  sample_upload (failing_at 0) sample_db (quiet_failing_at 0)) N).
Defined.

Lemma UploadAvatar_stores_witness :
  profile_of
    (db_of (run (UploadAvatar unit unit no_exif no_tag no_int no_scaling
                   decode_tiny encode_tiny (fun s => s) sample_avatar_upload)
                calm profiled_db)) 42 =
  Some (mkProfile 42 "bia" "data:image/jpeg;base64,JPEG" "user" 1000).
Proof.
  destruct (UploadAvatar_stores unit unit no_exif no_tag no_int no_scaling
              decode_tiny encode_tiny (fun s => s) sample_avatar_upload calm
              profiled_db quiet_calm eq_refl)
    as (resized & buf & old & _ & Enc & Hold & Hnew & _).
  injection Enc as <-. injection Hold as <-. exact Hnew.
Defined.

(* ================================================================= *)
(** ** Deleting a post *)

Section DeletePostProofs.
Variable ObjectIDFromHex : string -> option ObjectID.

(** [DeletePost] lets the author of a post and an admin delete it, and
    nobody else: with every store operation succeeding and a post that the
    path value selects, these callers get 200, the post with that id is
    removed and nothing else is (its comments, likes and view markers stay
    in the store); any other caller gets 403 and the store is left as it
    was. *)
Theorem DeletePost_owner_or_admin :
  forall (r : DeletePostRequest) (env : Env) (d : DB) (post : BlogPost),
  store_ok d -> quiet env -> no_faults env ->
  dp_UserID r <> NilObjectID ->
  find (delete_filter ObjectIDFromHex (dp_ID r)) (Posts d) = Some post ->
  let out := run (DeletePost ObjectIDFromHex r) env d in
  let allowed := (post_AuthorID post =? dp_UserID r) || is_admin d (dp_UserID r) in
  (allowed = true ->
   fst out = json_OK (BodyMessage "Post deleted") /\
   Posts (db_of out) =
     List.filter (fun p => negb (post_ID p =? post_ID post)) (Posts d) /\
   post_by_id (db_of out) (post_ID post) = None /\
   PostComments (db_of out) = PostComments d /\
   PostLikes (db_of out) = PostLikes d /\
   PostViews (db_of out) = PostViews d /\
   Profiles (db_of out) = Profiles d /\ Images (db_of out) = Images d) /\
  (allowed = false ->
   StatusCode (fst out) = StatusForbidden /\ db_of out = d /\ effects_of out = []).
Proof.
  intros r env d post (ND & _) Q NF Hu Hf out allowed.
  assert (Gone : post_by_id
                   (with_Posts d (List.filter
                                    (fun p => negb (post_ID p =? post_ID post))
                                    (Posts d))) (post_ID post) = None).
  { unfold post_by_id. cbn [Posts with_Posts].
    destruct (find _ (List.filter _ (Posts d))) as [p|] eqn:E; [|reflexivity].
    apply find_some in E. destruct E as [Hin Hp].
    apply filter_In in Hin. destruct Hin as [_ Hn].
    rewrite Hp in Hn. discriminate. }
  subst out allowed. unfold DeletePost, is_admin.
  destruct (Z.eqb_spec (dp_UserID r) NilObjectID) as [E|_]; [contradiction|].
  handler_start. store_step Q. rewrite (NF 0%nat), Hf.
  pose proof (DeleteOne_by_id post_ID (post_ID post) (Posts d) ND) as Dl.
  destruct (Z.eqb_spec (post_AuthorID post) (dp_UserID r)) as [A|A];
    cbn [negb orb].
  - unfold Posts_DeleteOne. op_step Q. rewrite (NF 1%nat).
    destruct (coll_DeleteOne _ (Posts d)) as [n ps]. cbn [fst snd] in *.
    subst ps. unfold db_of. cbn [fst snd db].
    split; [intros _ | discriminate].
    split; [reflexivity|]. split; [reflexivity|]. split; [exact Gone|].
    repeat split.
  - unfold Profiles_FindOne. op_step Q. rewrite (NF 1%nat). unfold coll_FindOne.
    destruct (find _ (Profiles d)) as [profile|]; cbn [fst snd].
    + destruct (profile_Role profile =? "admin")%string; cbn [negb].
      * unfold Posts_DeleteOne. op_step Q. rewrite (NF 2%nat).
        destruct (coll_DeleteOne _ (Posts d)) as [n ps]. cbn [fst snd] in *.
        subst ps. unfold db_of. cbn [fst snd db].
        split; [intros _ | discriminate].
        split; [reflexivity|]. split; [reflexivity|]. split; [exact Gone|].
        repeat split.
      * split; [discriminate|]. intros _. repeat split.
    + split; [discriminate|]. intros _. repeat split.
Qed.
End DeletePostProofs.

Lemma DeletePost_owner_or_admin_witness :
  StatusCode (fst (run (DeletePost never_hex (mkDeletePostRequest 42 "hello"))
                       calm sample_db)) = StatusForbidden /\
  Posts (db_of (run (DeletePost never_hex (mkDeletePostRequest 7 "hello"))
                    calm sample_db)) = [].
Proof.
  assert (H42 : dp_UserID (mkDeletePostRequest 42 "hello") <> NilObjectID)
    by discriminate.
  assert (H7 : dp_UserID (mkDeletePostRequest 7 "hello") <> NilObjectID)
    by discriminate.
  split.
  - destruct (DeletePost_owner_or_admin never_hex (mkDeletePostRequest 42 "hello")
                calm sample_db sample_post store_ok_sample_db quiet_calm
                no_faults_calm H42 eq_refl) as (_ & B).
    exact (proj1 (B eq_refl)).
  - destruct (DeletePost_owner_or_admin never_hex (mkDeletePostRequest 7 "hello")
                calm sample_db sample_post store_ok_sample_db quiet_calm
                no_faults_calm H7 eq_refl) as (A & _).
    destruct (A eq_refl) as (_ & P & _). exact P.
Defined.

(* ================================================================= *)
(** ** How the image transforms compose *)

Lemma spec_quarter_twice (g : Grid) :
  grid_eq (spec_rotate_90_cw (spec_rotate_90_cw g)) (spec_rotate_180 g).
Proof. repeat split; simpl; auto. Qed.

Lemma spec_flips_compose (g : Grid) :
  grid_eq (spec_flip_vertical (spec_flip_horizontal g)) (spec_rotate_180 g) /\
  grid_eq (spec_flip_horizontal (spec_flip_vertical g)) (spec_rotate_180 g).
Proof. split; repeat split; simpl; auto. Qed.

(** Two clockwise quarter turns, called the way [applyExifOrientation]
    calls them (new width and height swapped), build the very image that
    [rotate180] builds: same bounds, same stride, same pixels. *)
Theorem rotate90CW_twice_is_rotate180 :
  forall img : Image,
  well_formed (Bounds img) ->
  let w := Dx (Bounds img) in
  let h := Dy (Bounds img) in
  rotate90CW (rotate90CW img h w) w h = rotate180 img.
Proof.
  intros img Hwf w h.
  destruct (rotate90CW_grid img Hwf) as [Pq Gq]. fold w h in Pq, Gq.
  set (q := rotate90CW img h w) in *.
  pose proof (pixel_grid_well_formed q Pq) as Hq.
  destruct (grid_dims_of_eq _ _ Gq) as [Dw Dh].
  change (Dx (Bounds q) = h) in Dw. change (Dy (Bounds q) = w) in Dh.
  destruct (rotate90CW_grid q Hq) as [Pqq Gqq]. rewrite Dw, Dh in Pqq, Gqq.
  destruct (rotate180_grid img Hwf) as [P180 G180].
  apply pixel_grid_ext; auto.
  eapply grid_eq_trans; [exact Gqq|].
  eapply grid_eq_trans; [apply (spec_correction_eq 6); [lia | exact Gq]|].
  eapply grid_eq_trans; [apply spec_quarter_twice|].
  apply grid_eq_sym. exact G180.
Qed.

Lemma rotate90CW_twice_is_rotate180_witness :
  well_formed (Bounds test_image) /\
  rotate90CW (rotate90CW test_image 3 2) 2 3 = rotate180 test_image.
Proof.
  assert (Hwf : well_formed (Bounds test_image)) by (split; simpl; lia).
  split; [exact Hwf|].
  exact (rotate90CW_twice_is_rotate180 test_image Hwf).
Defined.

(** Mirroring left to right and then top to bottom, or the other way
    round, builds the image that [rotate180] builds: the two flips
    commute and compose to the half turn. *)
Theorem flips_compose_to_rotate180 :
  forall img : Image,
  well_formed (Bounds img) ->
  flipVertical (flipHorizontal img) = rotate180 img /\
  flipHorizontal (flipVertical img) = rotate180 img.
Proof.
  intros img Hwf.
  destruct (flipHorizontal_grid img Hwf) as [Ph Gh].
  destruct (flipVertical_grid img Hwf) as [Pv Gv].
  destruct (flipVertical_grid _ (pixel_grid_well_formed _ Ph)) as [Pvh Gvh].
  destruct (flipHorizontal_grid _ (pixel_grid_well_formed _ Pv)) as [Phv Ghv].
  destruct (rotate180_grid img Hwf) as [P180 G180].
  destruct (spec_flips_compose (grid_of img)) as [C1 C2].
  split; apply pixel_grid_ext; auto.
  - eapply grid_eq_trans; [exact Gvh|].
    eapply grid_eq_trans; [apply (spec_correction_eq 4); [lia | exact Gh]|].
    eapply grid_eq_trans; [exact C1|]. apply grid_eq_sym. exact G180.
  - eapply grid_eq_trans; [exact Ghv|].
    eapply grid_eq_trans; [apply (spec_correction_eq 2); [lia | exact Gv]|].
    eapply grid_eq_trans; [exact C2|]. apply grid_eq_sym. exact G180.
Qed.

Lemma flips_compose_to_rotate180_witness :
  flipVertical (flipHorizontal test_image) = rotate180 test_image.
Proof.
  assert (Hwf : well_formed (Bounds test_image)) by (split; simpl; lia).
  exact (proj1 (flips_compose_to_rotate180 test_image Hwf)).
Defined.

(** ** Sizes that [resizeCover] never exceeds *)

(** [resizeCover] never enlarges: the result is neither wider nor taller
    than the source.  A source much wider than high loses its height
    altogether: when [sourceHeight * maxWidth] is below the source width,
    the result is [maxWidth] wide and 0 pixels high. *)
Theorem resizeCover_never_enlarges :
  forall scaled_pixels (img : Image) (maxWidth : Z),
  well_formed (Bounds img) -> 0 <= maxWidth ->
  Dx (Bounds img) < 2 ^ 53 -> Dy (Bounds img) * maxWidth < 2 ^ 51 ->
  let out := resizeCover scaled_pixels img maxWidth in
  Dx (Bounds out) <= Dx (Bounds img) /\
  Dy (Bounds out) <= Dy (Bounds img) /\
  (maxWidth < Dx (Bounds img) -> Dy (Bounds img) * maxWidth < Dx (Bounds img) ->
   Bounds out = mkRectangle 0 0 maxWidth 0).
Proof.
  intros scaled_pixels img maxWidth [WX WY] Hm HW HP out.
  set (srcW := Dx (Bounds img)) in *. set (srcH := Dy (Bounds img)) in *.
  assert (HH : 0 <= srcH) by (unfold srcH, Dy; lia).
  subst out. unfold resizeCover. fold srcW srcH.
  destruct (Z.leb_spec srcW maxWidth) as [C|C].
  - fold srcW srcH. split; [lia|]. split; [lia|]. intros; lia.
  - rewrite scaled_height by lia.
    assert (Q0 : 0 <= srcH * maxWidth / srcW) by (apply Z.div_pos; nia).
    assert (Q1 : srcH * maxWidth / srcW <= srcH)
      by (apply Z.div_le_upper_bound; nia).
    cbn [Bounds draw_Scale Rect image_NewRGBA].
    rewrite image_Rect_origin by lia.
    unfold Dx at 1, Dy at 1. cbn [MinX MinY MaxX MaxY].
    split; [lia|]. split; [lia|].
    intros _ Small. now rewrite Z.div_small by lia.
Qed.

(** A banner of 1601 by 1 pixels becomes 800 by 0. *)
Lemma resizeCover_never_enlarges_witness :
  well_formed (Bounds (black_image 1601 1)) /\
  Bounds (resizeCover no_scaling (black_image 1601 1) 800) = mkRectangle 0 0 800 0.
Proof.
  assert (Hwf : well_formed (Bounds (black_image 1601 1))) by (split; simpl; lia).
  assert (Hm : 0 <= 800) by lia.
  assert (HW : Dx (Bounds (black_image 1601 1)) < 2 ^ 53) by reflexivity.
  assert (HP : Dy (Bounds (black_image 1601 1)) * 800 < 2 ^ 51) by reflexivity.
  split; [exact Hwf|].
  destruct (resizeCover_never_enlarges no_scaling (black_image 1601 1) 800
              Hwf Hm HW HP) as (_ & _ & Hz).
  apply Hz; reflexivity.
Defined.

(* ================================================================= *)
(** ** Paths of the request metrics *)

Lemma splitPath_step_plain (result : list runes) (current s : runes) :
  forallb not_slash s = true ->
  fold_left splitPath_step s (result, current) = (result, current ++ s).
Proof.
  revert current. induction s as [|c s IH]; intros current H; simpl.
  - now rewrite app_nil_r.
  - simpl in H. apply andb_true_iff in H. destruct H as [Hc Hs].
    unfold not_slash in Hc. apply negb_true_iff in Hc. rewrite Hc, IH by exact Hs.
    now rewrite <- app_assoc.
Qed.

Lemma nonempty_app (a b : runes) : nonempty (a ++ b) = nonempty a || nonempty b.
Proof. destruct a; reflexivity. Qed.

(** The loop of [splitPath] keeps its segments well formed. *)
Lemma splitPath_loop_segments (path : runes) :
  forall (result : list runes) (current : runes),
  Forall (fun s => is_segment s = true) result ->
  forallb not_slash current = true ->
  Forall (fun s => is_segment s = true)
         (fst (fold_left splitPath_step path (result, current))) /\
  forallb not_slash
          (snd (fold_left splitPath_step path (result, current))) = true.
Proof.
  induction path as [|c path IH]; intros result current Hr Hc;
    cbn [fold_left splitPath_step].
  - split; assumption.
  - destruct (Z.eqb_spec c slash) as [E|N].
    + destruct (nonempty current) eqn:Ne.
      * apply IH; auto. apply Forall_app. split; [exact Hr|].
        constructor; [|constructor]. unfold is_segment. now rewrite Ne, Hc.
      * apply IH; auto.
    + apply IH; auto. rewrite forallb_app, Hc. simpl. unfold not_slash.
      apply Z.eqb_neq in N. now rewrite N.
Qed.

(** The loop of [splitPath] drops the slashes and nothing else. *)
Lemma splitPath_loop_content (path : runes) :
  forall (result : list runes) (current : runes),
  List.concat (fst (fold_left splitPath_step path (result, current))) ++
  snd (fold_left splitPath_step path (result, current)) =
  List.concat result ++ current ++
  List.filter not_slash path.
Proof.
  induction path as [|c path IH]; intros result current;
    cbn [fold_left splitPath_step List.filter].
  - now rewrite app_nil_r.
  - destruct (Z.eqb_spec c slash) as [E|N].
    + assert (Hn : not_slash c = false)
        by (unfold not_slash; rewrite E; reflexivity).
      rewrite Hn.
      destruct current as [|x current]; cbn [nonempty]; rewrite IH; [reflexivity|].
      rewrite concat_app. simpl. now rewrite app_nil_r, <- !app_assoc.
    + assert (Hn : not_slash c = true)
        by (unfold not_slash; apply negb_true_iff, Z.eqb_neq; exact N).
      rewrite Hn, IH. now rewrite <- !app_assoc.
Qed.

Lemma splitPath_content (path : runes) :
  Forall (fun s => is_segment s = true) (splitPath path) /\
  List.concat (splitPath path) = List.filter not_slash path.
Proof.
  unfold splitPath.
  set (st := fold_left splitPath_step path ([], [])).
  assert (Sg : Forall (fun s => is_segment s = true) (fst st) /\
              forallb not_slash (snd st) = true)
    by exact (splitPath_loop_segments path [] [] (Forall_nil _) eq_refl).
  assert (C : List.concat (fst st) ++ snd st = List.filter not_slash path)
    by exact (splitPath_loop_content path [] []).
  clearbody st. destruct st as [result current]. destruct Sg as [S1 S2].
  cbn [fst snd] in *.
  destruct current as [|x current]; cbn [nonempty].
  - split; [exact S1|]. now rewrite app_nil_r in C.
  - split.
    + apply Forall_app. split; [exact S1|].
      constructor; [|constructor]. unfold is_segment. now rewrite S2.
    + rewrite concat_app. simpl. now rewrite app_nil_r.
Qed.

Lemma is_segment_inv (s : runes) :
  is_segment s = true ->
  nonempty s = true /\ forallb not_slash s = true.
Proof. unfold is_segment. intros H. now apply andb_true_iff in H. Qed.

Lemma step_slash (result : list runes) (current : runes) :
  splitPath_step (result, current) slash =
  if nonempty current then (result ++ [current], []) else (result, current).
Proof. reflexivity. Qed.

Lemma join_path_snoc (segments : list runes) (s : runes) :
  join_path (segments ++ [s]) = join_path segments ++ slash :: s.
Proof.
  unfold join_path. rewrite map_app, concat_app. simpl. now rewrite app_nil_r.
Qed.

(** The state of the loop after a path that spells a list of segments. *)
Lemma splitPath_loop_join (segments : list runes) :
  Forall (fun s => is_segment s = true) segments ->
  fold_left splitPath_step (join_path segments) ([], []) =
  match segments with
  | [] => ([], [])
  | _ :: _ => (removelast segments, last segments [])
  end.
Proof.
  induction segments as [|s segments IH] using rev_ind; intros H; [reflexivity|].
  apply Forall_app in H. destruct H as [Hs Hn].
  inversion Hn as [|? ? Hseg _]; subst.
  apply is_segment_inv in Hseg. destruct Hseg as [Ne Ns].
  rewrite join_path_snoc, fold_left_app, (IH Hs).
  assert (R : removelast (segments ++ [s]) = segments) by apply removelast_last.
  assert (L : last (segments ++ [s]) [] = s) by apply last_last.
  destruct (segments ++ [s]) as [|y l] eqn:E.
  { destruct segments; discriminate. }
  rewrite R, L. clear R L E y l.
  destruct segments as [|y l]; cbn [fold_left].
  - rewrite step_slash. cbn [nonempty].
    now rewrite splitPath_step_plain by exact Ns.
  - rewrite step_slash.
    assert (Hl : is_segment (last (y :: l) []) = true).
    { assert (In (last (y :: l) []) (y :: l)).
      { destruct (exists_last (l:=y :: l)) as (l' & a & E); [discriminate|].
        rewrite E, last_last. apply in_or_app. right. now left. }
      rewrite Forall_forall in Hs. now apply Hs. }
    apply is_segment_inv in Hl. destruct Hl as [Hne _]. rewrite Hne.
    rewrite splitPath_step_plain by exact Ns. cbn [app]. f_equal.
    symmetry. apply app_removelast_last. discriminate.
Qed.

Lemma splitPath_of_join (segments : list runes) :
  Forall (fun s => is_segment s = true) segments ->
  splitPath (join_path segments) = segments.
Proof.
  intros H. unfold splitPath. rewrite splitPath_loop_join by exact H.
  destruct segments as [|s l]; [reflexivity|].
  assert (Hl : is_segment (last (s :: l) []) = true).
  { assert (In (last (s :: l) []) (s :: l)).
    { destruct (exists_last (l:=s :: l)) as (l' & a & E); [discriminate|].
      rewrite E, last_last. apply in_or_app. right. now left. }
    rewrite Forall_forall in H. now apply H. }
  apply is_segment_inv in Hl. destruct Hl as [Hne _]. rewrite Hne.
  symmetry. apply app_removelast_last. discriminate.
Qed.


(** Every segment that [splitPath] returns is non-empty and free of
    slashes, and the segments, one after the other, are the path without
    its slashes: empty segments (doubled, leading or trailing slashes)
    are dropped and nothing else is lost.  Splitting the path that a list
    of such segments spells gives the segments back. *)
Theorem splitPath_segments :
  forall path : runes,
  Forall (fun s => is_segment s = true) (splitPath path) /\
  List.concat (splitPath path) = List.filter not_slash path /\
  splitPath (join_path (splitPath path)) = splitPath path /\
  (splitPath path = [] <-> forallb (fun c => c =? slash) path = true).
Proof.
  intros path. destruct (splitPath_content path) as [Sg C].
  split; [exact Sg|]. split; [exact C|].
  split; [apply splitPath_of_join; exact Sg|].
  split.
  - intros E. rewrite E in C. simpl in C. clear -C.
    induction path as [|c path IH]; [reflexivity|]. simpl in *.
    unfold not_slash in C at 1.
    destruct (c =? slash); [apply IH; exact C | discriminate].
  - intros A.
    assert (F : List.filter not_slash path = []).
    { clear -A. induction path as [|c path IH]; [reflexivity|]. simpl in *.
      apply andb_true_iff in A. destruct A as [Hc Hp].
      unfold not_slash at 1. rewrite Hc. simpl. now apply IH. }
    rewrite F in C. destruct (splitPath path) as [|s l]; [reflexivity|].
    inversion Sg as [|? ? Hs _]; subst.
    destruct s; [discriminate|]. discriminate.
Qed.

Lemma normalize_segments (segs acc : list runes) :
  fold_left (fun segments seg =>
               if isID seg then segments ++ [id_placeholder]
               else segments ++ [seg]) segs acc =
  acc ++ map normal_segment segs.
Proof.
  revert acc. induction segs as [|s segs IH]; intros acc; simpl.
  - now rewrite app_nil_r.
  - unfold normal_segment at 1.
    destruct (isID s); rewrite IH, <- app_assoc; reflexivity.
Qed.

Lemma join_fold (segs : list runes) (acc : runes) :
  fold_left (fun result s => result ++ [slash] ++ s) segs acc =
  acc ++ join_path segs.
Proof.
  revert acc. induction segs as [|s segs IH]; intros acc; simpl.
  - now rewrite app_nil_r.
  - rewrite IH. unfold join_path. simpl. now rewrite <- app_assoc.
Qed.

(** [normalizePathForMetrics] in closed form. *)
Lemma normalizePathForMetrics_eq (path : runes) :
  normalizePathForMetrics path =
  match splitPath path with
  | [] => [slash]
  | _ :: _ => join_path (map normal_segment (splitPath path))
  end.
Proof.
  unfold normalizePathForMetrics. rewrite normalize_segments. cbn [app].
  destruct (splitPath path) as [|s l]; [reflexivity|].
  cbn [map List.length Nat.eqb]. now rewrite join_fold.
Qed.

(** 24 bytes that are all hexadecimal digits are 24 runes. *)
Lemma hex_byte_len (s : runes) :
  forallb is_hex s = true -> byte_len s = Z.of_nat (List.length s).
Proof.
  induction s as [|c s IH]; [reflexivity|]. cbn [forallb byte_len List.length].
  intros H. apply andb_true_iff in H. destruct H as [Hc Hs].
  rewrite IH by exact Hs. rewrite Nat2Z.inj_succ.
  assert (c < 128).
  { unfold is_hex in Hc.
    apply orb_true_iff in Hc. destruct Hc as [Hc|Hc].
    - apply orb_true_iff in Hc. destruct Hc as [Hc|Hc];
        apply andb_true_iff in Hc; destruct Hc as [_ Hc];
        apply Z.leb_le in Hc; lia.
    - apply andb_true_iff in Hc. destruct Hc as [_ Hc].
      apply Z.leb_le in Hc. lia. }
  unfold utf8_len. destruct (Z.ltb_spec c 128); lia.
Qed.

(** [isID] accepts exactly the strings of 24 hexadecimal digits: the
    length it tests is a length in bytes, and a string all of whose runes
    are hexadecimal digits has as many bytes as runes. *)
Theorem isID_exact :
  forall s : runes,
  isID s = true <-> List.length s = 24%nat /\ forallb is_hex s = true.
Proof.
  intros s. unfold isID. split.
  - destruct (Z.eqb_spec (byte_len s) 24) as [E|N]; [|discriminate].
    intros H. split; [|exact H]. rewrite hex_byte_len in E by exact H. lia.
  - intros [L H]. rewrite hex_byte_len by exact H. rewrite L. exact H.
Qed.

Lemma isID_placeholder : isID id_placeholder = false.
Proof. reflexivity. Qed.

Lemma normal_segment_idem (s : runes) :
  normal_segment (normal_segment s) = normal_segment s.
Proof.
  unfold normal_segment. destruct (isID s) eqn:E.
  - now rewrite isID_placeholder.
  - now rewrite E.
Qed.

Lemma normal_segment_segment (s : runes) :
  is_segment s = true -> is_segment (normal_segment s) = true.
Proof. unfold normal_segment. destruct (isID s); auto. Qed.

(** [normalizePathForMetrics] gives a canonical path: it starts with a
    slash, has neither empty segments nor a trailing slash (the root is
    ["/"]), every segment that is an object id has become [":id"], and
    normalising it again changes nothing. *)
Theorem normalizePathForMetrics_canonical :
  forall path : runes,
  let n := normalizePathForMetrics path in
  (splitPath path = [] -> n = [slash]) /\
  (splitPath path <> [] -> n = join_path (map normal_segment (splitPath path))) /\
  splitPath n = map normal_segment (splitPath path) /\
  Forall (fun s => isID s = false) (splitPath n) /\
  normalizePathForMetrics n = n.
Proof.
  intros path n. subst n.
  pose proof (proj1 (splitPath_content path)) as Hseg.
  rewrite normalizePathForMetrics_eq.
  destruct (splitPath path) as [|s l] eqn:E.
  - repeat split; auto. intros N; contradiction.
  - set (segs := map normal_segment (s :: l)).
    assert (Hs : Forall (fun x => is_segment x = true) segs).
    { subst segs. apply Forall_forall. intros x Hx.
      apply in_map_iff in Hx. destruct Hx as (y & <- & Hy).
      apply normal_segment_segment. rewrite Forall_forall in Hseg. now apply Hseg. }
    assert (Hsp : splitPath (join_path segs) = segs)
      by (apply splitPath_of_join; exact Hs).
    split; [discriminate|]. split; [reflexivity|]. split; [exact Hsp|].
    split.
    + rewrite Hsp. subst segs. apply Forall_forall. intros x Hx.
      apply in_map_iff in Hx. destruct Hx as (y & <- & Hy).
      unfold normal_segment. destruct (isID y) eqn:Ey; [reflexivity | exact Ey].
    + rewrite normalizePathForMetrics_eq, Hsp.
      assert (M : map normal_segment segs = segs).
      { subst segs. rewrite map_map. apply map_ext. apply normal_segment_idem. }
      rewrite M. subst segs. reflexivity.
Qed.

(* ================================================================= *)
(** ** Keys of the request metrics *)

Lemma string_length_app (a b : string) :
  String.length (a ++ b) = (String.length a + String.length b)%nat.
Proof. induction a as [|c a IH]; simpl; [reflexivity | now rewrite IH]. Qed.

Lemma string_app_nil_r (a : string) : (a ++ "")%string = a.
Proof. induction a as [|c a IH]; simpl; [reflexivity | now rewrite IH]. Qed.

Lemma substring_prefix (a b : string) :
  substring 0 (String.length a) (a ++ b) = a.
Proof.
  induction a as [|c a IH]; simpl.
  - destruct b; reflexivity.
  - now rewrite IH.
Qed.

Lemma substring_skip (a b : string) (n k : nat) :
  substring (String.length a + n) k (a ++ b) = substring n k b.
Proof. induction a as [|c a IH]; simpl; [reflexivity | exact IH]. Qed.

Lemma substring_whole (a : string) : substring 0 (String.length a) a = a.
Proof.
  induction a as [|c a IH]; simpl; [reflexivity | now rewrite IH].
Qed.

(** Bytes that are no underscore move the index and nothing else. *)
Lemma parseKey_scan_plain (s rest : string) (i first last : Z) :
  no_underscore s = true ->
  parseKey_scan (s ++ rest) i first last =
  parseKey_scan rest (i + Z.of_nat (String.length s)) first last.
Proof.
  revert i. induction s as [|c s IH]; intros i H.
  - simpl. now rewrite Z.add_0_r.
  - unfold no_underscore in H. cbn [list_ascii_of_string forallb] in H.
    apply andb_true_iff in H. destruct H as [Hc Hs].
    apply negb_true_iff in Hc.
    cbn [append parseKey_scan String.length]. rewrite Hc.
    rewrite IH by exact Hs. f_equal. lia.
Qed.

(** Once [first] is set it stays. *)
Lemma parseKey_scan_first (s : string) (i first last : Z) :
  first <> -1 -> fst (parseKey_scan s i first last) = first.
Proof.
  revert i last. induction s as [|c s IH]; intros i last H; [reflexivity|].
  cbn [parseKey_scan]. destruct (is_underscore c); [|now apply IH].
  destruct (Z.eqb_spec first (-1)); [contradiction | now apply IH].
Qed.

Lemma parseKey_scan_through (s rest : string) (i first last : Z) :
  first <> -1 ->
  exists last',
    parseKey_scan (s ++ rest) i first last =
    parseKey_scan rest (i + Z.of_nat (String.length s)) first last'.
Proof.
  revert i last. induction s as [|c s IH]; intros i last H.
  - exists last. simpl. now rewrite Z.add_0_r.
  - cbn [append parseKey_scan String.length].
    replace (i + Z.of_nat (S (String.length s)))
      with (i + 1 + Z.of_nat (String.length s)) by lia.
    destruct (is_underscore c); [|now apply IH].
    destruct (Z.eqb_spec first (-1)); [contradiction | now apply IH].
Qed.

Lemma parseKey_scan_underscore (rest : string) (i first last : Z) :
  parseKey_scan ("_" ++ rest) i first last =
  if first =? -1 then parseKey_scan rest (i + 1) i last
  else parseKey_scan rest (i + 1) first i.
Proof. reflexivity. Qed.

(** The two underscores that [parseKey] finds in a key of the middleware. *)
Lemma parseKey_scan_key (method path status : string) :
  no_underscore method = true -> no_underscore status = true ->
  parseKey_scan (metrics_key method path status) 0 (-1) (-1) =
  (Z.of_nat (String.length method),
   Z.of_nat (String.length method) + 1 + Z.of_nat (String.length path)).
Proof.
  intros Hm Hs. unfold metrics_key.
  rewrite parseKey_scan_plain by exact Hm.
  rewrite parseKey_scan_underscore. change (-1 =? -1) with true. cbv iota.
  match goal with
  | |- context [parseKey_scan (path ++ ?r) ?i ?f ?l] =>
      destruct (parseKey_scan_through path r i f l) as (l' & E); [lia|]
  end.
  rewrite E, parseKey_scan_underscore.
  destruct (Z.eqb_spec (0 + Z.of_nat (String.length method)) (-1)); [lia|].
  rewrite <- (string_app_nil_r status) at 1.
  rewrite parseKey_scan_plain by exact Hs. cbn [parseKey_scan].
  f_equal; lia.
Qed.

(** [parseKey] takes a key of [MetricsMiddleware] apart again: for a
    method that is not empty and has no underscore and a status without
    underscore (a number), it returns the method, the path and the
    status, whatever the path is, underscores included. *)
Theorem parseKey_metrics_key :
  forall method path status : string,
  method <> "" ->
  no_underscore method = true -> no_underscore status = true ->
  parseKey (metrics_key method path status) = (method, path, status).
Proof.
  intros method path status Hne Hm Hs. unfold parseKey.
  rewrite parseKey_scan_key by assumption.
  assert (Lm : (0 < String.length method)%nat).
  { destruct method; [contradiction | simpl; lia]. }
  set (m := String.length method) in *. set (p := String.length path).
  destruct (Z.gtb_spec (Z.of_nat m) 0) as [_|C]; [|lia].
  destruct (Z.gtb_spec (Z.of_nat m + 1 + Z.of_nat p) (Z.of_nat m)) as [_|C]; [|lia].
  cbn [andb]. unfold slice, metrics_key.
  rewrite !string_length_app. fold m p. cbn [String.length].
  f_equal; [f_equal|].
  - rewrite Z.sub_0_r, Nat2Z.id. change (Z.to_nat 0) with 0%nat.
    apply substring_prefix.
  - replace (Z.to_nat (Z.of_nat m + 1)) with (m + 1)%nat by lia.
    replace (Z.to_nat (Z.of_nat m + 1 + Z.of_nat p - (Z.of_nat m + 1))) with p by lia.
    unfold m. rewrite substring_skip. change (substring 1 p ("_" ++ path ++ "_" ++ status))
      with (substring 0 p (path ++ "_" ++ status)).
    apply substring_prefix.
  - replace (Z.to_nat (Z.of_nat m + 1 + Z.of_nat p + 1)) with (m + S (p + 1))%nat by lia.
    replace (Z.to_nat (Z.of_nat (m + (1 + (p + (1 + String.length status)))) -
                       (Z.of_nat m + 1 + Z.of_nat p + 1)))
      with (String.length status) by lia.
    unfold m. rewrite substring_skip.
    change (substring (S (p + 1)) (String.length status) ("_" ++ path ++ "_" ++ status))
      with (substring (p + 1) (String.length status) (path ++ "_" ++ status)).
    unfold p. rewrite substring_skip.
    change (substring 1 (String.length status) ("_" ++ status))
      with (substring 0 (String.length status) status).
    apply substring_whole.
Qed.

(** Keys that [parseKey] gives up on: without two underscores, or with
    an underscore in front, all three parts come back empty. *)
Theorem parseKey_degenerate :
  forall a b : string,
  no_underscore a = true -> no_underscore b = true ->
  parseKey a = ("", "", "") /\
  parseKey (a ++ "_" ++ b) = ("", "", "") /\
  parseKey ("_" ++ a) = ("", "", "") /\
  (forall rest, parseKey ("_" ++ rest) = ("", "", "")).
Proof.
  intros a b Ha Hb.
  assert (P : forall s i f l, no_underscore s = true ->
                              parseKey_scan s i f l = (f, l)).
  { intros s i f l H. rewrite <- (string_app_nil_r s).
    now rewrite parseKey_scan_plain by exact H. }
  assert (Lead : forall rest, parseKey ("_" ++ rest) = ("", "", "")).
  { intros rest. unfold parseKey. rewrite parseKey_scan_underscore.
    change (-1 =? -1) with true. cbv iota.
    pose proof (parseKey_scan_first rest (0 + 1) 0 (-1) ltac:(lia)) as F.
    destruct (parseKey_scan rest (0 + 1) 0 (-1)) as [f l]. simpl in F. subst f.
    reflexivity. }
  split; [|split; [|split; [apply Lead | exact Lead]]].
  - unfold parseKey. rewrite P by exact Ha. reflexivity.
  - unfold parseKey. rewrite parseKey_scan_plain by exact Ha.
    rewrite parseKey_scan_underscore. change (-1 =? -1) with true. cbv iota.
    rewrite P by exact Hb.
    destruct (Z.gtb_spec (-1) (0 + Z.of_nat (String.length a))); [lia|].
    now rewrite andb_false_r.
Qed.

Lemma parseKey_metrics_key_witness :
  parseKey (metrics_key "GET" "/api/v1/my_posts/:id" "200") =
  ("GET", "/api/v1/my_posts/:id", "200").
Proof.
  assert (N : "GET" <> "") by discriminate.
  exact (parseKey_metrics_key "GET" "/api/v1/my_posts/:id" "200" N eq_refl eq_refl).
Defined.

Lemma parseKey_degenerate_witness :
  parseKey "GET_200" = ("", "", "").
Proof.
  exact (proj1 (proj2 (parseKey_degenerate "GET" "200" eq_refl eq_refl))).
Defined.

(* ================================================================= *)
(** ** Slugs *)

Lemma collapse_hyphens_In (s : runes) (c : rune) :
  In c (collapse_hyphens s) -> In c s.
Proof.
  induction s as [|x s IH]; [auto|]. cbn [collapse_hyphens].
  destruct ((x =? hyphen) && _).
  - intros H. right. now apply IH.
  - intros [H|H]; [now left | right; now apply IH].
Qed.

(** After [collapse_hyphens] no hyphen follows a hyphen. *)
Lemma collapse_hyphens_single (s : runes) :
  forall l1 l2, collapse_hyphens s <> l1 ++ hyphen :: hyphen :: l2.
Proof.
  induction s as [|x s IH]; intros l1 l2.
  - destruct l1; discriminate.
  - cbn [collapse_hyphens].
    destruct (Z.eqb_spec x hyphen) as [E|N]; cbn [andb].
    + destruct s as [|h s'].
      * cbn [collapse_hyphens]. destruct l1 as [|a [|b l1]]; discriminate.
      * destruct (Z.eqb_spec h hyphen) as [E'|N']; [apply IH|].
        destruct l1 as [|a l1]; cbn [app].
        -- intros H. injection H as _ H.
           cbn [collapse_hyphens] in H.
           destruct ((h =? hyphen) && _) eqn:B.
           ++ apply andb_true_iff in B. destruct B as [B _].
              apply Z.eqb_eq in B. contradiction.
           ++ injection H as H _. contradiction.
        -- intros H. injection H as _ H. revert H. apply IH.
    + destruct l1 as [|a l1]; cbn [app].
      * intros H. injection H as H _. contradiction.
      * intros H. injection H as _ H. revert H. apply IH.
Qed.

Lemma trim_left_split (s : runes) :
  exists d, s = d ++ trim_left s /\ Forall (fun c => c = hyphen) d.
Proof.
  induction s as [|x s (d & E & F)]; [exists []; split; [reflexivity|constructor]|].
  cbn [trim_left]. destruct (Z.eqb_spec x hyphen) as [Hx|N].
  - exists (x :: d). split; [cbn [app]; now f_equal | now constructor].
  - exists []. split; [reflexivity | constructor].
Qed.

Lemma trim_left_head (s t : runes) : trim_left s <> hyphen :: t.
Proof.
  induction s as [|x s IH]; [discriminate|]. cbn [trim_left].
  destruct (Z.eqb_spec x hyphen) as [E|N]; [exact IH|].
  intros H. injection H as H _. contradiction.
Qed.

(** What [strings_Trim] cuts off: hyphens in front and hyphens behind. *)
Lemma strings_Trim_split (s : runes) :
  exists front back,
    s = front ++ strings_Trim s ++ back /\
    Forall (fun c => c = hyphen) front /\ Forall (fun c => c = hyphen) back.
Proof.
  destruct (trim_left_split s) as (d1 & E1 & F1).
  destruct (trim_left_split (rev (trim_left s))) as (d2 & E2 & F2).
  exists d1, (rev d2). split; [|split; [exact F1 | now apply Forall_rev]].
  unfold strings_Trim. rewrite <- rev_app_distr, <- E2, rev_involutive.
  exact E1.
Qed.

Lemma strings_Trim_ends (s t : runes) :
  strings_Trim s <> hyphen :: t /\ strings_Trim s <> t ++ [hyphen].
Proof.
  split.
  - intros H.
    destruct (trim_left_split (rev (trim_left s))) as (d2 & E2 & _).
    assert (E : trim_left s = strings_Trim s ++ rev d2).
    { unfold strings_Trim. rewrite <- rev_app_distr, <- E2.
      now rewrite rev_involutive. }
    rewrite H in E. cbn [app] in E. revert E. apply trim_left_head.
  - unfold strings_Trim. intros H.
    apply (f_equal (@rev rune)) in H.
    rewrite rev_involutive, rev_app_distr in H. cbn [rev app] in H.
    revert H. apply trim_left_head.
Qed.

Section SlugProofs.
Variable unicode_ToLower : rune -> rune.
Variable unicode_IsLetter : rune -> bool.
Variable unicode_IsDigit : rune -> bool.

Let slug_of := generateSlug unicode_ToLower unicode_IsLetter unicode_IsDigit.
Let slug_ok := slug_rune unicode_IsLetter unicode_IsDigit.
Let hyph := hyphenate unicode_IsLetter unicode_IsDigit.

(** A slug is made of letters, digits and hyphens only; it neither starts
    nor ends with a hyphen, and no hyphen follows a hyphen. *)
Theorem generateSlug_shape :
  forall title : runes,
  Forall (fun c => slug_ok c = true) (slug_of title) /\
  (forall t, slug_of title <> hyphen :: t) /\
  (forall t, slug_of title <> t ++ [hyphen]) /\
  (forall l1 l2, slug_of title <> l1 ++ hyphen :: hyphen :: l2).
Proof.
  intros title. unfold slug_of, generateSlug.
  set (mapped := map (hyphenate unicode_IsLetter unicode_IsDigit)
                     (map replace_rune (map unicode_ToLower title))).
  destruct (strings_Trim_split (collapse_hyphens mapped)) as (front & back & E & _).
  split; [|split; [|split]].
  - apply Forall_forall. intros c Hc.
    assert (Hin : In c mapped).
    { apply collapse_hyphens_In. rewrite E. apply in_or_app. right.
      apply in_or_app. now left. }
    unfold mapped in Hin. apply in_map_iff in Hin. destruct Hin as (r & <- & _).
    unfold slug_ok, slug_rune, hyphenate.
    destruct (unicode_IsLetter r || unicode_IsDigit r) eqn:B.
    + now rewrite B.
    + now rewrite Z.eqb_refl, orb_true_r.
  - intros t. apply strings_Trim_ends.
  - intros t. apply strings_Trim_ends.
  - intros l1 l2 H. rewrite H in E.
    apply (collapse_hyphens_single mapped (front ++ l1) (l2 ++ back)).
    rewrite E. now rewrite <- !app_assoc.
Qed.

(** A title without a letter or digit has the empty slug: so has the
    empty title, and so has a title of punctuation and spaces. *)
Theorem generateSlug_empty :
  forall title : runes,
  Forall (fun c => hyph (replace_rune (unicode_ToLower c)) = hyphen) title ->
  slug_of title = [].
Proof.
  intros title H. unfold slug_of, generateSlug.
  set (mapped := map (hyphenate unicode_IsLetter unicode_IsDigit)
                     (map replace_rune (map unicode_ToLower title))).
  assert (A : Forall (fun c => c = hyphen) (collapse_hyphens mapped)).
  { apply Forall_forall. intros c Hc. apply collapse_hyphens_In in Hc.
    unfold mapped in Hc. rewrite !map_map in Hc.
    apply in_map_iff in Hc. destruct Hc as (r & <- & Hr).
    rewrite Forall_forall in H. now apply H. }
  assert (T : forall s, Forall (fun c => c = hyphen) s -> trim_left s = []).
  { induction s as [|x s IH]; [reflexivity|]. intros F.
    inversion F as [|? ? Hx Hs]; subst. cbn [trim_left].
    rewrite Z.eqb_refl. now apply IH. }
  unfold strings_Trim. rewrite (T _ A). reflexivity.
Qed.
End SlugProofs.

Lemma generateSlug_empty_witness :
  generateSlug ascii_ToLower ascii_IsLetter ascii_IsDigit (runes_of "?! ...") = [].
Proof.
  apply generateSlug_empty. repeat constructor.
Defined.

(* ================================================================= *)
(** ** Unique slugs *)

Lemma strconv_Itoa_inj (a b : Z) : strconv_Itoa a = strconv_Itoa b -> a = b.
Proof.
  unfold strconv_Itoa. intros H.
  apply (f_equal NilEmpty.int_of_string) in H. rewrite !NilEmpty.isi in H.
  injection H as H'. apply (f_equal Z.of_int) in H'.
  now rewrite !DecimalZ.of_to in H'.
Qed.

Lemma string_app_cancel (s a b : string) :
  (s ++ a)%string = (s ++ b)%string -> a = b.
Proof.
  induction s as [|c s IH]; simpl; intros H; [exact H|].
  injection H as H'. now apply IH.
Qed.

Lemma string_app_longer (s a : string) (c : ascii) :
  s <> (s ++ String c a)%string.
Proof.
  intros H. apply (f_equal String.length) in H.
  rewrite string_length_app in H. simpl in H. lia.
Qed.

(** The candidates of the successive rounds are all different. *)
Lemma slug_candidate_inj (slug : string) (i j : Z) :
  1 <= i -> 1 <= j -> slug_candidate slug i = slug_candidate slug j -> i = j.
Proof.
  intros Hi Hj. unfold slug_candidate.
  destruct (Z.leb_spec i 1) as [Li|Li], (Z.leb_spec j 1) as [Lj|Lj];
    intros H; try lia.
  - exfalso. revert H. apply string_app_longer.
  - exfalso. symmetry in H. revert H. apply string_app_longer.
  - apply string_app_cancel in H. injection H as H'.
    now apply strconv_Itoa_inj.
Qed.

Lemma count_zero (f : BlogPost -> bool) (l : list BlogPost) :
  (Z.of_nat (List.length (List.filter f l)) =? 0) = negb (existsb f l).
Proof.
  induction l as [|x l IH]; [reflexivity|]. simpl.
  destruct (f x); simpl; [|exact IH].
  destruct (Z.eqb_spec (Z.pos (Pos.of_succ_nat (List.length (List.filter f l)))) 0);
    [lia | reflexivity].
Qed.

(** Not all of the first [n + 1] candidates can be taken by [n] posts. *)
Lemma slug_candidates_pigeonhole (d : DB) (slug : string) (excludeID : ObjectID) :
  ~ (forall i, 1 <= i <= Z.of_nat (List.length (Posts d)) + 1 ->
               slug_taken d (slug_candidate slug i) excludeID = true).
Proof.
  intros All.
  set (n := List.length (Posts d)) in *.
  set (cands := map (fun i => slug_candidate slug (Z.of_nat i)) (seq 1 (S n))).
  assert (ND : NoDup cands).
  { unfold cands. apply NoDup_map_NoDup_ForallPairs; [|apply seq_NoDup].
    intros a b Ha Hb E. apply in_seq in Ha. apply in_seq in Hb.
    apply slug_candidate_inj in E; lia. }
  assert (Inc : incl cands (map post_Slug (Posts d))).
  { intros c Hc. unfold cands in Hc. apply in_map_iff in Hc.
    destruct Hc as (i & <- & Hi). apply in_seq in Hi.
    specialize (All (Z.of_nat i) ltac:(lia)).
    unfold slug_taken in All. apply existsb_exists in All.
    destruct All as (p & Hp & Hf). unfold slug_filter in Hf.
    apply andb_true_iff in Hf. destruct Hf as [Hs _].
    apply String.eqb_eq in Hs. rewrite <- Hs. now apply in_map. }
  pose proof (NoDup_incl_length ND Inc) as L.
  unfold cands in L. rewrite !length_map, length_seq in L. fold n in L. lia.
Qed.

(** The loop, entered in round [k] with every earlier candidate taken,
    stops at the first free candidate. *)
Lemma ensureUniqueSlug_loop_finds (slug : string) (excludeID : ObjectID)
      (env : Env) (d : DB) :
  quiet env -> no_faults env ->
  forall (fuel : nat) (k : Z) (w : World),
  db w = d -> 1 <= k ->
  Z.of_nat (List.length (Posts d)) + 1 < k + Z.of_nat fuel ->
  (forall i, 1 <= i < k -> slug_taken d (slug_candidate slug i) excludeID = true) ->
  exists j n,
    k <= j <= Z.of_nat (List.length (Posts d)) + 1 /\
    slug_taken d (slug_candidate slug j) excludeID = false /\
    (forall i, 1 <= i < j ->
               slug_taken d (slug_candidate slug i) excludeID = true) /\
    ensureUniqueSlug_loop fuel slug (slug_candidate slug k) k excludeID env w =
    (Some (SlugFound (slug_candidate slug j)), mkWorld d n (effects w)).
Proof.
  intros Q NF. induction fuel as [|fuel IH]; intros k w Hd Hk Hfuel Hprev.
  - exfalso. apply (slug_candidates_pigeonhole d slug excludeID).
    intros i Hi. apply Hprev. lia.
  - cbn [ensureUniqueSlug_loop]. unfold bind, Posts_CountDocuments.
    rewrite store_op_quiet by apply Q. rewrite (NF _). cbn [fst snd].
    rewrite count_zero, Hd. fold (slug_taken d (slug_candidate slug k) excludeID).
    destruct (slug_taken d (slug_candidate slug k) excludeID) eqn:T; cbn [negb].
    + assert (Next : (slug ++ "-" ++ strconv_Itoa (k + 1))%string =
                     slug_candidate slug (k + 1)).
      { unfold slug_candidate. destruct (Z.leb_spec (k + 1) 1); [lia|reflexivity]. }
      rewrite Next.
      destruct (IH (k + 1) (mkWorld d (S (issued w)) (effects w)))
        as (j & n & Hj & Hfree & Hleast & Hrun); auto; try lia.
      { intros i Hi. destruct (Z.eq_dec i k) as [->|N]; [exact T|].
        apply Hprev. lia. }
      exists j, n. split; [lia|]. split; [exact Hfree|]. split; [exact Hleast|].
      exact Hrun.
    + exists k, (S (issued w)).
      assert (Hle : k <= Z.of_nat (List.length (Posts d)) + 1).
      { destruct (Z_le_gt_dec k (Z.of_nat (List.length (Posts d)) + 1)) as [C|C];
          [exact C|].
        exfalso. apply (slug_candidates_pigeonhole d slug excludeID).
        intros i Hi. apply Hprev. lia. }
      split; [lia|]. split; [exact T|]. split; [exact Hprev|]. reflexivity.
Qed.

(** [ensureUniqueSlug] terminates: with more rounds than there are posts,
    and every count succeeding, it returns the first candidate in the
    order [slug], [slug-2], [slug-3], ... that no other post has, and it
    leaves the store alone.  In particular a free slug is returned as it
    is, and the numbering starts at 2. *)
Theorem ensureUniqueSlug_finds :
  forall (fuel : nat) (slug : string) (excludeID : ObjectID) (env : Env) (d : DB),
  quiet env -> no_faults env ->
  (List.length (Posts d) < fuel)%nat ->
  let out := run (ensureUniqueSlug fuel slug excludeID) env d in
  exists j,
    1 <= j <= Z.of_nat (List.length (Posts d)) + 1 /\
    fst out = Some (SlugFound (slug_candidate slug j)) /\
    slug_taken d (slug_candidate slug j) excludeID = false /\
    (forall i, 1 <= i < j ->
               slug_taken d (slug_candidate slug i) excludeID = true) /\
    db_of out = d /\
    (slug_taken d slug excludeID = false -> fst out = Some (SlugFound slug)) /\
    (slug_taken d slug excludeID = true ->
     slug_taken d (slug ++ "-2")%string excludeID = false ->
     fst out = Some (SlugFound (slug ++ "-2")%string)).
Proof.
  intros fuel slug excludeID env d Q NF Hfuel out.
  destruct (ensureUniqueSlug_loop_finds slug excludeID env d Q NF fuel 1
              (mkWorld d 0 []) eq_refl ltac:(lia) ltac:(lia) ltac:(intros; lia))
    as (j & n & Hj & Hfree & Hleast & Hrun).
  change (slug_candidate slug 1) with slug in Hrun.
  assert (R : out = (Some (SlugFound (slug_candidate slug j)), mkWorld d n []))
    by exact Hrun.
  exists j. rewrite R. cbn [fst].
  split; [exact Hj|]. split; [reflexivity|]. split; [exact Hfree|].
  split; [exact Hleast|]. split; [reflexivity|]. split.
  - intros F. destruct (Z.eq_dec j 1) as [->|N]; [reflexivity|].
    specialize (Hleast 1 ltac:(lia)).
    change (slug_candidate slug 1) with slug in Hleast. congruence.
  - intros T F.
    destruct (Z.eq_dec j 1) as [->|N1].
    { change (slug_candidate slug 1) with slug in Hfree. congruence. }
    destruct (Z.eq_dec j 2) as [->|N2]; [reflexivity|].
    specialize (Hleast 2 ltac:(lia)).
    change (slug_candidate slug 2) with (slug ++ "-2")%string in Hleast.
    congruence.
Qed.

Lemma ensureUniqueSlug_finds_witness :
  fst (run (ensureUniqueSlug 3 "hello" NilObjectID) calm crowded_db) =
  Some (SlugFound "hello-3").
Proof.
  destruct (ensureUniqueSlug_finds 3 "hello" NilObjectID calm crowded_db
              quiet_calm no_faults_calm ltac:(simpl; lia))
    as (j & Hj & Hout & Hfree & _).
  assert (C : j = 1 \/ j = 2 \/ j = 3) by (simpl in Hj; lia).
  destruct C as [-> | [-> | ->]]; [discriminate Hfree | discriminate Hfree |].
  exact Hout.
Defined.

(* ================================================================= *)
(** ** Listing comments *)

(** [enrichCommentsWithAuthor] reads the profiles and nothing else: one
    response per comment, in the same order, around the same comment. *)
Lemma enrichCommentsWithAuthor_run (comments : list PostComment)
      (env : Env) (w : World) :
  quiet env ->
  exists rs n,
    enrichCommentsWithAuthor comments env w = (rs, mkWorld (db w) n (effects w)) /\
    map cr_PostComment rs = comments.
Proof.
  intros Q. unfold enrichCommentsWithAuthor.
  destruct comments as [|c l].
  { exists [], (issued w). destruct w; split; reflexivity. }
  cbn [List.length Nat.eqb]. unfold bind, ret.
  rewrite Profiles_Find_quiet by apply Q.
  set (ids := map comment_UserID (c :: l)).
  destruct (fails env (issued w)); eexists _, _; (split; [reflexivity|]);
    rewrite map_map; cbn [fst snd];
    (rewrite <- (map_id (c :: l)) at 2; apply map_ext; intros a;
     destruct (find _ _); reflexivity).
Qed.

Lemma In_firstn_list {T : Type} (n : nat) (l : list T) (x : T) :
  In x (firstn n l) -> In x l.
Proof.
  intros H. rewrite <- (firstn_skipn n l). apply in_or_app. now left.
Qed.

Lemma In_skipn_list {T : Type} (n : nat) (l : list T) (x : T) :
  In x (skipn n l) -> In x l.
Proof.
  intros H. rewrite <- (firstn_skipn n l). apply in_or_app. now right.
Qed.

Lemma Forall_firstn_list {T : Type} (P : T -> Prop) (n : nat) (l : list T) :
  Forall P l -> Forall P (firstn n l).
Proof.
  intros H. apply Forall_forall. intros x Hx.
  apply In_firstn_list in Hx. revert x Hx. now apply Forall_forall.
Qed.

Lemma StronglySorted_firstn {T : Type} (R : T -> T -> Prop) (n : nat)
      (l : list T) :
  StronglySorted R l -> StronglySorted R (firstn n l).
Proof.
  intros H. revert n.
  induction H as [|a l Hl IH Ha]; intros [|n]; cbn [firstn]; try constructor.
  - apply IH.
  - now apply Forall_firstn_list.
Qed.

Lemma StronglySorted_skipn {T : Type} (R : T -> T -> Prop) (n : nat)
      (l : list T) :
  StronglySorted R l -> StronglySorted R (skipn n l).
Proof.
  revert l. induction n as [|n IH]; intros l H; [exact H|].
  destruct l as [|a l]; [exact H|].
  cbn [skipn]. apply IH. now apply StronglySorted_inv in H.
Qed.

(** In a sorted list, what comes first is related to what comes later. *)
Lemma StronglySorted_split {T : Type} (R : T -> T -> Prop) (n : nat)
      (l : list T) (a b : T) :
  StronglySorted R l -> In a (firstn n l) -> In b (skipn n l) -> R a b.
Proof.
  intros H. revert n.
  induction H as [|x l Hl IH Hx]; intros n Ha Hb.
  - destruct n; destruct Ha.
  - destruct n as [|n]; [destruct Ha|].
    cbn [firstn skipn] in Ha, Hb. destruct Ha as [<-|Ha].
    + apply In_skipn_list in Hb. rewrite Forall_forall in Hx. now apply Hx.
    + now apply (IH n).
Qed.

Lemma int_wrap_exact (z : Z) : is_int z -> int_wrap z = z.
Proof.
  unfold is_int, int_wrap. intros H.
  rewrite Z.mod_small by lia. lia.
Qed.

(** Wrapping once at the end is wrapping after every operation. *)
Lemma int_mul_sub (a b c : Z) :
  int_mul (int_sub a b) c = int_wrap ((a - b) * c).
Proof.
  unfold int_mul, int_sub, int_wrap.
  f_equal.
  replace ((a - b + 2 ^ 63) mod 2 ^ 64 - 2 ^ 63)
    with ((a - b + 2 ^ 63) mod 2 ^ 64 + (- 2 ^ 63)) by lia.
  rewrite Z.mul_add_distr_r.
  rewrite <- Z.add_assoc.
  rewrite <- Zplus_mod_idemp_l, <- Zmult_mod_idemp_l, Z.mod_mod by lia.
  rewrite Zmult_mod_idemp_l, Zplus_mod_idemp_l.
  f_equal. lia.
Qed.

Lemma insert_newest_first_permutes (c : PostComment) (l : list PostComment) :
  Permutation (insert_newest_first c l) (c :: l).
Proof.
  induction l as [|x t IH]; cbn [insert_newest_first]; [reflexivity|].
  destruct (comment_CreatedAt x <=? comment_CreatedAt c); [reflexivity|].
  rewrite IH. apply perm_swap.
Qed.

Lemma newest_first_permutes (l : list PostComment) :
  Permutation (newest_first l) l.
Proof.
  induction l as [|c t IH]; cbn [newest_first]; [reflexivity|].
  rewrite insert_newest_first_permutes. now constructor.
Qed.

Lemma insert_newest_first_sorted (c : PostComment) (l : list PostComment) :
  StronglySorted newer_or_same l ->
  StronglySorted newer_or_same (insert_newest_first c l).
Proof.
  intros H. induction H as [|x t Ht IH Hx]; cbn [insert_newest_first].
  - repeat constructor.
  - destruct (Z.leb_spec (comment_CreatedAt x) (comment_CreatedAt c)) as [Hle|Hgt].
    + constructor; [now constructor|].
      constructor; [exact Hle|].
      eapply Forall_impl; [|exact Hx].
      unfold newer_or_same. intros y Hy. lia.
    + constructor; [exact IH|].
      apply Forall_forall. intros y Hy.
      apply (Permutation_in _ (insert_newest_first_permutes c t)) in Hy.
      destruct Hy as [<-|Hy]; [unfold newer_or_same; lia|].
      revert y Hy. now apply Forall_forall.
Qed.

Lemma newest_first_sorted (l : list PostComment) :
  StronglySorted newer_or_same (newest_first l).
Proof.
  induction l as [|c t IH]; cbn [newest_first]; [constructor|].
  now apply insert_newest_first_sorted.
Qed.

Section ListCommentsProofs.
Variable sort_created_at_desc : list PostComment -> list PostComment.
Hypothesis sort_permutes : forall l, Permutation (sort_created_at_desc l) l.
Hypothesis sort_sorts :
  forall l, StronglySorted newer_or_same (sort_created_at_desc l).

(** A page of comments, on a server that hands the comments of the post
    out newest first.  [page] below 1 counts as 1 and [limit] outside
    1..50 as 20; the number of comments to skip is [(page - 1) * limit]
    computed in Go's [int], which is that product as long as it stays
    below [2 ^ 63] and wraps around beyond.  The store is only read.
    When the wrapped product is negative the answer is a 500, the find
    having failed.  Otherwise the answer repeats [page] and [limit], gives
    the number of all comments of the post as [total], and holds at most
    [limit] comments, each of them a stored comment of this post: those
    that the sorted list has after the first [skip], newest first, every
    skipped comment being at least as new as every comment of the page.
    A page beyond the last one is empty. *)
Theorem ListComments_page :
  forall (r : ListCommentsRequest) (env : Env) (d : DB) (post : BlogPost),
  quiet env -> no_faults env ->
  lc_Slug r <> "" -> published_post d (lc_Slug r) = Some post ->
  is_int (lc_Page r) ->
  let out := run (ListComments sort_created_at_desc r) env d in
  let all := comments_of_post d (post_ID post) in
  let page := Z.max 1 (lc_Page r) in
  let limit := if (1 <=? lc_Limit r) && (lc_Limit r <=? 50) then lc_Limit r
               else 20 in
  let skip := int_wrap ((page - 1) * limit) in
  db_of out = d /\
  1 <= limit <= 50 /\
  ((page - 1) * limit < 2 ^ 63 -> skip = (page - 1) * limit) /\
  (skip < 0 ->
   fst out = Failed "Error fetching comments" StatusInternalServerError) /\
  (0 <= skip ->
   exists resp,
     fst out = Encoded resp /\
     clr_Page resp = page /\ clr_Limit resp = limit /\
     clr_Total resp = Z.of_nat (List.length all) /\
     map cr_PostComment (clr_Comments resp) =
       firstn (Z.to_nat limit)
              (skipn (Z.to_nat skip) (sort_created_at_desc all)) /\
     Z.of_nat (List.length (clr_Comments resp)) <= limit /\
     Forall (fun c => In (cr_PostComment c) (PostComments d) /\
                      comment_PostID (cr_PostComment c) = post_ID post)
            (clr_Comments resp) /\
     StronglySorted newer_or_same (map cr_PostComment (clr_Comments resp)) /\
     (forall a c,
        In a (firstn (Z.to_nat skip) (sort_created_at_desc all)) ->
        In c (clr_Comments resp) -> newer_or_same a (cr_PostComment c)) /\
     (Z.of_nat (List.length all) <= skip -> clr_Comments resp = [])).
Proof.
  intros r env d post Q NF Hs Hp Hint out all page limit skip. subst out.
  unfold ListComments.
  destruct (String.eqb_spec (lc_Slug r) "") as [E|_]; [contradiction|].
  assert (Hpage : (if lc_Page r <? 1 then 1 else lc_Page r) = page).
  { unfold page. destruct (Z.ltb_spec (lc_Page r) 1); lia. }
  assert (Hlimit : (if (lc_Limit r <? 1) || (lc_Limit r >? 50) then 20
                    else lc_Limit r) = limit).
  { unfold limit.
    destruct (Z.ltb_spec (lc_Limit r) 1), (Z.gtb_spec (lc_Limit r) 50),
             (Z.leb_spec 1 (lc_Limit r)), (Z.leb_spec (lc_Limit r) 50);
      cbn [orb andb]; lia. }
  assert (Hrange : 1 <= limit <= 50).
  { unfold limit.
    destruct (Z.leb_spec 1 (lc_Limit r)), (Z.leb_spec (lc_Limit r) 50);
      cbn [andb]; lia. }
  rewrite Hpage, Hlimit, int_mul_sub. fold skip.
  assert (Hexact : (page - 1) * limit < 2 ^ 63 -> skip = (page - 1) * limit).
  { intros Hlt. apply int_wrap_exact. unfold is_int. split; [|exact Hlt].
    assert (0 <= (page - 1) * limit) by (apply Z.mul_nonneg_nonneg; lia). lia. }
  handler_start. store_step Q. rewrite (NF 0%nat), Hp.
  unfold PostComments_CountDocuments. op_step Q. rewrite (NF 1%nat). cbn [fst snd].
  unfold PostComments_Find. op_step Q. rewrite (NF 2%nat).
  fold (comments_of_post d (post_ID post)). fold all.
  destruct (Z.ltb_spec skip 0) as [Hneg|Hpos]; cbn [fst snd].
  { split; [reflexivity|]. split; [exact Hrange|]. split; [exact Hexact|].
    split; [intros _; reflexivity | intros; lia]. }
  unfold cursor_All. op_step Q. rewrite (NF 3%nat). cbn [fst snd].
  set (chosen := firstn (Z.to_nat limit)
                   (skipn (Z.to_nat skip) (sort_created_at_desc all))).
  destruct (enrichCommentsWithAuthor_run chosen env (mkWorld d 4 []) Q)
    as (rs & n & Hrun & Hrs).
  rewrite Hrun. cbn [fst snd db_of db effects].
  split; [reflexivity|]. split; [exact Hrange|]. split; [exact Hexact|].
  split; [intros; lia|]. intros _.
  exists (mkCommentListResponse rs (Z.of_nat (List.length all)) page limit).
  cbn [clr_Comments clr_Total clr_Page clr_Limit].
  assert (Hlen : List.length rs = List.length chosen)
    by (rewrite <- Hrs; now rewrite length_map).
  assert (Hin : forall c, In c chosen -> In c all).
  { intros c Hc. unfold chosen in Hc. apply In_firstn_list, In_skipn_list in Hc.
    eapply Permutation_in; [apply sort_permutes | exact Hc]. }
  split; [reflexivity|]. split; [reflexivity|]. split; [reflexivity|].
  split; [reflexivity|]. split; [exact Hrs|].
  split.
  { rewrite Hlen. unfold chosen. rewrite length_firstn. lia. }
  split.
  { apply Forall_forall. intros c Hc.
    assert (In (cr_PostComment c) chosen) by (rewrite <- Hrs; now apply in_map).
    apply Hin in H. unfold all, comments_of_post in H.
    apply filter_In in H. destruct H as [H1 H2]. apply Z.eqb_eq in H2.
    split; assumption. }
  split.
  { rewrite Hrs. unfold chosen.
    apply StronglySorted_firstn, StronglySorted_skipn, sort_sorts. }
  split.
  { intros a c Ha Hc.
    assert (Hc' : In (cr_PostComment c) chosen)
      by (rewrite <- Hrs; now apply in_map).
    unfold chosen in Hc'. apply In_firstn_list in Hc'.
    exact (StronglySorted_split newer_or_same (Z.to_nat skip) _ a _
             (sort_sorts all) Ha Hc'). }
  intros Hbeyond.
  assert (Hc : chosen = []).
  { unfold chosen. rewrite skipn_all2; [now rewrite firstn_nil|].
    rewrite (Permutation_length (sort_permutes all)). lia. }
  rewrite Hc in Hlen. destruct rs; [reflexivity | discriminate].
Qed.
End ListCommentsProofs.

(** Of the three comments of the sample post, written at 900, 950 and
    920, the first page of two holds those of 950 and 920; and the last
    page an [int] can name makes the product wrap to -40, which the server
    refuses. *)
Lemma ListComments_page_witness :
  (exists resp,
     fst (run (ListComments newest_first (mkListCommentsRequest "hello" 0 2))
              calm discussed_db) = Encoded resp /\
     clr_Page resp = 1 /\ clr_Limit resp = 2 /\ clr_Total resp = 3 /\
     map comment_ID (map cr_PostComment (clr_Comments resp)) = [501; 502]) /\
  fst (run (ListComments newest_first
              (mkListCommentsRequest "hello" (2 ^ 63 - 1) 500))
           calm discussed_db) =
    Failed "Error fetching comments" StatusInternalServerError.
Proof.
  split.
  - assert (Hs : lc_Slug (mkListCommentsRequest "hello" 0 2) <> "")
      by discriminate.
    assert (Hi : is_int (lc_Page (mkListCommentsRequest "hello" 0 2)))
      by (unfold is_int; simpl; lia).
    destruct (ListComments_page newest_first newest_first_permutes
                newest_first_sorted
                (mkListCommentsRequest "hello" 0 2) calm discussed_db
                (mkBlogPost 1 7 "hello" "published" 10 3 5 3)
                quiet_calm no_faults_calm Hs eq_refl Hi)
      as (_ & _ & _ & _ & H).
    destruct H as (resp & A & P & L & T & C & _); [vm_compute; discriminate|].
    exists resp. split; [exact A|]. split; [exact P|]. split; [exact L|].
    split; [exact T|]. rewrite C. reflexivity.
  - assert (Hs : lc_Slug (mkListCommentsRequest "hello" (2 ^ 63 - 1) 500) <> "")
      by discriminate.
    assert (Hi : is_int (lc_Page (mkListCommentsRequest "hello" (2 ^ 63 - 1) 500)))
      by (unfold is_int; simpl; lia).
    destruct (ListComments_page newest_first newest_first_permutes
                newest_first_sorted
                (mkListCommentsRequest "hello" (2 ^ 63 - 1) 500) calm discussed_db
                (mkBlogPost 1 7 "hello" "published" 10 3 5 3)
                quiet_calm no_faults_calm Hs eq_refl Hi)
      as (_ & _ & _ & H & _).
    apply H. reflexivity.
Defined.

(** ** Authors of comments *)

Lemma find_app {T : Type} (f : T -> bool) (a b : list T) :
  find f (a ++ b) = match find f a with Some x => Some x | None => find f b end.
Proof.
  induction a as [|x a IH]; [reflexivity|]. simpl. destruct (f x); auto.
Qed.

Lemma find_none_iff {T : Type} (f : T -> bool) (l : list T) :
  find f l = None <-> forall x, In x l -> f x = false.
Proof.
  split.
  - intros H x Hx. now apply (find_none f l H).
  - induction l as [|y l IH]; [reflexivity|]. intros H. simpl.
    rewrite (H y) by now left. apply IH. intros x Hx. apply H. now right.
Qed.

(** With one document per key, it does not matter from which end a
    collection is searched. *)
Lemma find_rev_unique {T : Type} (key : T -> Z) (k : Z) (l : list T) :
  NoDup (map key l) ->
  find (fun x => key x =? k) (rev l) = find (fun x => key x =? k) l.
Proof.
  induction l as [|x l IH]; intros ND; [reflexivity|].
  inversion ND as [|? ? Hx ND']; subst.
  cbn [rev find]. rewrite find_app. cbn [find].
  destruct (Z.eqb_spec (key x) k) as [E|N].
  - assert (Hnone : find (fun y => key y =? k) (rev l) = None).
    { apply find_none_iff. intros y Hy. apply in_rev in Hy.
      apply Z.eqb_neq. intros E'. apply Hx. rewrite E, <- E'. now apply in_map. }
    now rewrite Hnone.
  - rewrite (IH ND'). destruct (find _ l); reflexivity.
Qed.

Lemma find_filter {T : Type} (f g : T -> bool) (l : list T) :
  (forall x, f x = true -> g x = true) ->
  find f (List.filter g l) = find f l.
Proof.
  intros H. induction l as [|x l IH]; [reflexivity|]. simpl.
  destruct (g x) eqn:G; simpl.
  - destruct (f x); auto.
  - destruct (f x) eqn:F; [|exact IH]. apply H in F. congruence.
Qed.

Lemma NoDup_map_filter {T : Type} (key : T -> Z) (g : T -> bool) (l : list T) :
  NoDup (map key l) -> NoDup (map key (List.filter g l)).
Proof.
  induction l as [|x l IH]; intros ND; [constructor|].
  inversion ND as [|? ? Hx ND']; subst. simpl.
  destruct (g x); simpl; [|now apply IH].
  constructor; [|now apply IH].
  intros Hin. apply Hx. apply in_map_iff in Hin. destruct Hin as (y & E & Hy).
  apply filter_In in Hy. rewrite <- E. apply in_map. tauto.
Qed.

(** [enrichCommentsWithAuthor] answers with one response per comment, in
    the order of the comments; with one profile per user, each response
    carries the name and the avatar of the profile of the comment's
    author when the profiles could be read and the author has one, and
    empty ones otherwise. *)
Theorem enrichCommentsWithAuthor_authors :
  forall (comments : list PostComment) (env : Env) (w : World),
  quiet env ->
  NoDup (map profile_UserID (Profiles (db w))) ->
  let rs := fst (enrichCommentsWithAuthor comments env w) in
  map cr_PostComment rs = comments /\
  Forall (fun r =>
            match (if fails env (issued w) then None
                   else profile_of (db w) (comment_UserID (cr_PostComment r))) with
            | Some p =>
                cr_AuthorName r = profile_Name p /\
                cr_AuthorAvatar r = profile_Avatar p
            | None => cr_AuthorName r = "" /\ cr_AuthorAvatar r = ""
            end) rs.
Proof.
  intros comments env w Q ND rs. subst rs.
  destruct (enrichCommentsWithAuthor_run comments env w Q) as (rs0 & n & R & Hm).
  split; [rewrite R; exact Hm|].
  unfold enrichCommentsWithAuthor.
  destruct comments as [|c l]; [constructor|].
  cbn [List.length Nat.eqb]. unfold bind, ret.
  rewrite Profiles_Find_quiet by apply Q.
  set (ids := map comment_UserID (c :: l)).
  destruct (fails env (issued w)); cbn [fst snd].
  - apply Forall_forall. intros r Hr. apply in_map_iff in Hr.
    destruct Hr as (a & <- & _). cbn. split; reflexivity.
  - apply Forall_forall. intros r Hr. apply in_map_iff in Hr.
    destruct Hr as (a & <- & Ha).
    set (g := fun p : Profile => existsb (Z.eqb (profile_UserID p)) ids).
    assert (F : find (fun p => profile_UserID p =? comment_UserID a)
                     (rev (List.filter g (Profiles (db w)))) =
                profile_of (db w) (comment_UserID a)).
    { rewrite (find_rev_unique profile_UserID) by (apply NoDup_map_filter; exact ND).
      unfold profile_of. apply find_filter. intros p Hp. unfold g.
      apply existsb_exists. exists (comment_UserID a). split; [|exact Hp].
      unfold ids. now apply in_map. }
    rewrite F. destruct (profile_of (db w) (comment_UserID a)) as [p|] eqn:P;
      cbn [cr_PostComment]; rewrite P; cbn; split; reflexivity.
Qed.

Lemma enrichCommentsWithAuthor_authors_witness :
  map cr_AuthorName
      (fst (enrichCommentsWithAuthor [sample_comment_doc] calm
                                     (mkWorld commented_db 0 []))) = ["reader"].
Proof.
  assert (ND : NoDup (map profile_UserID (Profiles (db (mkWorld commented_db 0 []))))).
  { simpl. repeat constructor; simpl; intuition discriminate. }
  destruct (enrichCommentsWithAuthor_authors [sample_comment_doc] calm
              (mkWorld commented_db 0 []) quiet_calm ND) as (Hm & Hf).
  destruct (fst (enrichCommentsWithAuthor [sample_comment_doc] calm
                   (mkWorld commented_db 0 []))) as [|r [|r' rs]];
    try discriminate Hm.
  inversion Hf as [|? ? Hr _]; subst.
  injection Hm as Hm. rewrite Hm in Hr. simpl in Hr. destruct Hr as [Hn _].
  simpl. now rewrite Hn.
Defined.
